(** * Warehouse drone: the marker-following flight loop of [flight.py]

    A shallow embedding of [ArucoFlight] (control law, QR payload
    processing, the frame loop of [fly], and the shutdown sequence) together
    with the properties of the navigation state machine.

    Conventions of the embedding:
    - Python floats are read as exact rationals ([Q]); every comparison of
      the source is the same comparison on [Q].
    - Python [str] is a list of Unicode code points.
    - Python sets are [gset]s.
    - Calls into collaborators (flight primitives, persistence, notification
      queue) are recorded, in program order, in a trace of [event]s. *)

From Stdlib Require Import ZArith QArith Qabs Lqa Lia List String Ascii.
From stdpp Require Import base decidable countable gmap sets.
Import ListNotations.

Open Scope Q_scope.

(** ** Rational helpers mirroring the Python operators *)

Definition Qltb (a b : Q) : bool := negb (Qle_bool b a).

(** [max(a, b)] of Python: [b] only when it is strictly greater. *)
Definition py_max (a b : Q) : Q := if Qltb a b then b else a.
Definition py_min (a b : Q) : Q := if Qltb b a then b else a.

(** [np.clip(v, lo, hi)] *)
Definition np_clip (v lo hi : Q) : Q := py_min (py_max v lo) hi.

(** [np.sign] *)
Definition sign (x : Q) : Q :=
  if Qltb 0 x then 1 else if Qltb x 0 then -1 else 0.

(** ** [speed_settings] *)

Record SpeedSettings := {
  max_speed : Q;
  min_speed : Q;
  target_distance : Q;
  distance_threshold : Q;
  yaw_speed : Q;
  control_delay : Q;
  vertical_speed : Q;
  centering_speed : Q;
  center_threshold : Q;
  precise_center_threshold : Q;
  retreat_speed : Q;
  retreat_time : Q;
  min_height : Q;
  aruco_confidence_threshold : Q
}.

(** The values assigned in [ArucoFlight.__init__]. *)
Definition speed_settings : SpeedSettings := {|
  max_speed := 0.18;
  min_speed := 0.1;
  target_distance := 1.35;
  distance_threshold := 0.05;
  yaw_speed := 0.1;
  control_delay := 0.8;
  vertical_speed := 0.09;
  centering_speed := 0.12;
  center_threshold := 70;
  precise_center_threshold := 70;
  retreat_speed := 0.2;
  retreat_time := 3;
  min_height := 0.4;
  aruco_confidence_threshold := 0.65
|}.

(** The speed magnitudes are non-negative and the target distance positive. *)
Record settings_ok (s : SpeedSettings) : Prop := {
  ok_max_speed : 0 <= max_speed s;
  ok_min_speed : 0 <= min_speed s;
  ok_yaw_speed : 0 <= yaw_speed s;
  ok_vertical_speed : 0 <= vertical_speed s;
  ok_centering_speed : 0 <= centering_speed s;
  ok_retreat_speed : 0 <= retreat_speed s;
  ok_target_distance : 0 < target_distance s
}.

(** A body-frame velocity command [(v_x, v_y, v_z, yaw_rate)]. *)
Record Velocity := {
  v_x : Q;
  v_y : Q;
  v_z : Q;
  yaw_rate : Q
}.

Module Control.

(** *** [ArucoFlight.calculate_control_speed]

    [None] stands for the [ZeroDivisionError] of a zero-width frame (or a
    zero target distance); the caller's [except] swallows it and no command
    is sent. *)

Section ControlLaw.
Variable s : SpeedSettings.

Definition x_error (x_center frame_width : Z) : Q :=
  inject_Z x_center - inject_Z frame_width / 2.

Definition x_error_ratio (x_center frame_width : Z) : Q :=
  Qabs (x_error x_center frame_width) / (inject_Z frame_width / 4).

(** The yaw rate before the [yaw_rate *= 0.5] adjustment. *)
Definition graduated_yaw (x_center frame_width : Z) : Q :=
  yaw_speed s * x_error_ratio x_center frame_width
    * sign (x_error x_center frame_width).

(** Lines 278-290: returns [(v_x, yaw_rate)]. *)
Definition lateral_command (x_center frame_width : Z) : option (Q * Q) :=
  let x_center_error := x_error x_center frame_width in
  if Qltb (inject_Z frame_width / 4) (Qabs x_center_error) then
    Some (centering_speed s * sign x_center_error,
          yaw_speed s * sign x_center_error)
  else if Qeq_bool (inject_Z frame_width / 4) 0 then None
  else
    let ratio := x_error_ratio x_center frame_width in
    let yaw := yaw_speed s * ratio * sign x_center_error in
    let vx := py_max (centering_speed s * 0.5) (centering_speed s * ratio)
                * sign x_center_error in
    let yaw :=
      if Qltb (centering_speed s * 0.5) (Qabs vx) then yaw * 0.5 else yaw in
    Some (vx, yaw).

(** Lines 292-293. *)
Definition vertical_command (y_center frame_height : Z) : Q :=
  let y_center_error := inject_Z y_center - inject_Z frame_height / 2 in
  if Qltb (center_threshold s) (Qabs y_center_error)
  then - vertical_speed s * sign y_center_error
  else 0.

(** Lines 295-304. *)
Definition forward_command (distance : Q) (x_center frame_width : Z)
  : option Q :=
  let distance_error := distance - target_distance s in
  let is_centered_x :=
    Qltb (Qabs (x_error x_center frame_width)) (center_threshold s) in
  let is_at_distance :=
    Qltb (Qabs distance_error) (distance_threshold s) in
  if is_centered_x && negb is_at_distance then
    if Qeq_bool (target_distance s) 0 then None
    else
      let distance_ratio := Qabs distance_error / target_distance s in
      let vy := max_speed s * distance_ratio * sign distance_error in
      let vy :=
        if Qltb (Qabs vy) (min_speed s)
        then min_speed s * sign distance_error else vy in
      let vy := if Qltb (Qabs distance_error) 0.2 then vy * 0.4 else vy in
      Some vy
  else Some 0.

Definition calculate_control_speed
    (distance : Q) (x_center y_center frame_height frame_width : Z)
  : option Velocity :=
  match lateral_command x_center frame_width with
  | None => None
  | Some (vx, yaw) =>
    let vz := vertical_command y_center frame_height in
    match forward_command distance x_center frame_width with
    | None => None
    | Some vy => Some {| v_x := vx; v_y := vy; v_z := vz; yaw_rate := yaw |}
    end
  end.

(** Lines 724-735 of [fly]: the command sent when the marker is not yet at
    the stand-off distance. *)
Definition approach_command
    (distance : Q) (x_center y_center frame_height frame_width : Z)
  : option Velocity :=
  match calculate_control_speed distance x_center y_center
          frame_height frame_width with
  | None => None
  | Some v =>
    let vy :=
      if Qltb 0 (Qabs (v_z v)) && Qltb distance (target_distance s * 1.2)
      then v_y v * 0.5 else v_y v in
    Some {| v_x := v_x v; v_y := vy; v_z := v_z v; yaw_rate := yaw_rate v |}
  end.

(** Lines 708-721 of [fly]: the centering command sent at the stand-off
    distance. [None] is the [ZeroDivisionError] of an empty frame. *)
Definition centering_command
    (x_center y_center frame_height frame_width : Z) : option Velocity :=
  let half_w := inject_Z frame_width / 2 in
  let half_h := inject_Z frame_height / 2 in
  if Qeq_bool half_w 0 then None
  else if Qeq_bool half_h 0 then None
  else
    let vx := centering_speed s * (inject_Z x_center - half_w) / half_w in
    let vz := - vertical_speed s * (inject_Z y_center - half_h) / half_h in
    let yaw := yaw_speed s * (inject_Z x_center - half_w) / half_w in
    Some {| v_x := np_clip vx (- centering_speed s) (centering_speed s);
            v_y := 0;
            v_z := np_clip vz (- vertical_speed s) (vertical_speed s);
            yaw_rate := np_clip yaw (- yaw_speed s) (yaw_speed s) |}.

End ControlLaw.

End Control.

(** ** Python strings *)

(** A [str] is its sequence of code points. *)
Definition str := list N.

(** An ASCII literal. *)
Definition lit (s : string) : str := map N_of_ascii (list_ascii_of_string s).

(** The Cyrillic literals of the source, by code point. *)
Definition predmet : str := [1087; 1088; 1077; 1076; 1084; 1077; 1090]%N.
Definition stellazh_ : str := [1057; 1090; 1077; 1083; 1083; 1072; 1078; 32]%N.
Definition polka_ : str := [1055; 1086; 1083; 1082; 1072; 32]%N.

(** The two Unicode-table-driven methods of [str] are taken as an interface:
    [str.lower] and the whitespace predicate behind [str.strip]. *)
Class PyUnicode := {
  lower : str -> str;
  isspace : N -> bool
}.

(** An instance covering ASCII, Latin-1 and the basic Cyrillic block. *)
Definition lower_code_point (c : N) : N :=
  if ((65 <=? c) && (c <=? 90))%N then (c + 32)%N
  else if ((192 <=? c) && (c <=? 222) && negb (c =? 215))%N then (c + 32)%N
  else if ((1040 <=? c) && (c <=? 1071))%N then (c + 32)%N
  else if ((1024 <=? c) && (c <=? 1039))%N then (c + 80)%N
  else c.

Definition space_code_point (c : N) : bool :=
  (((9 <=? c) && (c <=? 13)) || ((28 <=? c) && (c <=? 32))
   || (c =? 133) || (c =? 160) || (c =? 5760)
   || ((8192 <=? c) && (c <=? 8202)) || (c =? 8232) || (c =? 8233)
   || (c =? 8239) || (c =? 8287) || (c =? 12288))%N.

#[export] Instance basic_unicode : PyUnicode := {|
  lower := map lower_code_point;
  isspace := space_code_point
|}.

Module PyStr.

Fixpoint lstrip (ws : N -> bool) (s : str) : str :=
  match s with
  | [] => []
  | c :: rest => if ws c then lstrip ws rest else s
  end.

(** [s.strip()] *)
Definition strip `{PyUnicode} (s : str) : str :=
  rev (lstrip isspace (rev (lstrip isspace s))).

(** [s.split(sep)] for a one-character separator: never empty. *)
Fixpoint split (sep : N) (s : str) : list str :=
  match s with
  | [] => [[]]
  | c :: rest =>
    if (c =? sep)%N then [] :: split sep rest
    else match split sep rest with
         | [] => [[c]]
         | w :: ws => (c :: w) :: ws
         end
  end.

Fixpoint startswith (prefix s : str) : bool :=
  match prefix, s with
  | [], _ => true
  | _ :: _, [] => false
  | p :: prefix', c :: s' => (p =? c)%N && startswith prefix' s'
  end.

(** [needle in s] *)
Fixpoint contains (needle s : str) : bool :=
  startswith needle s ||
  match s with
  | [] => false
  | _ :: rest => contains needle rest
  end.

(** [s.replace(old, '')] for a non-empty [old]: the occurrences are
    removed left to right, without overlap; [skip] counts the code points
    of the current occurrence still to be dropped. *)
Fixpoint remove_from (old : str) (skip : nat) (s : str) : str :=
  match s with
  | [] => []
  | c :: rest =>
    match skip with
    | S k => remove_from old k rest
    | O => if startswith old s
           then remove_from old (Nat.pred (List.length old)) rest
           else c :: remove_from old O rest
    end
  end.

Definition remove (old s : str) : str := remove_from old O s.

End PyStr.

(** ** Collaborator calls *)

(** Texts put on [telegram_queue]; their interpolated contents are not
    modelled. *)
Inductive message :=
| msg_start
| msg_invalid_location
| msg_invalid_format
| msg_already_stored
| msg_check_error
| msg_new_item
| msg_add_error
| msg_process_error
| msg_summary
| msg_save_error
| msg_interrupted
| msg_session_finished
| msg_critical_error.

Inductive event :=
| arm
| takeoff
| set_manual_speed_body_fixed (v : Velocity)
| time_sleep (seconds : Q)
| go_to_local_point (x y z yaw : Q)
| wait_point_reached
| land
| close_connection
| find_item (search_query : str)
| add_item (qr_code name shelf position : str)
| add_scan_history (operation : str) (item_id : option Z) (result : str)
    (session_uuid : option str)
| end_scan_session (session_uuid : str) (status : str) (with_results : bool)
| telegram_put (m : message)
| destroy_window
| destroy_all_windows
| sys_exit (code : Z).

(** What a call into a collaborator does: it returns or it raises. *)
Inductive outcome (A : Type) :=
| Returned (a : A)
| Raised.
Arguments Returned {A} a.
Arguments Raised {A}.

(** The persistence collaborator as seen during one frame: [db_find_item]
    tells whether [find_item] finds an item, [db_add_item] gives the id of the
    stored item. *)
Record Persistence := {
  db_find_item : str -> outcome bool;
  db_add_item : str -> str -> str -> str -> outcome Z
}.

(** ** Session state *)

(** [ARUCO_LOCATIONS] *)
Definition ARUCO_LOCATIONS : gmap Z (str * str) :=
  list_to_map
    [ (0%Z, (lit "1", lit "2"));
      (1%Z, (lit "1", lit "1"));
      (2%Z, (lit "1", lit "2"));
      (3%Z, (lit "1", lit "1"));
      (4%Z, (lit "2", lit "3")) ].

(** [self.yaw_search] *)
Record YawSearch := {
  active : bool;
  current_angle : Q;
  direction : Q;
  min_angle : Q;
  max_angle : Q;
  step_rate : Q
}.

(** [self.scan_results] *)
Record ScanResults := {
  sr_scanned_markers : gset Z;
  sr_scanned_qr : gset str;
  sr_failed_qr : gset str;
  sr_start_time : option Q;
  sr_end_time : option Q;
  sr_total_attempts : Z;
  sr_successful_scans : Z;
  sr_errors : list message
}.

Inductive SearchPhase := phase_up | phase_down.

(** The attributes of [ArucoFlight] that the loop and the shutdown read or
    write. *)
Record Self := {
  mini_connected : bool;
  telegram_initialized : bool;
  session_uuid : option str;
  is_flying : bool;
  scanned_markers : gset Z;
  scanned_qr_codes : gset str;
  locked_marker_id : option Z;
  marker_lock_time : option Q;
  marker_lost_frames : Z;
  self_current_aruco_id : option Z;
  initial_height : option Q;
  current_search_phase : SearchPhase;
  scan_results : ScanResults;
  yaw_search : YawSearch
}.

(** The local variables of [fly] that survive an iteration. *)
Record Locals := {
  last_control_time : Q;
  target_reached : bool;
  retreat_mode : bool;
  retreat_start_time : option Q;
  retry_count : Z;
  current_height : Q;
  frames_without_marker : Z;
  current_aruco_id : option Z
}.

Record State := {
  self : Self;
  locals : Locals
}.

Definition max_lost_frames : Z := 15.
Definition max_search_height : Q := 2.0.

(** ** Field updates

    [set_f v r] is the record [r] after the assignment [r.f = v]. *)

Definition set_active v (r : YawSearch) : YawSearch :=
  {| active := v;
     current_angle := current_angle r;
     direction := direction r;
     min_angle := min_angle r;
     max_angle := max_angle r;
     step_rate := step_rate r |}.

Definition set_current_angle v (r : YawSearch) : YawSearch :=
  {| active := active r;
     current_angle := v;
     direction := direction r;
     min_angle := min_angle r;
     max_angle := max_angle r;
     step_rate := step_rate r |}.

Definition set_direction v (r : YawSearch) : YawSearch :=
  {| active := active r;
     current_angle := current_angle r;
     direction := v;
     min_angle := min_angle r;
     max_angle := max_angle r;
     step_rate := step_rate r |}.

Definition set_sr_scanned_markers v (r : ScanResults) : ScanResults :=
  {| sr_scanned_markers := v;
     sr_scanned_qr := sr_scanned_qr r;
     sr_failed_qr := sr_failed_qr r;
     sr_start_time := sr_start_time r;
     sr_end_time := sr_end_time r;
     sr_total_attempts := sr_total_attempts r;
     sr_successful_scans := sr_successful_scans r;
     sr_errors := sr_errors r |}.

Definition set_sr_scanned_qr v (r : ScanResults) : ScanResults :=
  {| sr_scanned_markers := sr_scanned_markers r;
     sr_scanned_qr := v;
     sr_failed_qr := sr_failed_qr r;
     sr_start_time := sr_start_time r;
     sr_end_time := sr_end_time r;
     sr_total_attempts := sr_total_attempts r;
     sr_successful_scans := sr_successful_scans r;
     sr_errors := sr_errors r |}.

Definition set_sr_failed_qr v (r : ScanResults) : ScanResults :=
  {| sr_scanned_markers := sr_scanned_markers r;
     sr_scanned_qr := sr_scanned_qr r;
     sr_failed_qr := v;
     sr_start_time := sr_start_time r;
     sr_end_time := sr_end_time r;
     sr_total_attempts := sr_total_attempts r;
     sr_successful_scans := sr_successful_scans r;
     sr_errors := sr_errors r |}.

Definition set_sr_start_time v (r : ScanResults) : ScanResults :=
  {| sr_scanned_markers := sr_scanned_markers r;
     sr_scanned_qr := sr_scanned_qr r;
     sr_failed_qr := sr_failed_qr r;
     sr_start_time := v;
     sr_end_time := sr_end_time r;
     sr_total_attempts := sr_total_attempts r;
     sr_successful_scans := sr_successful_scans r;
     sr_errors := sr_errors r |}.

Definition set_sr_end_time v (r : ScanResults) : ScanResults :=
  {| sr_scanned_markers := sr_scanned_markers r;
     sr_scanned_qr := sr_scanned_qr r;
     sr_failed_qr := sr_failed_qr r;
     sr_start_time := sr_start_time r;
     sr_end_time := v;
     sr_total_attempts := sr_total_attempts r;
     sr_successful_scans := sr_successful_scans r;
     sr_errors := sr_errors r |}.

Definition set_sr_successful_scans v (r : ScanResults) : ScanResults :=
  {| sr_scanned_markers := sr_scanned_markers r;
     sr_scanned_qr := sr_scanned_qr r;
     sr_failed_qr := sr_failed_qr r;
     sr_start_time := sr_start_time r;
     sr_end_time := sr_end_time r;
     sr_total_attempts := sr_total_attempts r;
     sr_successful_scans := v;
     sr_errors := sr_errors r |}.

Definition set_sr_errors v (r : ScanResults) : ScanResults :=
  {| sr_scanned_markers := sr_scanned_markers r;
     sr_scanned_qr := sr_scanned_qr r;
     sr_failed_qr := sr_failed_qr r;
     sr_start_time := sr_start_time r;
     sr_end_time := sr_end_time r;
     sr_total_attempts := sr_total_attempts r;
     sr_successful_scans := sr_successful_scans r;
     sr_errors := v |}.

Definition set_is_flying v (r : Self) : Self :=
  {| mini_connected := mini_connected r;
     telegram_initialized := telegram_initialized r;
     session_uuid := session_uuid r;
     is_flying := v;
     scanned_markers := scanned_markers r;
     scanned_qr_codes := scanned_qr_codes r;
     locked_marker_id := locked_marker_id r;
     marker_lock_time := marker_lock_time r;
     marker_lost_frames := marker_lost_frames r;
     self_current_aruco_id := self_current_aruco_id r;
     initial_height := initial_height r;
     current_search_phase := current_search_phase r;
     scan_results := scan_results r;
     yaw_search := yaw_search r |}.

Definition set_scanned_markers v (r : Self) : Self :=
  {| mini_connected := mini_connected r;
     telegram_initialized := telegram_initialized r;
     session_uuid := session_uuid r;
     is_flying := is_flying r;
     scanned_markers := v;
     scanned_qr_codes := scanned_qr_codes r;
     locked_marker_id := locked_marker_id r;
     marker_lock_time := marker_lock_time r;
     marker_lost_frames := marker_lost_frames r;
     self_current_aruco_id := self_current_aruco_id r;
     initial_height := initial_height r;
     current_search_phase := current_search_phase r;
     scan_results := scan_results r;
     yaw_search := yaw_search r |}.

Definition set_scanned_qr_codes v (r : Self) : Self :=
  {| mini_connected := mini_connected r;
     telegram_initialized := telegram_initialized r;
     session_uuid := session_uuid r;
     is_flying := is_flying r;
     scanned_markers := scanned_markers r;
     scanned_qr_codes := v;
     locked_marker_id := locked_marker_id r;
     marker_lock_time := marker_lock_time r;
     marker_lost_frames := marker_lost_frames r;
     self_current_aruco_id := self_current_aruco_id r;
     initial_height := initial_height r;
     current_search_phase := current_search_phase r;
     scan_results := scan_results r;
     yaw_search := yaw_search r |}.

Definition set_locked_marker_id v (r : Self) : Self :=
  {| mini_connected := mini_connected r;
     telegram_initialized := telegram_initialized r;
     session_uuid := session_uuid r;
     is_flying := is_flying r;
     scanned_markers := scanned_markers r;
     scanned_qr_codes := scanned_qr_codes r;
     locked_marker_id := v;
     marker_lock_time := marker_lock_time r;
     marker_lost_frames := marker_lost_frames r;
     self_current_aruco_id := self_current_aruco_id r;
     initial_height := initial_height r;
     current_search_phase := current_search_phase r;
     scan_results := scan_results r;
     yaw_search := yaw_search r |}.

Definition set_marker_lock_time v (r : Self) : Self :=
  {| mini_connected := mini_connected r;
     telegram_initialized := telegram_initialized r;
     session_uuid := session_uuid r;
     is_flying := is_flying r;
     scanned_markers := scanned_markers r;
     scanned_qr_codes := scanned_qr_codes r;
     locked_marker_id := locked_marker_id r;
     marker_lock_time := v;
     marker_lost_frames := marker_lost_frames r;
     self_current_aruco_id := self_current_aruco_id r;
     initial_height := initial_height r;
     current_search_phase := current_search_phase r;
     scan_results := scan_results r;
     yaw_search := yaw_search r |}.

Definition set_marker_lost_frames v (r : Self) : Self :=
  {| mini_connected := mini_connected r;
     telegram_initialized := telegram_initialized r;
     session_uuid := session_uuid r;
     is_flying := is_flying r;
     scanned_markers := scanned_markers r;
     scanned_qr_codes := scanned_qr_codes r;
     locked_marker_id := locked_marker_id r;
     marker_lock_time := marker_lock_time r;
     marker_lost_frames := v;
     self_current_aruco_id := self_current_aruco_id r;
     initial_height := initial_height r;
     current_search_phase := current_search_phase r;
     scan_results := scan_results r;
     yaw_search := yaw_search r |}.

Definition set_self_current_aruco_id v (r : Self) : Self :=
  {| mini_connected := mini_connected r;
     telegram_initialized := telegram_initialized r;
     session_uuid := session_uuid r;
     is_flying := is_flying r;
     scanned_markers := scanned_markers r;
     scanned_qr_codes := scanned_qr_codes r;
     locked_marker_id := locked_marker_id r;
     marker_lock_time := marker_lock_time r;
     marker_lost_frames := marker_lost_frames r;
     self_current_aruco_id := v;
     initial_height := initial_height r;
     current_search_phase := current_search_phase r;
     scan_results := scan_results r;
     yaw_search := yaw_search r |}.

Definition set_current_search_phase v (r : Self) : Self :=
  {| mini_connected := mini_connected r;
     telegram_initialized := telegram_initialized r;
     session_uuid := session_uuid r;
     is_flying := is_flying r;
     scanned_markers := scanned_markers r;
     scanned_qr_codes := scanned_qr_codes r;
     locked_marker_id := locked_marker_id r;
     marker_lock_time := marker_lock_time r;
     marker_lost_frames := marker_lost_frames r;
     self_current_aruco_id := self_current_aruco_id r;
     initial_height := initial_height r;
     current_search_phase := v;
     scan_results := scan_results r;
     yaw_search := yaw_search r |}.

Definition set_scan_results v (r : Self) : Self :=
  {| mini_connected := mini_connected r;
     telegram_initialized := telegram_initialized r;
     session_uuid := session_uuid r;
     is_flying := is_flying r;
     scanned_markers := scanned_markers r;
     scanned_qr_codes := scanned_qr_codes r;
     locked_marker_id := locked_marker_id r;
     marker_lock_time := marker_lock_time r;
     marker_lost_frames := marker_lost_frames r;
     self_current_aruco_id := self_current_aruco_id r;
     initial_height := initial_height r;
     current_search_phase := current_search_phase r;
     scan_results := v;
     yaw_search := yaw_search r |}.

Definition set_yaw_search v (r : Self) : Self :=
  {| mini_connected := mini_connected r;
     telegram_initialized := telegram_initialized r;
     session_uuid := session_uuid r;
     is_flying := is_flying r;
     scanned_markers := scanned_markers r;
     scanned_qr_codes := scanned_qr_codes r;
     locked_marker_id := locked_marker_id r;
     marker_lock_time := marker_lock_time r;
     marker_lost_frames := marker_lost_frames r;
     self_current_aruco_id := self_current_aruco_id r;
     initial_height := initial_height r;
     current_search_phase := current_search_phase r;
     scan_results := scan_results r;
     yaw_search := v |}.

Definition set_last_control_time v (r : Locals) : Locals :=
  {| last_control_time := v;
     target_reached := target_reached r;
     retreat_mode := retreat_mode r;
     retreat_start_time := retreat_start_time r;
     retry_count := retry_count r;
     current_height := current_height r;
     frames_without_marker := frames_without_marker r;
     current_aruco_id := current_aruco_id r |}.

Definition set_target_reached v (r : Locals) : Locals :=
  {| last_control_time := last_control_time r;
     target_reached := v;
     retreat_mode := retreat_mode r;
     retreat_start_time := retreat_start_time r;
     retry_count := retry_count r;
     current_height := current_height r;
     frames_without_marker := frames_without_marker r;
     current_aruco_id := current_aruco_id r |}.

Definition set_retreat_mode v (r : Locals) : Locals :=
  {| last_control_time := last_control_time r;
     target_reached := target_reached r;
     retreat_mode := v;
     retreat_start_time := retreat_start_time r;
     retry_count := retry_count r;
     current_height := current_height r;
     frames_without_marker := frames_without_marker r;
     current_aruco_id := current_aruco_id r |}.

Definition set_retreat_start_time v (r : Locals) : Locals :=
  {| last_control_time := last_control_time r;
     target_reached := target_reached r;
     retreat_mode := retreat_mode r;
     retreat_start_time := v;
     retry_count := retry_count r;
     current_height := current_height r;
     frames_without_marker := frames_without_marker r;
     current_aruco_id := current_aruco_id r |}.

Definition set_retry_count v (r : Locals) : Locals :=
  {| last_control_time := last_control_time r;
     target_reached := target_reached r;
     retreat_mode := retreat_mode r;
     retreat_start_time := retreat_start_time r;
     retry_count := v;
     current_height := current_height r;
     frames_without_marker := frames_without_marker r;
     current_aruco_id := current_aruco_id r |}.

Definition set_current_height v (r : Locals) : Locals :=
  {| last_control_time := last_control_time r;
     target_reached := target_reached r;
     retreat_mode := retreat_mode r;
     retreat_start_time := retreat_start_time r;
     retry_count := retry_count r;
     current_height := v;
     frames_without_marker := frames_without_marker r;
     current_aruco_id := current_aruco_id r |}.

Definition set_frames_without_marker v (r : Locals) : Locals :=
  {| last_control_time := last_control_time r;
     target_reached := target_reached r;
     retreat_mode := retreat_mode r;
     retreat_start_time := retreat_start_time r;
     retry_count := retry_count r;
     current_height := current_height r;
     frames_without_marker := v;
     current_aruco_id := current_aruco_id r |}.

Definition set_current_aruco_id v (r : Locals) : Locals :=
  {| last_control_time := last_control_time r;
     target_reached := target_reached r;
     retreat_mode := retreat_mode r;
     retreat_start_time := retreat_start_time r;
     retry_count := retry_count r;
     current_height := current_height r;
     frames_without_marker := frames_without_marker r;
     current_aruco_id := v |}.

Definition on_self (f : Self -> Self) (st : State) : State :=
  {| self := f (self st); locals := locals st |}.

Definition on_locals (f : Locals -> Locals) (st : State) : State :=
  {| self := self st; locals := f (locals st) |}.

Definition on_scan_results (f : ScanResults -> ScanResults) (x : Self) : Self :=
  set_scan_results (f (scan_results x)) x.

Definition on_yaw_search (f : YawSearch -> YawSearch) (x : Self) : Self :=
  set_yaw_search (f (yaw_search x)) x.

(** [if self.telegram_initialized: telegram_queue.put(m)] *)
Definition notify (x : Self) (m : message) : list event :=
  if telegram_initialized x then [telegram_put m] else [].

Definition zero_velocity : Velocity :=
  {| v_x := 0; v_y := 0; v_z := 0; yaw_rate := 0 |}.

(** ** [ArucoFlight.process_qr_data] *)

Module Qr.

Section ProcessQr.
Context `{PyUnicode}.

(** The keys of [data] filled by the parsing loop. *)
Record QrData := {
  d_qr_code : option str;
  d_name : option str
}.

(** One iteration of [for line in lines]; [None] is the [IndexError] of
    [line.split(':')[1]]. *)
Definition parse_line (data : QrData) (line : str) : option QrData :=
  let line := PyStr.strip line in
  if PyStr.contains (lit "id") (lower line) then
    Some {| d_qr_code :=
              Some (PyStr.strip (PyStr.remove (lit "id:") (lower line)));
            d_name := d_name data |}
  else if PyStr.contains predmet (lower line) then
    match nth_error (PyStr.split 58 line) 1 with
    | Some value =>
      Some {| d_qr_code := d_qr_code data;
              d_name := Some (PyStr.strip value) |}
    | None => None
    end
  else Some data.

Fixpoint parse_lines (data : QrData) (lines : list str) : option QrData :=
  match lines with
  | [] => Some data
  | line :: rest =>
    match parse_line data line with
    | Some data' => parse_lines data' rest
    | None => None
    end
  end.

(** [qr_data.split(',')] followed by the loop. *)
Definition parse_qr (qr_data : str) : option QrData :=
  parse_lines {| d_qr_code := None; d_name := None |}
    (PyStr.split 44 qr_data).

(** The bookkeeping shared by the two successful returns. *)
Definition record_scanned (qr_data : str) (x : Self) : Self :=
  let x := set_scanned_qr_codes ({[ qr_data ]} ∪ scanned_qr_codes x) x in
  on_scan_results
    (fun r =>
       set_sr_successful_scans (sr_successful_scans r + 1)%Z
         (set_sr_scanned_qr ({[ qr_data ]} ∪ sr_scanned_qr r) r)) x.

(** Line 353: the entry of [ARUCO_LOCATIONS] for [self.current_aruco_id],
    if both exist. *)
Definition current_location (x : Self) : option (str * str) :=
  match self_current_aruco_id x with
  | Some i => ARUCO_LOCATIONS !! i
  | None => None
  end.

(** Returns the boolean result, the updated attributes and the calls made. *)
Definition process_qr_data (x : Self) (db : Persistence) (qr_data : str)
  : bool * Self * list event :=
  if bool_decide (qr_data ∈ scanned_qr_codes x) then (true, x, [])
  else
    match current_location x with
    | None =>
      (false, x,
       notify x msg_invalid_location ++
       [add_scan_history (lit "scan") None
          (lit "invalid_location: " ++ qr_data) (session_uuid x)])
    | Some (shelf, position) =>
      match parse_qr qr_data with
      | None => (false, x, notify x msg_process_error)
      | Some data =>
        match d_name data, d_qr_code data with
        | Some name, Some qr_code =>
          match db_find_item db qr_code with
          | Raised =>
            (false, x, [find_item qr_code] ++ notify x msg_check_error)
          | Returned true =>
            (true, record_scanned qr_data x,
             [find_item qr_code] ++ notify x msg_already_stored)
          | Returned false =>
            let shelf' := stellazh_ ++ shelf in
            let position' := polka_ ++ position in
            match db_add_item db qr_code name shelf' position' with
            | Raised =>
              (false, x,
               [find_item qr_code; add_item qr_code name shelf' position']
               ++ notify x msg_add_error)
            | Returned item_id =>
              (true, record_scanned qr_data x,
               [find_item qr_code; add_item qr_code name shelf' position';
                add_scan_history (lit "scan") (Some item_id)
                  (lit "success") (session_uuid x)]
               ++ notify x msg_new_item)
            end
          end
        | _, _ =>
          (false, x,
           notify x msg_invalid_format ++
           [add_scan_history (lit "scan") None
              (lit "invalid_format: " ++ qr_data) (session_uuid x)])
        end
      end
    end.

End ProcessQr.

End Qr.

(** ** The frame loop of [ArucoFlight.fly] *)

Module Flight.

(** What the pose solver answers for one detected quadrilateral: the norm of
    the solved translation, a failure flag, or an exception. *)
Inductive PoseResult :=
| pose_ok (distance : Q)
| pose_failed
| pose_raised.

(** One detected marker: its id, the regularity ratio
    [min(side_lengths) / max(side_lengths)] of its quadrilateral, the integer
    centroid of its corners and the pose solver's answer for it (the same
    at both calls that an iteration makes for one quadrilateral). *)
Record Marker := {
  m_id : Z;
  m_confidence : Q;
  m_x_center : Z;
  m_y_center : Z;
  m_pose : PoseResult
}.

(** Everything one iteration observes: the clock (one reading stands for
    every [time.time()] of the iteration), the image size, the
    detector's answer ([None] when [ids is None]), the text returned by
    [process_frame_qr], the persistence collaborator, and whether ESC was
    pressed or the window closed. *)
Record Frame := {
  now : Q;
  frame_height : Z;
  frame_width : Z;
  detected : option (list Marker);
  qr_text : option str;
  db : Persistence;
  exit_requested : bool
}.

(** How an iteration ends: at a [continue], at the end of the body, or with
    an exception that leaves the loop. *)
Inductive Flow :=
| flow_continue
| flow_end_of_body
| flow_raise.

Record Step := {
  after : State;
  emitted : list event;
  flow : Flow
}.

Inductive Selection :=
| skip_frame (st : State)
| selected (st : State) (m : Marker)
| index_error (st : State).

Section Loop.
Context `{PyUnicode}.
Variable s : SpeedSettings.

Definition retreat_velocity : Velocity :=
  {| v_x := 0; v_y := - retreat_speed s; v_z := 0; yaw_rate := 0 |}.

(** Lines 576-596: the candidates kept in [valid_markers]. *)
Definition is_valid (x : Self) (m : Marker) : bool :=
  Qle_bool (aruco_confidence_threshold s) (m_confidence m)
  && negb (bool_decide (m_id m ∈ scanned_markers x)).

Definition valid_markers (x : Self) (ms : list Marker) : list Marker :=
  List.filter (is_valid x) ms.

(** Lines 609-614: the first index holding the locked id. *)
Fixpoint index_of_id (locked : Z) (ms : list Marker) (i : nat) : option nat :=
  match ms with
  | [] => None
  | m :: rest =>
    if (m_id m =? locked)%Z then Some i else index_of_id locked rest (S i)
  end.

(** Lines 628-648: [min_distance = None] is [float('inf')]. *)
Fixpoint nearest (ms : list Marker) (i : nat) (min_distance : option Q)
    (nearest_marker_idx : nat) : nat :=
  match ms with
  | [] => nearest_marker_idx
  | m :: rest =>
    match m_pose m with
    | pose_ok distance =>
      let closer :=
        match min_distance with
        | None => true
        | Some d => Qltb distance d
        end in
      if closer then nearest rest (S i) (Some distance) i
      else nearest rest (S i) min_distance nearest_marker_idx
    | _ => nearest rest (S i) min_distance nearest_marker_idx
    end
  end.

(** Lines 603-659, for a non-empty [valid]. *)
Definition select_marker (st : State) (t : Q) (valid : list Marker)
  : Selection :=
  let x := self st in
  let found :=
    match locked_marker_id x with
    | Some locked => index_of_id locked valid 0
    | None => None
    end in
  let chosen :=
    match found with
    | Some i => inl (on_self (set_marker_lost_frames 0%Z) st, i)
    | None =>
      let unlocked :=
        match locked_marker_id x with
        | Some _ =>
          let lost := (marker_lost_frames x + 1)%Z in
          let st := on_self (set_marker_lost_frames lost) st in
          if (max_lost_frames <=? lost)%Z then
            inl (on_self (fun x => set_marker_lock_time None
                                     (set_locked_marker_id None x)) st)
          else
            inr (on_locals
                   (fun l => set_frames_without_marker
                               (frames_without_marker l + 1)%Z l) st)
        | None => inl st
        end in
      match unlocked with
      | inr st => inr (skip_frame st)
      | inl st =>
        let idx := nearest valid 0 None 0 in
        match nth_error valid idx with
        | Some m =>
          inl (on_self (fun x => set_marker_lock_time (Some t)
                                   (set_locked_marker_id (Some (m_id m)) x))
                 st, idx)
        | None => inr (index_error st)
        end
      end
    end in
  match chosen with
  | inr r => r
  | inl (st, idx) =>
    match nth_error valid idx with
    | None => index_error st
    | Some m =>
      let st :=
        on_locals (fun l => set_frames_without_marker 0%Z
                              (set_current_aruco_id (Some (m_id m)) l)) st in
      selected (on_self (set_self_current_aruco_id (Some (m_id m))) st) m
    end
  end.

(** Lines 673-741: the command for the selected marker. *)
Definition track_marker (st : State) (f : Frame) (m : Marker) : Step :=
  let l := locals st in
  let due := Qle_bool (control_delay s) (now f - last_control_time l) in
  let sent v :=
    {| after := on_locals (set_last_control_time (now f)) st;
       emitted := [set_manual_speed_body_fixed v];
       flow := flow_end_of_body |} in
  let idle fl := {| after := st; emitted := []; flow := fl |} in
  match m_pose m with
  | pose_raised => idle flow_continue
  | pose_failed => idle flow_end_of_body
  | pose_ok distance =>
    let is_at_distance :=
      Qle_bool (Qabs (distance - target_distance s))
        (distance_threshold s) in
    if is_at_distance then
      let x_center_error :=
        Qabs (inject_Z (m_x_center m) - inject_Z (frame_width f) / 2) in
      let y_center_error :=
        Qabs (inject_Z (m_y_center m) - inject_Z (frame_height f) / 2) in
      let is_centered :=
        Qltb x_center_error (precise_center_threshold s)
        && Qltb y_center_error (precise_center_threshold s) in
      if is_centered then
        {| after := on_locals (set_target_reached true) st;
           emitted := [time_sleep 5; set_manual_speed_body_fixed zero_velocity];
           flow := flow_continue |}
      else if due then
        match Control.centering_command s (m_x_center m) (m_y_center m)
                (frame_height f) (frame_width f) with
        | Some v => sent v
        | None => idle flow_continue
        end
      else idle flow_end_of_body
    else if due then
      match Control.approach_command s distance (m_x_center m) (m_y_center m)
              (frame_height f) (frame_width f) with
      | Some v => sent v
      | None => idle flow_continue
      end
    else idle flow_end_of_body
  end.

(** The dictionary assigned to [self.yaw_search] when a retreat ends. *)
Definition yaw_search_restart : YawSearch :=
  {| active := true; current_angle := 0; direction := 1;
     min_angle := -45; max_angle := 45; step_rate := 15 |}.

(** Lines 744-770: one iteration in retreat mode. [None] is the
    [TypeError] of subtracting an unset start time. *)
Definition retreat_step (st : State) (f : Frame) : Step :=
  match retreat_start_time (locals st) with
  | None => {| after := st; emitted := []; flow := flow_raise |}
  | Some start =>
    let retreat_elapsed_time := now f - start in
    if Qltb retreat_elapsed_time (retreat_time s) then
      {| after := st;
         emitted := [set_manual_speed_body_fixed retreat_velocity];
         flow := flow_end_of_body |}
    else
      let st :=
        on_locals
          (fun l => set_last_control_time (now f)
                      (set_frames_without_marker 0%Z
                         (set_target_reached false
                            (set_retreat_mode false l)))) st in
      {| after := on_self (set_yaw_search yaw_search_restart) st;
         emitted := [set_manual_speed_body_fixed zero_velocity];
         flow := flow_end_of_body |}
  end.

(** Lines 774-799: the yaw sweep; returns the state and the commands. *)
Definition yaw_search_step (st : State) (f : Frame) : State * list event :=
  let l := locals st in
  let ys := yaw_search (self st) in
  if (5 <? frames_without_marker l)%Z && active ys then
    if Qle_bool (control_delay s) (now f - last_control_time l) then
      let yaw := direction ys * yaw_speed s in
      let new_angle :=
        current_angle ys + direction ys * step_rate ys * control_delay s in
      let ys :=
        if Qle_bool (Qabs (max_angle ys)) (Qabs new_angle)
        then set_direction (direction ys * -1) ys else ys in
      let ys := set_current_angle new_angle ys in
      (on_locals (set_last_control_time (now f))
         (on_self (set_yaw_search ys) st),
       [set_manual_speed_body_fixed
          {| v_x := 0; v_y := 0; v_z := 0; yaw_rate := yaw |}])
    else (st, [])
  else if (frames_without_marker l <=? 5)%Z && active ys then
    (on_self (on_yaw_search (set_active false)) st, [])
  else (st, []).

(** Lines 771-810: an iteration without detection outside retreat mode. *)
Definition lost_step (st : State) (f : Frame) : Step :=
  let st :=
    on_locals (fun l => set_frames_without_marker
                          (frames_without_marker l + 1)%Z l) st in
  let '(st, sweep) := yaw_search_step st f in
  if (10 <? frames_without_marker (locals st))%Z
     && negb (retreat_mode (locals st)) then
    let st :=
      on_locals (fun l => set_target_reached false
                            (set_retreat_start_time (Some (now f))
                               (set_retreat_mode true l))) st in
    {| after := on_self (on_yaw_search (set_active false)) st;
       emitted := sweep ++ [set_manual_speed_body_fixed retreat_velocity];
       flow := flow_end_of_body |}
  else {| after := st; emitted := sweep; flow := flow_end_of_body |}.

(** Lines 569-810: the branch [if not target_reached]. *)
Definition follow_step (st : State) (f : Frame) : Step :=
  match detected f, retreat_mode (locals st) with
  | Some ms, false =>
    match valid_markers (self st) ms with
    | [] =>
      {| after := on_locals
                    (fun l => set_frames_without_marker
                                (frames_without_marker l + 1)%Z l) st;
         emitted := []; flow := flow_continue |}
    | valid =>
      match select_marker st (now f) valid with
      | skip_frame st => {| after := st; emitted := []; flow := flow_continue |}
      | index_error st => {| after := st; emitted := []; flow := flow_raise |}
      | selected st m => track_marker st f m
      end
    end
  | _, true => retreat_step st f
  | None, false => lost_step st f
  end.

(** Lines 849-874: the vertical sweep when no code is decoded. In the
    [down] phase the comparison with an unset [initial_height] is a
    [TypeError] that leaves the loop. *)
Definition sweep_step (st : State) (f : Frame) : Step :=
  let l := locals st in
  if Qle_bool (control_delay s) (now f - last_control_time l) then
    let plan :=
      match current_search_phase (self st) with
      | phase_up =>
        if Qle_bool max_search_height (current_height l)
        then Some (phase_down, - vertical_speed s * 0.5)
        else Some (phase_up, vertical_speed s)
      | phase_down =>
        match initial_height (self st) with
        | None => None
        | Some h0 =>
          if Qle_bool (current_height l) h0
          then Some (phase_up, vertical_speed s)
          else Some (phase_down, - vertical_speed s * 0.5)
        end
      end in
    match plan with
    | None => {| after := st; emitted := []; flow := flow_raise |}
    | Some (phase, vertical) =>
      let st := on_self (set_current_search_phase phase) st in
      let st :=
        on_locals
          (fun l => set_last_control_time (now f)
                      (set_current_height
                         (current_height l + vertical * control_delay s) l))
          st in
      {| after := st;
         emitted := [set_manual_speed_body_fixed
                       {| v_x := 0; v_y := 0; v_z := vertical;
                          yaw_rate := 0 |}];
         flow := flow_end_of_body |}
    end
  else {| after := st; emitted := []; flow := flow_end_of_body |}.

(** Lines 828-835 and 840-847: [retreat_mode = True] with its command. *)
Definition start_retreat (t : Q) (l : Locals) : Locals :=
  set_target_reached false
    (set_retreat_start_time (Some t) (set_retreat_mode true l)).

(** Lines 818-835: after [process_qr_data] returned [True]. *)
Definition scan_succeeded (st : State) (f : Frame) (qr_data : str)
    (calls : list event) : Step :=
  let st :=
    on_self
      (on_scan_results
         (fun r => set_sr_scanned_qr ({[ qr_data ]} ∪ sr_scanned_qr r)
                     (set_sr_successful_scans
                        (sr_successful_scans r + 1)%Z r))) st in
  let st :=
    match current_aruco_id (locals st) with
    | Some id =>
      on_self
        (fun x =>
           on_scan_results
             (fun r => set_sr_scanned_markers
                         ({[ id ]} ∪ sr_scanned_markers r) r)
             (set_scanned_markers ({[ id ]} ∪ scanned_markers x) x)) st
    | None => st
    end in
  if negb (retreat_mode (locals st)) then
    {| after := on_locals (start_retreat (now f)) st;
       emitted := calls ++ [set_manual_speed_body_fixed retreat_velocity];
       flow := flow_end_of_body |}
  else {| after := st; emitted := calls; flow := flow_end_of_body |}.

(** Lines 836-847: after [process_qr_data] returned [False]. *)
Definition scan_failed (st : State) (f : Frame) (qr_data : str)
    (calls : list event) : Step :=
  let st :=
    on_self
      (on_scan_results
         (fun r => set_sr_failed_qr ({[ qr_data ]} ∪ sr_failed_qr r) r)) st in
  let st :=
    on_locals (fun l => set_retry_count (retry_count l + 1)%Z l) st in
  if (5 <=? retry_count (locals st))%Z && negb (retreat_mode (locals st))
  then
    {| after := on_locals (start_retreat (now f)) st;
       emitted := calls ++ [set_manual_speed_body_fixed retreat_velocity];
       flow := flow_end_of_body |}
  else {| after := st; emitted := calls; flow := flow_end_of_body |}.

(** Lines 812-874: the branch [else] of [if not target_reached]. *)
Definition scan_step (st : State) (f : Frame) : Step :=
  match qr_text f with
  | Some ((_ :: _) as qr_data) =>
    let '(ok, x, calls) := Qr.process_qr_data (self st) (db f) qr_data in
    let st := {| self := x; locals := locals st |} in
    if ok then scan_succeeded st f qr_data calls
    else scan_failed st f qr_data calls
  | _ => sweep_step st f
  end.

(** The body of [while True] for a frame that is not [None]. *)
Definition fly_step (st : State) (f : Frame) : Step :=
  if target_reached (locals st) then scan_step st f else follow_step st f.

(** What the loop meets at the top of an iteration: no frame yet, an
    exception raised by the camera or the detector, or a frame. *)
Inductive FrameInput :=
| no_frame
| frame_error
| got_frame (f : Frame).

(** How the loop is left: the [break] of lines 906-908, an exception, or
    the termination signal that arrives once the inputs are used up. *)
Inductive LoopExit :=
| loop_break
| loop_exception
| loop_signal.

Fixpoint fly_loop (st : State) (inputs : list FrameInput)
  : State * list event * LoopExit :=
  match inputs with
  | [] => (st, [], loop_signal)
  | no_frame :: rest => fly_loop st rest
  | frame_error :: _ => (st, [], loop_exception)
  | got_frame f :: rest =>
    let r := fly_step st f in
    match flow r with
    | flow_raise => (after r, emitted r, loop_exception)
    | flow_end_of_body =>
      if exit_requested f then (after r, emitted r, loop_break)
      else
        let '(st', evs, ex) := fly_loop (after r) rest in
        (st', emitted r ++ evs, ex)
    | flow_continue =>
      let '(st', evs, ex) := fly_loop (after r) rest in
      (st', emitted r ++ evs, ex)
    end
  end.

(** Lines 549-561: the locals at the top of the loop. *)
Definition initial_locals (t : Q) : Locals :=
  {| last_control_time := t;
     target_reached := false;
     retreat_mode := false;
     retreat_start_time := None;
     retry_count := 0;
     current_height := min_height s;
     frames_without_marker := 0;
     current_aruco_id := None |}.

End Loop.

End Flight.

(** ** Start-up and shutdown: [fly], [save_scan_results], [safe_landing] *)

Module Session.

(** Python's two kinds of exception that matter here: [except Exception]
    catches the first and lets [SystemExit] through. *)
Inductive exn :=
| PyException
| SystemExit.

Inductive result (A : Type) :=
| ok (a : A)
| raised (e : exn).
Arguments ok {A} a.
Arguments raised {A} e.

(** The collaborators during start-up and shutdown: [raises history call]
    tells whether [call], made after [history], raises; [stored history q]
    is the id of the item that [find_item q] returns, if any. *)
Record World := {
  raises : list event -> event -> bool;
  stored : list event -> str -> option Z
}.

(** A computation over the attributes of [self] and the trace of calls. *)
Definition Cmd (A : Type) : Type :=
  World -> Self -> list event -> result A * Self * list event.

Definition ret {A} (a : A) : Cmd A := fun _ x tr => (ok a, x, tr).

Definition bind {A B} (c : Cmd A) (k : A -> Cmd B) : Cmd B :=
  fun w x tr =>
    match c w x tr with
    | (ok a, x', tr') => k a w x' tr'
    | (raised e, x', tr') => (raised e, x', tr')
    end.

#[export] Instance cmd_ret : MRet Cmd := @ret.
#[export] Instance cmd_bind : MBind Cmd := fun A B k c => bind c k.

Definition throw {A} (e : exn) : Cmd A := fun _ x tr => (raised e, x, tr).

Definition get : Cmd Self := fun _ x tr => (ok x, x, tr).

Definition modify (f : Self -> Self) : Cmd unit :=
  fun _ x tr => (ok tt, f x, tr).

(** A call that cannot fail. *)
Definition emit (e : event) : Cmd unit := fun _ x tr => (ok tt, x, tr ++ [e]).

(** A call that the world may make raise. *)
Definition call (e : event) : Cmd unit :=
  fun w x tr =>
    if raises w tr e then (raised PyException, x, tr ++ [e])
    else (ok tt, x, tr ++ [e]).

(** [find_item(q)] with its result. *)
Definition call_find_item (q : str) : Cmd (option Z) :=
  fun w x tr =>
    if raises w tr (find_item q) then (raised PyException, x, tr ++ [find_item q])
    else (ok (stored w tr q), x, tr ++ [find_item q]).

(** [try: body except Exception: handler] *)
Definition try_except (body handler : Cmd unit) : Cmd unit :=
  fun w x tr =>
    match body w x tr with
    | (raised PyException, x', tr') => handler w x' tr'
    | r => r
    end.

(** [try: body finally: final] *)
Definition try_finally (body final : Cmd unit) : Cmd unit :=
  fun w x tr =>
    match body w x tr with
    | (r, x', tr') =>
      match final w x' tr' with
      | (ok _, x'', tr'') => (r, x'', tr'')
      | (raised e, x'', tr'') => (raised e, x'', tr'')
      end
    end.

Definition when (b : bool) (c : Cmd unit) : Cmd unit :=
  if b then c else ret tt.

Fixpoint for_each {A} (xs : list A) (body : A -> Cmd unit) : Cmd unit :=
  match xs with
  | [] => ret tt
  | a :: rest => body a ;; for_each rest body
  end.

(** [if self.telegram_initialized: telegram_queue.put(m)] *)
Definition put (m : message) : Cmd unit :=
  x ← get; when (telegram_initialized x) (emit (telegram_put m)).

(** [if self.session_uuid]: set and not empty. *)
Definition truthy (u : option str) : option str :=
  match u with
  | Some (_ :: _) => u
  | _ => None
  end.

(** [ArucoFlight.safe_landing]: always ends in [sys.exit(0)]. *)
Definition safe_landing : Cmd unit :=
  try_finally
    (try_except
       (put msg_interrupted ;;
        x ← get;
        when (is_flying x && mini_connected x)
          (try_except
             (call (go_to_local_point 0 0 0.8 0) ;;
              call wait_point_reached)
             (ret tt) ;;
           call land ;;
           emit (time_sleep 3) ;;
           modify (set_is_flying false)) ;;
        when (mini_connected x) (call close_connection))
       (ret tt))
    (try_except
       (x ← get;
        match truthy (session_uuid x) with
        | Some u =>
          call (end_scan_session u (lit "completed") false) ;;
          put msg_session_finished
        | None => ret tt
        end)
       (ret tt) ;;
     call destroy_all_windows ;;
     emit (sys_exit 0) ;;
     throw SystemExit).

(** [add_scan_history(action_type="scan", item_id=..., result=...,
    session_uuid=...)] of lines 467-472 and 476-481:
    [database.add_scan_history(operation, item_id, result, session_uuid)] has
    no parameter [action_type], so binding the arguments raises [TypeError]
    before the function is entered; nothing is written. *)
Definition add_scan_history_by_action_type
    (item_id : option Z) (result : str) (session_uuid : option str)
  : Cmd unit :=
  throw PyException.

(** [ArucoFlight.save_scan_results] at clock reading [t]; the two loops visit
    the sets in the order of [elements]. *)
Definition save_scan_results (t : Q) : Cmd unit :=
  x ← get;
  match truthy (session_uuid x) with
  | None => ret tt
  | Some u =>
    try_except
      (modify (on_scan_results (set_sr_end_time (Some t))) ;;
       match sr_start_time (scan_results x) with
       | None => throw PyException
       | Some _ =>
         for_each (elements (sr_scanned_qr (scan_results x)))
           (fun qr_code =>
              item ← call_find_item qr_code;
              match item with
              | Some id =>
                add_scan_history_by_action_type (Some id) (lit "success")
                  (session_uuid x)
              | None => ret tt
              end) ;;
         for_each (elements (sr_failed_qr (scan_results x)))
           (fun failed_qr =>
              add_scan_history_by_action_type None
                (lit "failed_qr: " ++ failed_qr) (session_uuid x)) ;;
         call (end_scan_session u (lit "completed") true) ;;
         put msg_summary
       end)
      (put msg_save_error)
  end.

Section Fly.
Context `{PyUnicode}.
Variable s : SpeedSettings.

(** The frame loop lifted to [Cmd]: its calls join the trace; an exception
    leaves as [PyException]; the termination signal runs its handler,
    [safe_landing], whose [SystemExit] then unwinds [fly]. *)
Definition run_loop (t0 : Q) (inputs : list Flight.FrameInput) : Cmd unit :=
  fun w x tr =>
    let st := {| self := x; locals := Flight.initial_locals s t0 |} in
    let '(st', evs, ex) := Flight.fly_loop s st inputs in
    match ex with
    | Flight.loop_break => (ok tt, self st', tr ++ evs)
    | Flight.loop_exception => (raised PyException, self st', tr ++ evs)
    | Flight.loop_signal => safe_landing w (self st') (tr ++ evs)
    end.

(** [ArucoFlight.fly]: [t0] is the clock at take-off, [t1] at shutdown. *)
Definition fly (camera_connected : bool) (t0 t1 : Q)
    (inputs : list Flight.FrameInput) : Cmd unit :=
  x ← get;
  if negb (mini_connected x) || negb camera_connected then ret tt
  else
    try_finally
      (try_except
         (modify (on_scan_results (set_sr_start_time (Some t0))) ;;
          put msg_start ;;
          call arm ;;
          call takeoff ;;
          modify (set_is_flying true) ;;
          call (go_to_local_point 0 0 0.95 0) ;;
          call wait_point_reached ;;
          run_loop t0 inputs)
         (modify (on_scan_results
                    (fun r => set_sr_errors
                                (sr_errors r ++ [msg_critical_error]) r))))
      (save_scan_results t1 ;;
       call destroy_window ;;
       safe_landing).

End Fly.

(** The state at the top of [while True]: take-off done at clock [t0]. *)
Definition loop_entry (s : SpeedSettings) (x : Self) (t0 : Q) : State :=
  {| self := set_is_flying true
               (on_scan_results (set_sr_start_time (Some t0)) x);
     locals := Flight.initial_locals s t0 |}.

(** The attributes after [__init__] and a successful [initialize]. *)
Definition new_flight (telegram : bool) (uuid : option str) : Self :=
  {| mini_connected := true;
     telegram_initialized := telegram;
     session_uuid := uuid;
     is_flying := false;
     scanned_markers := ∅;
     scanned_qr_codes := ∅;
     locked_marker_id := None;
     marker_lock_time := None;
     marker_lost_frames := 0;
     self_current_aruco_id := None;
     initial_height := None;
     current_search_phase := phase_up;
     scan_results :=
       {| sr_scanned_markers := ∅; sr_scanned_qr := ∅; sr_failed_qr := ∅;
          sr_start_time := None; sr_end_time := None;
          sr_total_attempts := 0; sr_successful_scans := 0;
          sr_errors := [] |};
     yaw_search :=
       {| active := false; current_angle := 0; direction := 1;
          min_angle := -45; max_angle := 45; step_rate := 15 |} |}.

(** The number of [end_scan_session] calls for session [u] in a trace. *)
Definition is_end_scan_session (u : str) (e : event) : bool :=
  match e with
  | end_scan_session u' _ _ => bool_decide (u' = u)
  | _ => false
  end.

Definition finalizations (u : str) (tr : list event) : nat :=
  List.length (List.filter (is_end_scan_session u) tr).

(** [c] run in [w] from any state of session [uid] keeps the session id,
    extends the trace, and its outcome and the number of finalizations of [u]
    it adds satisfy [post]. *)
Definition keeps {A} (w : World) (uid : option str) (u : str)
    (c : Cmd A) (post : result A -> nat -> Prop) : Prop :=
  forall x tr,
    session_uuid x = uid ->
    exists r x' evs,
      c w x tr = (r, x', tr ++ evs)
      /\ session_uuid x' = uid
      /\ post r (finalizations u evs).

(** A world in which no call raises and the store is empty. *)
Definition calm : World :=
  {| raises := fun _ _ => false; stored := fun _ _ => None |}.

End Session.

(** ** Observations on states and traces *)

(** What an iteration of the loop never touches: the connection flags, the
    session id, the start time. *)
Definition same_session (x x' : Self) : Prop :=
  mini_connected x' = mini_connected x
  /\ telegram_initialized x' = telegram_initialized x
  /\ session_uuid x' = session_uuid x
  /\ is_flying x' = is_flying x
  /\ sr_start_time (scan_results x') = sr_start_time (scan_results x).

(** Retreat mode excludes the scanning phase and has a start time. *)
Definition retreat_inv (st : State) : Prop :=
  retreat_mode (locals st) = true ->
  target_reached (locals st) = false
  /\ retreat_start_time (locals st) <> None.

Definition is_session_call (e : event) : bool :=
  match e with
  | end_scan_session _ _ _ => true
  | _ => false
  end.


(** The calls that persist an item. *)
Definition is_add_item (e : event) : bool :=
  match e with
  | add_item _ _ _ _ => true
  | _ => false
  end.

(** The velocity commands of a trace, in order. *)
Definition commands (tr : list event) : list Velocity :=
  omap (fun e => match e with
                 | set_manual_speed_body_fixed v => Some v
                 | _ => None
                 end) tr.

(** ** Concrete flights

    Frames, states and runs on which the properties below are evaluated. A
    frame is 640x480; a marker is seen in its middle unless said otherwise. *)

Module Scenario.
Import Flight.

Definition sample_db : Persistence :=
  {| db_find_item := fun _ => Returned false;
     db_add_item := fun _ _ _ _ => Returned 1%Z |}.

(** The state at the top of the loop, take-off at clock 0. *)
Definition at_take_off : State :=
  {| self := Session.new_flight false (Some (lit "session"));
     locals := initial_locals speed_settings 0 |}.

Definition marker (id : Z) (confidence distance : Q) : Marker :=
  {| m_id := id; m_confidence := confidence;
     m_x_center := 320; m_y_center := 240; m_pose := pose_ok distance |}.

(** A frame at clock [t] with the detector's answer [ms] and no code. *)
Definition seeing (t : Q) (ms : option (list Marker)) : Frame :=
  {| now := t; frame_height := 480; frame_width := 640;
     detected := ms; qr_text := None;
     db := sample_db; exit_requested := false |}.

(** A frame at clock [t] in which [text] is decoded. *)
Definition reading (t : Q) (text : str) : Frame :=
  {| now := t; frame_height := 480; frame_width := 640;
     detected := None; qr_text := Some text;
     db := sample_db; exit_requested := false |}.

(** [n] frames at clocks [t], [t+1], ... all with the same detection. *)
Fixpoint seeing_for (n : nat) (t : Q) (ms : option (list Marker))
  : list FrameInput :=
  match n with
  | O => []
  | S k => got_frame (seeing t ms) :: seeing_for k (t + 1) ms
  end.

(** A scanning state of the default flight in which the text
    ["id: a1"] has been scanned under marker 1. *)
Definition rescanning : State :=
  {| self :=
       set_scanned_qr_codes {[ lit "id: a1" ]}
         (set_self_current_aruco_id (Some 1%Z)
            (Session.new_flight false (Some (lit "session"))));
     locals :=
       set_target_reached true
         (set_current_aruco_id (Some 1%Z) (initial_locals speed_settings 0)) |}.

Definition rescanning_frame : Frame := reading 10 (lit "id: a1").

(** The same text met again in front of marker 7, which has no entry in
    [ARUCO_LOCATIONS]. *)
Definition rescanning_elsewhere : State :=
  on_self (set_self_current_aruco_id (Some 7%Z))
    (on_locals (set_current_aruco_id (Some 7%Z)) rescanning).

(** A payload with both fields: [id: a1,предмет: box]. *)
Definition full_payload : str := lit "id: a1," ++ predmet ++ lit ": box".

(** Marker 1 is reached and [full_payload] scanned; after the retreat
    marker 7 is reached and the same payload decoded. *)
Definition two_visits : list FrameInput :=
  [got_frame (seeing 1 (Some [marker 1 0.9 1.35]));
   got_frame (reading 7 full_payload);
   got_frame (seeing 10 (Some [marker 7 0.9 1.35]))]
  ++ seeing_for 15 11 (Some [marker 7 0.9 1.35]).

(** Marker 7 is reached and a text without fields decoded. *)
Definition unknown_shelf : list FrameInput :=
  [got_frame (seeing 1 (Some [marker 7 0.9 1.35]));
   got_frame (reading 7 (lit "hello"))].

(** Marker 1 is reached, [full_payload] scanned, and the retreat runs
    out. *)
Definition one_visit : list FrameInput :=
  [got_frame (seeing 1 (Some [marker 1 0.9 1.35]));
   got_frame (reading 7 full_payload);
   got_frame (seeing 10 None)].

(** Marker 1 is locked, then only marker 2 is seen for 15 frames. *)
Definition lock_handover : list FrameInput :=
  got_frame (seeing 1 (Some [marker 1 0.9 3]))
  :: seeing_for 15 2 (Some [marker 2 0.9 3]).

(** A frame without detection on which ESC is pressed. *)
Definition closing (t : Q) : Frame :=
  {| now := t; frame_height := 480; frame_width := 640;
     detected := None; qr_text := None;
     db := sample_db; exit_requested := true |}.

(** The attributes of a flight started for the session ["session"]. *)
Definition booked : Self := Session.new_flight false (Some (lit "session")).

(** A state in retreat mode since clock 7, locked on marker 1. *)
Definition retreating : State :=
  {| self :=
       set_locked_marker_id (Some 1%Z)
         (Session.new_flight false (Some (lit "session")));
     locals :=
       set_retreat_start_time (Some 7)
         (set_retreat_mode true (initial_locals speed_settings 0)) |}.

(** A state in which the yaw search is enabled and five frames have passed
    without a marker. *)
Definition searching : State :=
  {| self :=
       set_yaw_search (yaw_search_restart)
         (Session.new_flight false (Some (lit "session")));
     locals := set_frames_without_marker 5%Z (initial_locals speed_settings 0) |}.

End Scenario.

(** ** Further observations *)

(** The three limits that the loop keeps on a velocity command. *)
Definition within_limits (s : SpeedSettings) (v : Velocity) : Prop :=
  Qabs (v_x v) <= centering_speed s
  /\ Qabs (yaw_rate v) <= yaw_speed s
  /\ Qabs (v_z v) <= vertical_speed s.

(** The yaw-search direction is a unit (1 or -1, up to its magnitude). *)
Definition unit_direction (st : State) : Prop :=
  Qabs (direction (yaw_search (self st))) <= 1.

(** The attribute [self.current_aruco_id] and the local [current_aruco_id]
    of [fly] hold the same id. *)
Definition ids_in_sync (st : State) : Prop :=
  self_current_aruco_id (self st) = current_aruco_id (locals st).

(** The calls that an iteration of the frame loop makes: velocity commands,
    the pause, the store and the message queue. *)
Definition is_loop_call (e : event) : bool :=
  match e with
  | set_manual_speed_body_fixed _ | time_sleep _
  | find_item _ | add_item _ _ _ _ | add_scan_history _ _ _ _
  | telegram_put _ => true
  | _ => false
  end.

(** ** [process_frame_qr] *)

Module FrameQr.

(** What [detectAndDecode] answers for one processed frame: an exception,
    or the decoded text with, when the corner points are given and none is
    NaN, the smaller side of their bounding box. *)
Inductive Decode :=
| decode_raised
| decoded (text : str) (qr_size : option Q).

(** The loop of lines 322-332 over the decodes of [frames_to_try]: the
    result pairs [self.best_result] with whether an exception left the
    loop. *)
Fixpoint decode_loop (decodes : list Decode) (max_qr_size : Q)
    (best_result : option (str * Q)) : option (str * Q) * bool :=
  match decodes with
  | [] => (best_result, false)
  | decode_raised :: _ => (best_result, true)
  | decoded text points :: rest =>
    match text, points with
    | _ :: _, Some qr_size =>
      if Qltb max_qr_size qr_size
      then decode_loop rest qr_size (Some (text, qr_size))
      else decode_loop rest max_qr_size best_result
    | _, _ => decode_loop rest max_qr_size best_result
    end
  end.

(** [process_frame_qr] on a frame that is not [None]: the text returned and
    the new [self.best_result]. *)
Definition process_frame_qr (best_result : option (str * Q))
    (decodes : list Decode) : option str * option (str * Q) :=
  match decode_loop decodes 0 best_result with
  | (best, true) => (None, best)
  | (Some (text, qr_size), false) => (Some text, Some (text, qr_size))
  | (None, false) => (None, None)
  end.

(** A decode that the loop considers: a text that is not empty, with a
    size. *)
Definition usable (d : Decode) (text : str) (qr_size : Q) : Prop :=
  d = decoded text (Some qr_size) /\ text <> [].

End FrameQr.

(** ** database.py *)

Module Database.

Section CleanString.
Context `{PyUnicode}.

(** [s.split()]: the maximal runs of code points that are not whitespace. *)
Fixpoint split_whitespace (s : str) : list str :=
  match s with
  | [] => []
  | c :: rest =>
    if isspace c then split_whitespace rest
    else
      let continues :=
        match rest with
        | c' :: _ => negb (isspace c')
        | [] => false
        end in
      match continues, split_whitespace rest with
      | true, w :: ws => (c :: w) :: ws
      | _, ws => [c] :: ws
      end
  end.

(** [sep.join(words)] *)
Fixpoint join (sep : str) (words : list str) : str :=
  match words with
  | [] => []
  | w :: rest =>
    match rest with
    | [] => w
    | _ :: _ => w ++ sep ++ join sep rest
    end
  end.

(** [clean_string]: [' '.join(s.split())] *)
Definition clean_string (s : str) : str := join [32%N] (split_whitespace s).

(** A word of [s.split()]: not empty, without whitespace. *)
Definition word (w : str) : Prop :=
  w <> [] /\ Forall (fun c => isspace c = false) w.

End CleanString.

(** The columns of [Item] that the handlers read. *)
Record Item := {
  qr_code : str;
  name : str;
  shelf : str;
  position : str
}.

Section ScannedItems.
Context {Row : Type} `{Countable K}.
Variable row_qr_code : Row -> K.
Variable get : Z -> option Row.

(** Lines 280-288 of [get_last_successful_sessions]: the loop over the
    successful scans of one session, oldest first. [scans] holds the
    [item_id] of each scan ([None] for NULL), [get] is
    [session.query(Item).get]. *)
Fixpoint scanned_items_loop (scans : list (option Z))
    (scanned_items : list Row) (scanned_qr_codes : gset K) : list Row :=
  match scans with
  | [] => scanned_items
  | item_id :: rest =>
    match item_id with
    | Some id =>
      if (id =? 0)%Z then
        scanned_items_loop rest scanned_items scanned_qr_codes
      else
        match get id with
        | Some item =>
          if bool_decide (row_qr_code item ∈ scanned_qr_codes) then
            scanned_items_loop rest scanned_items scanned_qr_codes
          else
            scanned_items_loop rest (scanned_items ++ [item])
              ({[ row_qr_code item ]} ∪ scanned_qr_codes)
        | None => scanned_items_loop rest scanned_items scanned_qr_codes
        end
    | None => scanned_items_loop rest scanned_items scanned_qr_codes
    end
  end.

Definition scanned_items (scans : list (option Z)) : list Row :=
  scanned_items_loop scans [] ∅.

(** The items that the scans of a session refer to: [item_id] set, not 0,
    and found. *)
Definition referred (scans : list (option Z)) (item : Row) : Prop :=
  exists id, In (Some id) scans /\ id <> 0%Z /\ get id = Some item.

End ScannedItems.

End Database.

(** ** The inverse index of marker locations *)

(** [ARUCO_LOCATIONS.items()], in insertion order. *)
Definition ARUCO_LOCATIONS_items : list (Z * (str * str)) :=
  [ (0%Z, (lit "1", lit "2"));
    (1%Z, (lit "1", lit "1"));
    (2%Z, (lit "1", lit "2"));
    (3%Z, (lit "1", lit "1"));
    (4%Z, (lit "2", lit "3")) ].

(** [(f"Стеллаж {shelf}", f"Полка {position}")] *)
Definition location_key (location : str * str) : str * str :=
  (stellazh_ ++ location.1, polka_ ++ location.2).

Module FlightIndex.

(** Lines 30-36 of flight.py, for the items of any [ARUCO_LOCATIONS]; the
    keys of the comprehension are visited in the order of [elements]. *)
Definition LOCATION_TO_ARUCO (items : list (Z * (str * str)))
  : gmap (str * str) (list Z) :=
  list_to_map
    (map (fun location : str * str =>
            (location_key location,
             map fst
               (List.filter
                  (fun item : Z * (str * str) =>
                     bool_decide (item.2.1 = location.1)
                     && bool_decide (item.2.2 = location.2))
                  items)))
       (elements (list_to_set (map snd items) : gset (str * str)))).

End FlightIndex.

(** ** bot_handlers.py *)

Module BotHandlers.

Section GroupBy.
Context `{Countable K} {A B : Type}.

(** [if key not in d: d[key] = []] followed by [d[key].append(a)]. *)
Definition append_to (d : gmap K (list A)) (key : K) (a : A)
  : gmap K (list A) :=
  let d :=
    match d !! key with
    | None => <[key := []]> d
    | Some _ => d
    end in
  alter (fun l => l ++ [a]) key d.

(** The values of the elements of [xs] filed under [k], in order. *)
Definition group (key : A -> K) (val : A -> B) (k : K) (xs : list A)
  : list B :=
  map val (List.filter (fun x => bool_decide (key x = k)) xs).

End GroupBy.

(** Lines 21-26. *)
Definition LOCATION_TO_ARUCO (items : list (Z * (str * str)))
  : gmap (str * str) (list Z) :=
  fold_left
    (fun d (item : Z * (str * str)) =>
       append_to d (location_key item.2) item.1)
    items ∅.

(** Lines 410-415. *)
Definition items_by_location (items : list Database.Item)
  : gmap (str * str) (list Database.Item) :=
  fold_left
    (fun d item =>
       append_to d (Database.shelf item, Database.position item) item)
    items ∅.

(** Line 417: [sum(len(items) for items in items_by_location.values())] *)
Definition total_items (d : gmap (str * str) (list Database.Item)) : nat :=
  map_fold (fun _ items n => (List.length items + n)%nat) 0%nat d.






End BotHandlers.

(** ** Further concrete cases *)

Module Cases.
Import Flight Scenario.

(** The attributes while marker 1 is followed and nothing is scanned. *)
Definition facing_marker_1 : Self :=
  set_self_current_aruco_id (Some 1%Z) booked.

(** A text whose item line has no colon: [предмет box]. *)
Definition no_colon : str := predmet ++ lit " box".

(** Marker 1 is among the scanned ones and no marker is locked. *)
Definition scanned_one : State :=
  on_self (set_scanned_markers {[ 1%Z ]}) at_take_off.

(** Markers 1 and 2 are seen side by side, marker 2 nearer. *)
Definition two_markers : list Marker := [marker 1 0.9 3; marker 2 0.9 2].

(** The frame on which marker 1 is reached. *)
Definition reaching : Frame := seeing 1 (Some [marker 1 0.9 1.35]).

(** The state once marker 1 is reached. *)
Definition stabilised : State :=
  after (fly_step speed_settings at_take_off reaching).

(** Marker 1 is reached and no code is decoded for 24 frames, one second
    apart: the sweep climbs from 0.4 m to above 2 m and turns. *)
Definition long_sweep : list FrameInput :=
  got_frame reaching :: seeing_for 24 2 None.

(** Marker 7 is reached and a text without fields is read five times. *)
Definition five_failed_reads : list FrameInput :=
  got_frame (seeing 1 (Some [marker 7 0.9 1.35]))
  :: map (fun t => got_frame (reading t (lit "hello"))) [7; 8; 9; 10; 11].

Definition worn_out : State :=
  fst (fst (fly_loop speed_settings at_take_off five_failed_reads)).

(** The retreat runs out, the lock on marker 7 is lost and marker 1 is
    reached. *)
Definition next_shelf : list FrameInput :=
  got_frame (seeing 20 None)
  :: seeing_for 15 21 (Some [marker 1 0.9 1.35]).

(** A world in which every call raises, except arming, take-off and the
    window teardown of [fly]. *)
Definition stormy : Session.World :=
  {| Session.raises := fun _ e =>
       match e with
       | arm | takeoff | destroy_window => false
       | _ => true
       end;
     Session.stored := fun _ _ => None |}.

(** Three decodes of one frame: nothing, a small code, a larger one. *)
Definition three_decodes : list FrameQr.Decode :=
  [FrameQr.decoded [] None;
   FrameQr.decoded (lit "id: a1") (Some 40);
   FrameQr.decoded (lit "id: a1") (Some 55)].

End Cases.

(** * Properties *)

(** ** Arithmetic of the Python operators *)

(** Rational operations stay folded under [cbn] and [simpl]. *)
Arguments Qplus : simpl never.
Arguments Qminus : simpl never.
Arguments Qmult : simpl never.
Arguments Qdiv : simpl never.
Arguments Qopp : simpl never.
Arguments Qinv : simpl never.
Arguments Qabs : simpl never.
Arguments Qle_bool : simpl never.
Arguments Qeq_bool : simpl never.

(** So do string literals. *)
Arguments lit : simpl never.

Lemma Qltb_lt a b : Qltb a b = true <-> a < b.
Proof.
  unfold Qltb. rewrite negb_true_iff.
  split; intros Hab.
  - apply Qnot_le_lt. intros Hle. apply Qle_bool_iff in Hle. congruence.
  - destruct (Qle_bool b a) eqn:E; [|reflexivity].
    apply Qle_bool_iff in E. lra.
Qed.

Lemma Qltb_ge a b : Qltb a b = false <-> b <= a.
Proof.
  unfold Qltb. rewrite negb_false_iff. apply Qle_bool_iff.
Qed.

Lemma Qle_bool_lt a b : Qle_bool a b = false <-> b < a.
Proof.
  rewrite <- Qltb_lt. unfold Qltb. now rewrite negb_true_iff.
Qed.

Ltac qcases :=
  repeat match goal with
  | H : Qltb _ _ = true |- _ => apply Qltb_lt in H
  | H : Qltb _ _ = false |- _ => apply Qltb_ge in H
  | H : Qle_bool _ _ = true |- _ => apply Qle_bool_iff in H
  | H : Qle_bool _ _ = false |- _ => apply Qle_bool_lt in H
  | H : Qeq_bool _ _ = true |- _ => apply Qeq_bool_iff in H
  | H : Qeq_bool _ _ = false |- _ => apply Qeq_bool_neq in H
  | |- context [Qltb ?a ?b] => destruct (Qltb a b) eqn:?
  end.

Lemma sign_cases x :
  (0 < x /\ sign x = 1) \/ (x < 0 /\ sign x = -1) \/ (x == 0 /\ sign x = 0).
Proof.
  unfold sign. qcases; [left | right; left | right; right]; split; auto; lra.
Qed.

Lemma Qabs_times_sign a x : 0 <= a -> Qabs (a * sign x) <= a.
Proof.
  intros Ha.
  destruct (sign_cases x) as [[_ ->] | [[_ ->] | [_ ->]]];
    apply Qabs_Qle_condition; split; lra.
Qed.

Lemma Qabs_times_sign_nonzero a x :
  0 <= a -> ~ x == 0 -> Qabs (a * sign x) == a.
Proof.
  intros Ha Hx.
  destruct (sign_cases x) as [[_ ->] | [[_ ->] | [Hx0 _]]]; [| |contradiction].
  - rewrite Qabs_pos; lra.
  - rewrite Qabs_neg; lra.
Qed.

Lemma py_max_ge_l a b : a <= py_max a b.
Proof. unfold py_max. qcases; lra. Qed.

Lemma py_max_lub a b c : a <= c -> b <= c -> py_max a b <= c.
Proof. unfold py_max. qcases; lra. Qed.

Lemma np_clip_bounds v m : 0 <= m -> Qabs (np_clip v (- m) m) <= m.
Proof.
  intros Hm. unfold np_clip, py_min, py_max.
  apply Qabs_Qle_condition. qcases; split; lra.
Qed.

Lemma speed_settings_ok : settings_ok speed_settings.
Proof. split; vm_compute; congruence. Qed.

(** ** The control law *)

Module ControlFacts.
Import Control.

(** Inside the graduated zone the ratio [|dx| / (frame_width/4)] lies in
    [0, 1]. *)
Lemma x_error_ratio_range x w :
  ~ inject_Z w / 4 == 0 ->
  Qabs (x_error x w) <= inject_Z w / 4 ->
  0 <= x_error_ratio x w <= 1.
Proof.
  intros Hnz Hin.
  pose proof (Qabs_nonneg (x_error x w)) as Hx.
  assert (Hpos : 0 < inject_Z w / 4) by lra.
  unfold x_error_ratio. split.
  - apply Qle_shift_div_l; lra.
  - apply Qle_shift_div_r; lra.
Qed.

Lemma lateral_command_bounds s x w vx yaw :
  settings_ok s ->
  lateral_command s x w = Some (vx, yaw) ->
  Qabs vx <= centering_speed s /\ Qabs yaw <= yaw_speed s.
Proof.
  intros [_ _ Hys _ Hcs _ _]. unfold lateral_command.
  destruct (Qltb (inject_Z w / 4) (Qabs (x_error x w))) eqn:Hfar.
  - intros [= <- <-]. split; now apply Qabs_times_sign.
  - destruct (Qeq_bool (inject_Z w / 4) 0) eqn:Hz; [discriminate|].
    apply Qltb_ge in Hfar. apply Qeq_bool_neq in Hz.
    destruct (x_error_ratio_range x w Hz Hfar) as [Hr0 Hr1].
    set (r := x_error_ratio x w) in *.
    assert (Hm0 : 0 <= py_max (centering_speed s * 0.5) (centering_speed s * r)).
    { pose proof (py_max_ge_l (centering_speed s * 0.5) (centering_speed s * r)).
      lra. }
    assert (Hm1 : py_max (centering_speed s * 0.5) (centering_speed s * r)
                  <= centering_speed s).
    { apply py_max_lub; [lra|]. nra. }
    assert (Hy : Qabs (yaw_speed s * r * sign (x_error x w)) <= yaw_speed s).
    { assert (0 <= yaw_speed s * r) by nra.
      pose proof (Qabs_times_sign (yaw_speed s * r) (x_error x w)).
      assert (yaw_speed s * r <= yaw_speed s) by nra. lra. }
    intros [= <- <-]. split.
    + pose proof (Qabs_times_sign _ (x_error x w) Hm0). lra.
    + apply Qabs_Qle_condition in Hy.
      destruct (Qltb _ _); apply Qabs_Qle_condition; lra.
Qed.

Lemma vertical_command_bounds s y h :
  settings_ok s -> Qabs (vertical_command s y h) <= vertical_speed s.
Proof.
  intros [_ _ _ Hvs _ _ _]. unfold vertical_command.
  destruct (Qltb _ _).
  - pose proof (Qabs_times_sign (vertical_speed s)
                  (inject_Z y - inject_Z h / 2) Hvs) as Hb.
    apply Qabs_Qle_condition in Hb. apply Qabs_Qle_condition. lra.
  - rewrite Qabs_pos; lra.
Qed.

(** The three axes that the control law does bound. *)
Lemma calculate_control_speed_bounds s d x y h w v :
  settings_ok s ->
  calculate_control_speed s d x y h w = Some v ->
  Qabs (v_x v) <= centering_speed s
  /\ Qabs (yaw_rate v) <= yaw_speed s
  /\ Qabs (v_z v) <= vertical_speed s.
Proof.
  intros Hok. unfold calculate_control_speed.
  destruct (lateral_command s x w) as [[vx yaw]|] eqn:Hl; [|discriminate].
  destruct (forward_command s d x w); [|discriminate].
  intros [= <-]. cbn.
  destruct (lateral_command_bounds _ _ _ _ _ Hok Hl).
  auto using vertical_command_bounds.
Qed.

Lemma centering_command_bounds s x y h w v :
  settings_ok s ->
  centering_command s x y h w = Some v ->
  Qabs (v_x v) <= centering_speed s
  /\ Qabs (yaw_rate v) <= yaw_speed s
  /\ Qabs (v_z v) <= vertical_speed s.
Proof.
  intros [_ _ Hys Hvs Hcs _ _]. unfold centering_command.
  destruct (Qeq_bool _ _); [discriminate|].
  destruct (Qeq_bool _ _); [discriminate|].
  intros [= <-]. cbn. auto using np_clip_bounds.
Qed.

(** C3 (the code at the failing input). A marker seen 3 m away in the
    middle of a 640x480 frame: [calculate_control_speed] returns a forward
    speed of 0.22 m/s, above [max_speed] = 0.18 m/s, and the loop sends it as
    it is; nothing clamps the forward axis. *)
Theorem C3_forward_speed_exceeds_max_speed :
  exists v,
    calculate_control_speed speed_settings 3 320 240 480 640 = Some v
    /\ approach_command speed_settings 3 320 240 480 640 = Some v
    /\ v_y v == 0.22
    /\ max_speed speed_settings < Qabs (v_y v).
Proof.
  eexists. split; [vm_compute; reflexivity|].
  split; [vm_compute; reflexivity|].
  split; vm_compute; reflexivity.
Qed.

(** C5 (counterexample). With dx = 10 px in a 640 px wide frame the linear
    term is below half the centering speed, so the floor is in effect, and
    yet the yaw command is the graduated one, not its half. *)
Lemma C5_counterexample :
  Qabs (x_error 330 640) <= inject_Z 640 / 4
  /\ centering_speed speed_settings * x_error_ratio 330 640
     <= centering_speed speed_settings * 0.5
  /\ exists vx yaw,
       lateral_command speed_settings 330 640 = Some (vx, yaw)
       /\ yaw == graduated_yaw speed_settings 330 640
       /\ ~ yaw == graduated_yaw speed_settings 330 640 * 0.5.
Proof.
  split; [vm_compute; congruence|].
  split; [vm_compute; congruence|].
  eexists _, _. split; [vm_compute; reflexivity|].
  split; vm_compute; congruence.
Qed.

(** C5 (amended). In the graduated zone the lateral command is the larger
    of half the centering speed and the linear term, signed by dx; the yaw
    command is halved exactly when the linear term exceeds half the centering
    speed, that is when the floor is not in effect, and is left as it is when
    the floor is in effect. *)
Theorem C5_lateral_command_graduated s x w :
  0 < centering_speed s ->
  ~ inject_Z w / 4 == 0 ->
  Qabs (x_error x w) <= inject_Z w / 4 ->
  exists vx yaw,
    lateral_command s x w = Some (vx, yaw)
    /\ vx = py_max (centering_speed s * 0.5)
              (centering_speed s * x_error_ratio x w) * sign (x_error x w)
    /\ (centering_speed s * x_error_ratio x w <= centering_speed s * 0.5 ->
        yaw = graduated_yaw s x w
        /\ (~ x_error x w == 0 -> Qabs vx == centering_speed s * 0.5))
    /\ (centering_speed s * 0.5 < centering_speed s * x_error_ratio x w ->
        yaw = graduated_yaw s x w * 0.5
        /\ Qabs vx == centering_speed s * x_error_ratio x w).
Proof.
  intros Hcs Hnz Hin.
  destruct (x_error_ratio_range x w Hnz Hin) as [Hr0 Hr1].
  unfold lateral_command, graduated_yaw.
  destruct (Qltb (inject_Z w / 4) (Qabs (x_error x w))) eqn:Hfar;
    [apply Qltb_lt in Hfar; lra|].
  destruct (Qeq_bool (inject_Z w / 4) 0) eqn:Hz;
    [apply Qeq_bool_iff in Hz; contradiction|].
  set (r := x_error_ratio x w) in *.
  set (m := py_max (centering_speed s * 0.5) (centering_speed s * r)).
  eexists _, _. split; [reflexivity|]. split; [reflexivity|].
  split.
  - intros Hfloor.
    assert (Hm : m == centering_speed s * 0.5).
    { unfold m, py_max. qcases; lra. }
    assert (Hle : Qabs (m * sign (x_error x w)) <= centering_speed s * 0.5).
    { pose proof (Qabs_times_sign m (x_error x w)). lra. }
    split.
    + destruct (Qltb (centering_speed s * 0.5) _) eqn:E;
        [apply Qltb_lt in E; lra | reflexivity].
    + intros Hx. rewrite Qabs_times_sign_nonzero; [exact Hm | lra | exact Hx].
  - intros Hlin.
    assert (Hm : m == centering_speed s * r).
    { unfold m, py_max. qcases; lra. }
    assert (Hx : ~ x_error x w == 0).
    { intros Hx0. assert (Hr : r == 0).
      { unfold r, x_error_ratio. rewrite Hx0. reflexivity. }
      rewrite Hr in Hlin. lra. }
    assert (Ha : Qabs (m * sign (x_error x w)) == centering_speed s * r).
    { rewrite Qabs_times_sign_nonzero; [exact Hm | lra | exact Hx]. }
    split; [|exact Ha].
    destruct (Qltb (centering_speed s * 0.5) _) eqn:E;
      [reflexivity | apply Qltb_ge in E; lra].
Qed.

(** The amended C5 at dx = 50 px of a 640 px frame, where the floor is in
    effect. *)
Lemma C5_lateral_command_graduated_witness :
  exists vx yaw,
    lateral_command speed_settings 370 640 = Some (vx, yaw)
    /\ vx = py_max (centering_speed speed_settings * 0.5)
              (centering_speed speed_settings * x_error_ratio 370 640)
            * sign (x_error 370 640)
    /\ (centering_speed speed_settings * x_error_ratio 370 640
        <= centering_speed speed_settings * 0.5 ->
        yaw = graduated_yaw speed_settings 370 640
        /\ (~ x_error 370 640 == 0 ->
            Qabs vx == centering_speed speed_settings * 0.5))
    /\ (centering_speed speed_settings * 0.5
        < centering_speed speed_settings * x_error_ratio 370 640 ->
        yaw = graduated_yaw speed_settings 370 640 * 0.5
        /\ Qabs vx == centering_speed speed_settings * x_error_ratio 370 640).
Proof.
  apply (C5_lateral_command_graduated speed_settings 370 640);
    vm_compute; congruence.
Defined.

End ControlFacts.

(** ** Processing a decoded text *)

Module QrFacts.
Import Qr Flight Scenario.

Section WithUnicode.
Context `{PyUnicode}.
Variable s : SpeedSettings.

(** A text already in [scanned_qr_codes] is accepted at once: nothing is
    called and nothing changes. *)
Lemma process_qr_data_duplicate x db qr_data :
  qr_data ∈ scanned_qr_codes x ->
  process_qr_data x db qr_data = (true, x, []).
Proof.
  intros Hin. unfold process_qr_data.
  now rewrite bool_decide_eq_true_2.
Qed.

Lemma process_qr_data_no_location x db qr_data :
  qr_data ∉ scanned_qr_codes x ->
  current_location x = None ->
  process_qr_data x db qr_data
  = (false, x,
     notify x msg_invalid_location ++
     [add_scan_history (lit "scan") None
        (lit "invalid_location: " ++ qr_data) (session_uuid x)]).
Proof.
  intros Hnew Hloc. unfold process_qr_data.
  rewrite bool_decide_eq_false_2 by assumption.
  now rewrite Hloc.
Qed.

Lemma process_qr_data_missing_field x db qr_data loc data :
  qr_data ∉ scanned_qr_codes x ->
  current_location x = Some loc ->
  parse_qr qr_data = Some data ->
  d_qr_code data = None \/ d_name data = None ->
  process_qr_data x db qr_data
  = (false, x,
     notify x msg_invalid_format ++
     [add_scan_history (lit "scan") None
        (lit "invalid_format: " ++ qr_data) (session_uuid x)]).
Proof.
  intros Hnew Hloc Hparse Hmiss. unfold process_qr_data.
  rewrite bool_decide_eq_false_2 by assumption.
  rewrite Hloc. destruct loc as [shelf position]. rewrite Hparse.
  destruct Hmiss as [-> | ->]; [destruct (d_name data)|]; reflexivity.
Qed.

Lemma notify_no_add_item x m : existsb is_add_item (notify x m) = false.
Proof. unfold notify. now destruct (telegram_initialized x). Qed.

(** The scanning branch for a text on which [process_qr_data] fails. *)
Lemma scan_step_failed st f qr_data calls :
  qr_text f = Some qr_data ->
  qr_data <> [] ->
  process_qr_data (self st) (db f) qr_data = (false, self st, calls) ->
  let abandon :=
    (5 <=? retry_count (locals st) + 1)%Z && negb (retreat_mode (locals st)) in
  let r := scan_step s st f in
  emitted r
  = calls ++ (if abandon
              then [set_manual_speed_body_fixed (retreat_velocity s)] else [])
  /\ retry_count (locals (after r)) = (retry_count (locals st) + 1)%Z
  /\ retreat_mode (locals (after r)) = (abandon || retreat_mode (locals st))
  /\ qr_data ∈ sr_failed_qr (scan_results (self (after r)))
  /\ scanned_qr_codes (self (after r)) = scanned_qr_codes (self st).
Proof.
  intros Hqr Hne Hp. cbv zeta. unfold scan_step. rewrite Hqr.
  destruct qr_data as [|c rest]; [congruence|].
  rewrite Hp. unfold scan_failed. cbn.
  destruct ((5 <=? retry_count (locals st) + 1)%Z
            && negb (retreat_mode (locals st))); cbn.
  - repeat split; try reflexivity. set_solver.
  - rewrite app_nil_r. repeat split; try reflexivity. set_solver.
Qed.

(** C2. A decoded text already in [scanned_qr_codes]: the iteration calls
    no [add_item] (its only possible call is the retreat command), counts one
    more successful scan, and leaves the loop in retreat mode. *)
Theorem C2_duplicate_code_not_persisted st f qr_data :
  target_reached (locals st) = true ->
  qr_text f = Some qr_data ->
  qr_data <> [] ->
  qr_data ∈ scanned_qr_codes (self st) ->
  let r := fly_step s st f in
  existsb is_add_item (emitted r) = false
  /\ emitted r
     = (if retreat_mode (locals st) then []
        else [set_manual_speed_body_fixed (retreat_velocity s)])
  /\ sr_successful_scans (scan_results (self (after r)))
     = (sr_successful_scans (scan_results (self st)) + 1)%Z
  /\ scanned_qr_codes (self (after r)) = scanned_qr_codes (self st)
  /\ retreat_mode (locals (after r)) = true
  /\ (retreat_mode (locals st) = false ->
      target_reached (locals (after r)) = false
      /\ retreat_start_time (locals (after r)) = Some (now f)).
Proof.
  intros Htr Hqr Hne Hin. cbv zeta.
  unfold fly_step. rewrite Htr. unfold scan_step. rewrite Hqr.
  destruct qr_data as [|c rest]; [congruence|].
  rewrite process_qr_data_duplicate by assumption.
  unfold scan_succeeded.
  destruct st as [x l]. cbn in *.
  destruct (current_aruco_id l); cbn; destruct (retreat_mode l) eqn:E; cbn;
    repeat split; try reflexivity; congruence.
Qed.

Lemma current_location_none x :
  current_location x = None <->
  self_current_aruco_id x = None
  \/ exists i, self_current_aruco_id x = Some i /\ ARUCO_LOCATIONS !! i = None.
Proof.
  unfold current_location. destruct (self_current_aruco_id x) as [i|].
  - split.
    + intros Hi. right. now exists i.
    + intros [? | (j & [= <-] & Hj)]; [discriminate | exact Hj].
  - split; [now left | reflexivity].
Qed.

Lemma existsb_is_add_item_app (a b : list event) :
  existsb is_add_item a = false ->
  existsb is_add_item b = false ->
  existsb is_add_item (a ++ b) = false.
Proof. intros Ha Hb. rewrite existsb_app, Ha, Hb. reflexivity. Qed.

(** C9 (amended). A decoded text that is not yet in [scanned_qr_codes],
    decoded while the current marker has a location, whose parsing completes
    and leaves the identifier or the name missing: an [invalid_format] scan
    event is recorded, no [add_item] is called, the retry counter grows by
    exactly 1, and the loop goes to retreat mode as soon as the counter has
    reached 5. *)
Theorem C9_missing_field_invalid_format st f qr_data loc data :
  target_reached (locals st) = true ->
  qr_text f = Some qr_data ->
  qr_data <> [] ->
  qr_data ∉ scanned_qr_codes (self st) ->
  current_location (self st) = Some loc ->
  parse_qr qr_data = Some data ->
  d_qr_code data = None \/ d_name data = None ->
  let abandon :=
    (5 <=? retry_count (locals st) + 1)%Z && negb (retreat_mode (locals st)) in
  let r := fly_step s st f in
  emitted r
  = (notify (self st) msg_invalid_format ++
     [add_scan_history (lit "scan") None
        (lit "invalid_format: " ++ qr_data) (session_uuid (self st))])
    ++ (if abandon
        then [set_manual_speed_body_fixed (retreat_velocity s)] else [])
  /\ existsb is_add_item (emitted r) = false
  /\ retry_count (locals (after r)) = (retry_count (locals st) + 1)%Z
  /\ ((5 <= retry_count (locals st) + 1)%Z ->
      retreat_mode (locals (after r)) = true).
Proof.
  intros Htr Hqr Hne Hnew Hloc Hparse Hmiss abandon r.
  pose proof (process_qr_data_missing_field (self st) (db f) qr_data loc data
                Hnew Hloc Hparse Hmiss) as Hp.
  destruct (scan_step_failed st f qr_data _ Hqr Hne Hp)
    as (Hem & Hretry & Hmode & _ & _).
  subst r. unfold fly_step. rewrite Htr.
  fold abandon in Hem, Hmode.
  split; [exact Hem|]. split; [|split; [exact Hretry|]].
  - rewrite Hem. apply existsb_is_add_item_app.
    + apply existsb_is_add_item_app; [apply notify_no_add_item | reflexivity].
    + now destruct abandon.
  - intros Hfive. rewrite Hmode. unfold abandon.
    apply Z.leb_le in Hfive. rewrite Hfive.
    now destruct (retreat_mode (locals st)).
Qed.

(** C10 (amended). A decoded text that is not yet in [scanned_qr_codes],
    decoded while [self.current_aruco_id] is unset or has no entry in
    [ARUCO_LOCATIONS]: [process_qr_data] returns [False] after recording an
    [invalid_location] scan event; no [add_item] is called, and the loop
    counts a failed attempt. *)
Theorem C10_no_location_invalid_location st f qr_data :
  target_reached (locals st) = true ->
  qr_text f = Some qr_data ->
  qr_data <> [] ->
  qr_data ∉ scanned_qr_codes (self st) ->
  (self_current_aruco_id (self st) = None
   \/ exists i, self_current_aruco_id (self st) = Some i
                /\ ARUCO_LOCATIONS !! i = None) ->
  let record :=
    notify (self st) msg_invalid_location ++
    [add_scan_history (lit "scan") None
       (lit "invalid_location: " ++ qr_data) (session_uuid (self st))] in
  let abandon :=
    (5 <=? retry_count (locals st) + 1)%Z && negb (retreat_mode (locals st)) in
  let r := fly_step s st f in
  process_qr_data (self st) (db f) qr_data = (false, self st, record)
  /\ emitted r
     = record ++ (if abandon
                  then [set_manual_speed_body_fixed (retreat_velocity s)]
                  else [])
  /\ existsb is_add_item (emitted r) = false
  /\ retry_count (locals (after r)) = (retry_count (locals st) + 1)%Z
  /\ qr_data ∈ sr_failed_qr (scan_results (self (after r)))
  /\ scanned_qr_codes (self (after r)) = scanned_qr_codes (self st).
Proof.
  intros Htr Hqr Hne Hnew Hloc record abandon r.
  apply current_location_none in Hloc.
  pose proof (process_qr_data_no_location (self st) (db f) qr_data Hnew Hloc)
    as Hp.
  destruct (scan_step_failed st f qr_data _ Hqr Hne Hp)
    as (Hem & Hretry & _ & Hfailed & Hscanned).
  subst r. unfold fly_step. rewrite Htr.
  fold abandon in Hem. fold record in Hem, Hp.
  split; [exact Hp|]. split; [exact Hem|].
  split; [|split; [exact Hretry | split; [exact Hfailed | exact Hscanned]]].
  rewrite Hem. apply existsb_is_add_item_app.
  - apply existsb_is_add_item_app; [apply notify_no_add_item | reflexivity].
  - now destruct abandon.
Qed.

End WithUnicode.

(** C2 on the text ["id: a1"] decoded again in front of marker 1. *)
Lemma C2_duplicate_code_not_persisted_witness :
  let r := fly_step speed_settings rescanning rescanning_frame in
  existsb is_add_item (emitted r) = false
  /\ emitted r
     = (if retreat_mode (locals rescanning) then []
        else [set_manual_speed_body_fixed (retreat_velocity speed_settings)])
  /\ sr_successful_scans (scan_results (self (after r)))
     = (sr_successful_scans (scan_results (self rescanning)) + 1)%Z
  /\ scanned_qr_codes (self (after r)) = scanned_qr_codes (self rescanning)
  /\ retreat_mode (locals (after r)) = true
  /\ (retreat_mode (locals rescanning) = false ->
      target_reached (locals (after r)) = false
      /\ retreat_start_time (locals (after r)) = Some (now rescanning_frame)).
Proof.
  apply (C2_duplicate_code_not_persisted speed_settings rescanning
           rescanning_frame (lit "id: a1")).
  - reflexivity.
  - reflexivity.
  - discriminate.
  - apply (bool_decide_unpack _). vm_compute. exact I.
Defined.

(** C9 (counterexample). Marker 7, which has no entry in
    [ARUCO_LOCATIONS], is reached and the text [hello] decoded: both fields
    are missing, and the scan event recorded is [invalid_location], not
    [invalid_format]. *)
Lemma C9_counterexample :
  parse_qr (lit "hello") = Some {| d_qr_code := None; d_name := None |}
  /\ fly_loop speed_settings at_take_off unknown_shelf
     = (fst (fst (fly_loop speed_settings at_take_off unknown_shelf)),
        [time_sleep 5;
         set_manual_speed_body_fixed zero_velocity;
         add_scan_history (lit "scan") None (lit "invalid_location: hello")
           (Some (lit "session"))],
        loop_signal).
Proof. split; vm_compute; reflexivity. Qed.

(** The amended C9 on the text [hello] decoded in front of marker 1. *)
Lemma C9_missing_field_invalid_format_witness :
  let r := fly_step speed_settings rescanning (reading 10 (lit "hello")) in
  emitted r
  = [add_scan_history (lit "scan") None (lit "invalid_format: hello")
       (Some (lit "session"))]
  /\ existsb is_add_item (emitted r) = false
  /\ retry_count (locals (after r)) = 1%Z
  /\ ((5 <= 0 + 1)%Z -> retreat_mode (locals (after r)) = true).
Proof.
  apply (C9_missing_field_invalid_format speed_settings rescanning
           (reading 10 (lit "hello")) (lit "hello") (lit "1", lit "1")
           {| d_qr_code := None; d_name := None |}).
  - reflexivity.
  - reflexivity.
  - discriminate.
  - apply (bool_decide_unpack _). vm_compute. exact I.
  - reflexivity.
  - reflexivity.
  - left. reflexivity.
Defined.

(** C10 (counterexample). The text ["id: a1"], scanned before, is decoded
    again in front of marker 7, which has no location: [process_qr_data]
    returns [True] without recording anything, and the loop counts a
    successful scan. *)
Lemma C10_counterexample :
  current_location (self rescanning_elsewhere) = None
  /\ process_qr_data (self rescanning_elsewhere) sample_db (lit "id: a1")
     = (true, self rescanning_elsewhere, [])
  /\ emitted (fly_step speed_settings rescanning_elsewhere rescanning_frame)
     = [set_manual_speed_body_fixed (retreat_velocity speed_settings)]
  /\ sr_successful_scans
       (scan_results
          (self (after (fly_step speed_settings rescanning_elsewhere
                          rescanning_frame)))) = 1%Z.
Proof. vm_compute. repeat split. Qed.

(** The situation of the counterexample arises in flight: after
    [two_visits] the loop is scanning in front of marker 7 with the payload of
    marker 1 in [scanned_qr_codes]. *)
Lemma two_visits_reach_rescanning :
  let st := fst (fst (fly_loop speed_settings at_take_off two_visits)) in
  target_reached (locals st) = true
  /\ self_current_aruco_id (self st) = Some 7%Z
  /\ elements (scanned_qr_codes (self st)) = [full_payload]
  /\ process_qr_data (self st) sample_db full_payload = (true, self st, []).
Proof. vm_compute. repeat split. Qed.

(** The amended C10 on a first reading of ["id: a1"] in front of marker 7. *)
Lemma C10_no_location_invalid_location_witness :
  let st := on_self (set_scanned_qr_codes ∅) rescanning_elsewhere in
  let r := fly_step speed_settings st rescanning_frame in
  process_qr_data (self st) sample_db (lit "id: a1")
  = (false, self st,
     [add_scan_history (lit "scan") None (lit "invalid_location: id: a1")
        (Some (lit "session"))])
  /\ emitted r
     = [add_scan_history (lit "scan") None (lit "invalid_location: id: a1")
          (Some (lit "session"))]
  /\ existsb is_add_item (emitted r) = false
  /\ retry_count (locals (after r)) = 1%Z
  /\ lit "id: a1" ∈ sr_failed_qr (scan_results (self (after r)))
  /\ scanned_qr_codes (self (after r)) = ∅.
Proof.
  apply (C10_no_location_invalid_location speed_settings
           (on_self (set_scanned_qr_codes ∅) rescanning_elsewhere)
           rescanning_frame (lit "id: a1")).
  - reflexivity.
  - reflexivity.
  - discriminate.
  - apply (bool_decide_unpack _). vm_compute. exact I.
  - right. exists 7%Z. split; reflexivity.
Defined.

End QrFacts.

(** ** The frame loop *)

Module FlightFacts.
Import Qr Flight Scenario.

Ltac break_match :=
  match goal with
  | |- context [match ?x with _ => _ end] =>
    lazymatch x with
    | context [match _ with _ => _ end] => fail
    | _ => destruct x eqn:?
    end
  end.

Section WithUnicode.
Context `{PyUnicode}.
Variable s : SpeedSettings.

(** *** What the loop leaves alone *)

Lemma process_qr_data_self x db qr_data ok x' calls :
  process_qr_data x db qr_data = (ok, x', calls) ->
  (x' = x \/ x' = record_scanned qr_data x)
  /\ existsb is_session_call calls = false.
Proof.
  unfold process_qr_data, notify.
  repeat break_match; intros [= <- <- <-]; cbn; auto.
Qed.

Lemma process_qr_data_same_session x db qr_data ok x' calls :
  process_qr_data x db qr_data = (ok, x', calls) ->
  same_session x x' /\ existsb is_session_call calls = false.
Proof.
  intros Hp. apply process_qr_data_self in Hp as [[-> | ->] Hc];
    unfold same_session; cbn; auto 10.
Qed.

Lemma scan_step_same_session st f :
  same_session (self st) (self (after (scan_step s st f)))
  /\ existsb is_session_call (emitted (scan_step s st f)) = false.
Proof.
  unfold scan_step.
  destruct (qr_text f) as [[|c rest]|].
  1, 3: unfold sweep_step, same_session; repeat break_match; cbn; auto 10.
  destruct (process_qr_data _ _ _) as [[ok x'] calls] eqn:Hp.
  apply process_qr_data_same_session in Hp as [Hs Hc].
  unfold same_session in *.
  destruct ok; unfold scan_succeeded, scan_failed; cbn;
    repeat break_match; cbn; rewrite ?existsb_app, ?Hc; cbn; auto 10.
Qed.

Lemma follow_step_same_session st f :
  same_session (self st) (self (after (follow_step s st f)))
  /\ existsb is_session_call (emitted (follow_step s st f)) = false.
Proof.
  unfold follow_step, same_session.
  destruct (detected f) as [ms|], (retreat_mode (locals st)) eqn:Hr.
  2: { destruct (valid_markers s (self st) ms) eqn:Hv; [cbn; auto 10|].
       unfold select_marker, track_marker.
       repeat break_match; cbn; auto 10. }
  1, 2: unfold retreat_step; repeat break_match; cbn; auto 10.
  unfold lost_step, yaw_search_step.
  repeat break_match; cbn; rewrite ?existsb_app; cbn; auto 10.
Qed.

Lemma fly_step_same_session st f :
  same_session (self st) (self (after (fly_step s st f)))
  /\ existsb is_session_call (emitted (fly_step s st f)) = false.
Proof.
  unfold fly_step. destruct (target_reached (locals st));
    auto using scan_step_same_session, follow_step_same_session.
Qed.

Lemma same_session_trans x y z :
  same_session x y -> same_session y z -> same_session x z.
Proof. unfold same_session. intuition congruence. Qed.

Lemma same_session_refl x : same_session x x.
Proof. unfold same_session. auto. Qed.

(** No iteration finalizes the session or changes its identity. *)
Lemma fly_loop_same_session inputs : forall st st' evs ex,
  fly_loop s st inputs = (st', evs, ex) ->
  same_session (self st) (self st')
  /\ existsb is_session_call evs = false.
Proof.
  induction inputs as [|i rest IH]; intros st st' evs ex; cbn.
  - intros [= <- <- <-]. auto using same_session_refl.
  - destruct i as [| |f].
    + apply IH.
    + intros [= <- <- <-]. auto using same_session_refl.
    + destruct (fly_step_same_session st f) as [Hs Hc].
      destruct (flow (fly_step s st f)).
      * destruct (fly_loop s _ rest) as [[st1 evs1] ex1] eqn:Hl.
        apply IH in Hl as [Hs1 Hc1]. intros [= <- <- <-].
        rewrite existsb_app, Hc, Hc1. eauto using same_session_trans.
      * destruct (exit_requested f); [intros [= <- <- <-]; auto|].
        destruct (fly_loop s _ rest) as [[st1 evs1] ex1] eqn:Hl.
        apply IH in Hl as [Hs1 Hc1]. intros [= <- <- <-].
        rewrite existsb_app, Hc, Hc1. eauto using same_session_trans.
      * intros [= <- <- <-]. auto.
Qed.

(** *** Scanned codes stay scanned *)

Lemma scan_step_scanned_codes_grow st f :
  scanned_qr_codes (self st)
  ⊆ scanned_qr_codes (self (after (scan_step s st f))).
Proof.
  unfold scan_step.
  destruct (qr_text f) as [[|c rest]|].
  1, 3: unfold sweep_step; repeat break_match; cbn; set_solver.
  destruct (process_qr_data _ _ _) as [[ok x'] calls] eqn:Hp.
  apply process_qr_data_self in Hp as [[-> | ->] _];
    destruct ok; unfold scan_succeeded, scan_failed; cbn;
    repeat break_match; cbn; set_solver.
Qed.

Lemma follow_step_scanned_codes_keep st f :
  scanned_qr_codes (self (after (follow_step s st f)))
  = scanned_qr_codes (self st).
Proof.
  unfold follow_step.
  destruct (detected f) as [ms|], (retreat_mode (locals st)) eqn:Hr.
  2: { destruct (valid_markers s (self st) ms) eqn:Hv; [reflexivity|].
       unfold select_marker, track_marker.
       repeat break_match; reflexivity. }
  1, 2: unfold retreat_step; repeat break_match; reflexivity.
  unfold lost_step, yaw_search_step.
  repeat break_match; reflexivity.
Qed.

Lemma fly_step_scanned_codes_grow st f :
  scanned_qr_codes (self st)
  ⊆ scanned_qr_codes (self (after (fly_step s st f))).
Proof.
  unfold fly_step. destruct (target_reached (locals st)).
  - apply scan_step_scanned_codes_grow.
  - now rewrite follow_step_scanned_codes_keep.
Qed.

(** Along a flight no text ever leaves [scanned_qr_codes]. *)
Lemma fly_loop_scanned_codes_grow inputs : forall st st' evs ex,
  fly_loop s st inputs = (st', evs, ex) ->
  scanned_qr_codes (self st) ⊆ scanned_qr_codes (self st').
Proof.
  induction inputs as [|i rest IH]; intros st st' evs ex; cbn.
  - now intros [= <- <- <-].
  - destruct i as [| |f].
    + apply IH.
    + now intros [= <- <- <-].
    + pose proof (fly_step_scanned_codes_grow st f) as Hs.
      destruct (flow (fly_step s st f)).
      * destruct (fly_loop s _ rest) as [[st1 evs1] ex1] eqn:Hl.
        apply IH in Hl. intros [= <- <- <-]. set_solver.
      * destruct (exit_requested f); [now intros [= <- <- <-]|].
        destruct (fly_loop s _ rest) as [[st1 evs1] ex1] eqn:Hl.
        apply IH in Hl. intros [= <- <- <-]. set_solver.
      * now intros [= <- <- <-].
Qed.

(** *** Retreat mode excludes scanning *)

Lemma retreat_inv_at_start x t :
  retreat_inv {| self := x; locals := initial_locals s t |}.
Proof. unfold retreat_inv. cbn. discriminate. Qed.

Lemma fly_step_retreat_inv st f :
  retreat_inv st -> retreat_inv (after (fly_step s st f)).
Proof.
  unfold retreat_inv, fly_step. intros Hinv.
  destruct (target_reached (locals st)) eqn:Htr.
  - unfold scan_step.
    destruct (qr_text f) as [[|c rest]|].
    1, 3: unfold sweep_step; repeat break_match; cbn; intros Hr;
          destruct (Hinv Hr); congruence.
    destruct (process_qr_data _ _ _) as [[ok x'] calls].
    destruct ok; unfold scan_succeeded, scan_failed, start_retreat; cbn;
      repeat break_match; cbn; intros Hr; try (split; congruence);
      destruct (Hinv Hr); congruence.
  - unfold follow_step.
    destruct (detected f) as [ms|], (retreat_mode (locals st)) eqn:Hr.
    2: { destruct (valid_markers s (self st) ms) eqn:Hv;
           [cbn; intros Hr'; congruence|].
         unfold select_marker, track_marker.
         repeat break_match; cbn; intros Hr'; congruence. }
    1, 2: unfold retreat_step; repeat break_match; cbn; intros Hr';
          try congruence; destruct (Hinv eq_refl); split; congruence.
    unfold lost_step, yaw_search_step.
    repeat break_match; cbn; intros Hr'; try congruence;
      split; congruence.
Qed.

(** *** Retreat (C4) *)

Lemma retreat_step_running st f t0 :
  retreat_start_time (locals st) = Some t0 ->
  now f - t0 < retreat_time s ->
  retreat_step s st f
  = {| after := st;
       emitted := [set_manual_speed_body_fixed (retreat_velocity s)];
       flow := flow_end_of_body |}.
Proof.
  intros Hstart Hlt. unfold retreat_step. rewrite Hstart.
  apply Qltb_lt in Hlt. now rewrite Hlt.
Qed.

Lemma fly_step_retreating st f :
  retreat_mode (locals st) = true ->
  target_reached (locals st) = false ->
  fly_step s st f = retreat_step s st f.
Proof.
  intros Hr Htr. unfold fly_step, follow_step. rewrite Htr, Hr.
  now destruct (detected f).
Qed.

(** C4 (amended). Once in retreat mode with start time [t0], every frame
    whose clock is less than [retreat_time] after [t0] gets the backward
    command and leaves the state as it is, whatever the detector reports;
    the first frame at or after the deadline gets the zero command, leaves
    retreat mode for the following phase, resets [frames_without_marker],
    restarts the yaw search, and leaves the lock and its lost-frame counter
    untouched. *)
Theorem C4_retreat_is_timed st t0 :
  retreat_mode (locals st) = true ->
  target_reached (locals st) = false ->
  retreat_start_time (locals st) = Some t0 ->
  (forall frames,
      Forall (fun f => now f - t0 < retreat_time s
                       /\ exit_requested f = false) frames ->
      fly_loop s st (map got_frame frames)
      = (st,
         repeat (set_manual_speed_body_fixed (retreat_velocity s))
           (List.length frames),
         loop_signal))
  /\ (forall f,
         retreat_time s <= now f - t0 ->
         let r := fly_step s st f in
         emitted r = [set_manual_speed_body_fixed zero_velocity]
         /\ retreat_mode (locals (after r)) = false
         /\ target_reached (locals (after r)) = false
         /\ frames_without_marker (locals (after r)) = 0%Z
         /\ last_control_time (locals (after r)) = now f
         /\ yaw_search (self (after r)) = yaw_search_restart
         /\ locked_marker_id (self (after r)) = locked_marker_id (self st)
         /\ marker_lock_time (self (after r)) = marker_lock_time (self st)
         /\ marker_lost_frames (self (after r)) = marker_lost_frames (self st)).
Proof.
  intros Hr Htr Hstart. split.
  - induction 1 as [|f frames [Hlt Hexit] _ IH]; [reflexivity|].
    cbn [map fly_loop List.length repeat].
    rewrite fly_step_retreating, (retreat_step_running st f t0) by assumption.
    cbn. rewrite Hexit, IH. reflexivity.
  - intros f Hge. cbv zeta. rewrite fly_step_retreating by assumption.
    unfold retreat_step. rewrite Hstart.
    apply Qltb_ge in Hge. rewrite Hge. cbn. auto 10.
Qed.


(** *** Marker lock (C6) *)

Lemma index_of_id_nth locked ms : forall i j,
  index_of_id locked ms i = Some j ->
  exists m, nth_error ms (j - i) = Some m /\ m_id m = locked /\ (i <= j)%nat.
Proof.
  induction ms as [|m ms IH]; intros i j; cbn; [discriminate|].
  destruct (m_id m =? locked)%Z eqn:E.
  - intros [= <-]. exists m. rewrite Nat.sub_diag. cbn.
    apply Z.eqb_eq in E. auto.
  - intros Hj. apply IH in Hj as (m' & Hn & Hid & Hle).
    exists m'. replace (j - i)%nat with (S (j - S i)) by lia. cbn. auto with lia.
Qed.

(** While a marker is locked and among the valid candidates, it is the one
    selected, and the lost-frame counter is reset. *)
Lemma locked_marker_preferred st t valid locked j :
  locked_marker_id (self st) = Some locked ->
  index_of_id locked valid 0 = Some j ->
  exists st' m,
    select_marker st t valid = selected st' m
    /\ m_id m = locked
    /\ locked_marker_id (self st') = Some locked
    /\ marker_lost_frames (self st') = 0%Z
    /\ frames_without_marker (locals st') = 0%Z.
Proof.
  intros Hlock Hidx. unfold select_marker. rewrite Hlock, Hidx.
  apply index_of_id_nth in Hidx as (m & Hn & Hid & _).
  rewrite Nat.sub_0_r in Hn. rewrite Hn.
  eexists _, m. split; [reflexivity|]. cbn. auto.
Qed.

(** While the locked marker is missing from the valid candidates and the
    counter stays below [max_lost_frames], the frame is skipped: no command,
    the lock is kept, the counter grows by one. *)
Lemma locked_marker_unseen_skips st f ms m0 rest locked :
  target_reached (locals st) = false ->
  retreat_mode (locals st) = false ->
  detected f = Some ms ->
  valid_markers s (self st) ms = m0 :: rest ->
  locked_marker_id (self st) = Some locked ->
  index_of_id locked (m0 :: rest) 0 = None ->
  (marker_lost_frames (self st) + 1 < max_lost_frames)%Z ->
  let r := fly_step s st f in
  emitted r = []
  /\ flow r = flow_continue
  /\ locked_marker_id (self (after r)) = Some locked
  /\ marker_lost_frames (self (after r)) = (marker_lost_frames (self st) + 1)%Z.
Proof.
  intros Htr Hr Hdet Hvalid Hlock Hidx Hlt. cbv zeta.
  unfold fly_step, follow_step. rewrite Htr, Hdet, Hr, Hvalid.
  unfold select_marker. rewrite Hlock, Hidx.
  apply Z.leb_gt in Hlt. rewrite Hlt. cbn. auto.
Qed.

(** *** Frames without a valid marker (C7) *)

(** Frames whose detections are all discarded only count: whatever their
    number, the loop neither commands nor retreats. *)
Lemma discarded_frames_never_retreat frames : forall st,
  target_reached (locals st) = false ->
  retreat_mode (locals st) = false ->
  Forall (fun f => exists ms, detected f = Some ms
                              /\ valid_markers s (self st) ms = []) frames ->
  fly_loop s st (map got_frame frames)
  = (on_locals
       (set_frames_without_marker
          (frames_without_marker (locals st) + Z.of_nat (List.length frames))%Z)
       st,
     [], loop_signal).
Proof.
  induction frames as [|f frames IH]; intros st Htr Hr Hall.
  - cbn. destruct st as [x l]. destruct l. unfold on_locals. cbn.
    rewrite Z.add_0_r. reflexivity.
  - inversion Hall as [|? ? (ms & Hdet & Hvalid) Hrest]; subst.
    cbn [map fly_loop].
    unfold fly_step, follow_step. rewrite Htr, Hdet, Hr, Hvalid. cbn.
    rewrite IH; [|assumption|assumption|exact Hrest].
    cbn. unfold on_locals, set_frames_without_marker. cbn.
    do 4 f_equal. lia.
Qed.

(** An iteration without any detection retreats as soon as the counter
    passes 10. *)
Lemma undetected_frame_retreats st f :
  target_reached (locals st) = false ->
  retreat_mode (locals st) = false ->
  detected f = None ->
  (10 < frames_without_marker (locals st) + 1)%Z ->
  let r := fly_step s st f in
  retreat_mode (locals (after r)) = true
  /\ retreat_start_time (locals (after r)) = Some (now f)
  /\ last (commands (emitted r)) = Some (retreat_velocity s).
Proof.
  intros Htr Hr Hdet Hgt. cbv zeta.
  unfold fly_step, follow_step. rewrite Htr, Hdet, Hr.
  unfold lost_step.
  destruct (yaw_search_step s _ f) as [st1 sweep] eqn:Hy.
  assert (Hl : frames_without_marker (locals st1)
               = (frames_without_marker (locals st) + 1)%Z
               /\ retreat_mode (locals st1) = false
               /\ (sweep = [] \/ exists v, sweep = [set_manual_speed_body_fixed v])).
  { revert Hy. unfold yaw_search_step. cbn.
    repeat break_match; intros [= <- <-]; cbn; eauto. }
  destruct Hl as (Hn & Hr1 & Hsweep).
  rewrite Hn, Hr1. apply Z.ltb_lt in Hgt. rewrite Hgt. cbn.
  repeat split.
  destruct Hsweep as [-> | [v ->]]; reflexivity.
Qed.



(** *** Yaw search (C8) *)

Lemma scan_step_keeps_yaw_search st f :
  yaw_search (self (after (scan_step s st f))) = yaw_search (self st).
Proof.
  unfold scan_step.
  destruct (qr_text f) as [[|c rest]|].
  1, 3: unfold sweep_step; repeat break_match; reflexivity.
  destruct (process_qr_data _ _ _) as [[ok x'] calls] eqn:Hp.
  apply process_qr_data_self in Hp as [[-> | ->] _];
    destruct ok; unfold scan_succeeded, scan_failed; cbn;
    repeat break_match; reflexivity.
Qed.

(** Outside retreat mode a disabled yaw search stays disabled, whatever the
    frame shows: only the end of a retreat enables it. *)
Lemma yaw_search_off_stays_off st f :
  retreat_mode (locals st) = false ->
  active (yaw_search (self st)) = false ->
  active (yaw_search (self (after (fly_step s st f)))) = false.
Proof.
  intros Hr Hoff. unfold fly_step.
  destruct (target_reached (locals st)).
  - now rewrite scan_step_keeps_yaw_search.
  - unfold follow_step. rewrite Hr.
    destruct (detected f) as [ms|].
    + destruct (valid_markers s (self st) ms) eqn:Hv; [exact Hoff|].
      unfold select_marker, track_marker.
      repeat break_match; exact Hoff.
    + unfold lost_step, yaw_search_step. cbn. rewrite Hoff.
      rewrite !andb_false_r. cbn. repeat break_match; cbn; reflexivity || exact Hoff.
Qed.

(** C8 (amended). Outside retreat mode a disabled yaw search never becomes
    active, whatever the frame shows, and in the following phase it sends
    nothing on frames without detection, however long the marker has been
    absent. An enabled one, in the following phase on a frame without
    detection: once more than 5 frames have passed without a marker and a
    command is due, it commands the yaw rate [direction * yaw_speed],
    advances the angle by [direction * step_rate * control_delay] and flips
    the direction when the new angle reaches [max_angle] in absolute
    value. *)
Theorem C8_yaw_search_enabled_by_retreat st f :
  retreat_mode (locals st) = false ->
  let ys := yaw_search (self st) in
  let n := (frames_without_marker (locals st) + 1)%Z in
  let new_angle :=
    current_angle ys + direction ys * step_rate ys * control_delay s in
  let r := fly_step s st f in
  (active ys = false -> active (yaw_search (self (after r))) = false)
  /\ (target_reached (locals st) = false -> detected f = None ->
      active ys = false ->
      emitted r
      = if (10 <? n)%Z
        then [set_manual_speed_body_fixed (retreat_velocity s)] else [])
  /\ (target_reached (locals st) = false -> detected f = None ->
      active ys = true -> (5 < n)%Z ->
      control_delay s <= now f - last_control_time (locals st) ->
      head (commands (emitted r))
      = Some {| v_x := 0; v_y := 0; v_z := 0;
                yaw_rate := direction ys * yaw_speed s |}
      /\ current_angle (yaw_search (self (after r))) = new_angle
      /\ direction (yaw_search (self (after r)))
         = if Qle_bool (Qabs (max_angle ys)) (Qabs new_angle)
           then direction ys * -1 else direction ys).
Proof.
  intros Hr ys n new_angle r.
  split; [intros Hoff; now apply yaw_search_off_stays_off|].
  subst r. unfold fly_step, follow_step.
  split.
  - intros -> -> Hoff. rewrite Hr. unfold lost_step, yaw_search_step. cbn.
    fold ys. rewrite Hoff, !andb_false_r. cbn. fold n. rewrite Hr.
    destruct (10 <? n)%Z; reflexivity.
  - intros -> -> Hon Hn Hdue. rewrite Hr.
    unfold lost_step, yaw_search_step. cbn.
    fold ys n. rewrite Hon. apply Z.ltb_lt in Hn. rewrite Hn.
    apply Qle_bool_iff in Hdue. rewrite Hdue. cbn. fold n new_angle.
    rewrite Hr. destruct (10 <? n)%Z; cbn;
      destruct (Qle_bool (Qabs (max_angle ys)) (Qabs new_angle)); auto.
Qed.

End WithUnicode.

(** *** The code on concrete flights *)

(** C6 (the code at the failing input). Marker 1 is locked and then unseen
    for 15 frames that show marker 2: the lock passes to marker 2 with the
    lost-frame counter left at 15. On the next frame marker 2 is unseen once
    (marker 3 is shown) and the lock is already taken from it. *)
Theorem C6_new_lock_dropped_after_one_unseen_frame :
  let st := fst (fst (fly_loop speed_settings at_take_off lock_handover)) in
  let r := fly_step speed_settings st (seeing 17 (Some [marker 3 0.9 3])) in
  locked_marker_id (self st) = Some 2%Z
  /\ marker_lost_frames (self st) = 15%Z
  /\ locked_marker_id (self (after r)) = Some 3%Z
  /\ marker_lost_frames (self (after r)) = 16%Z.
Proof. vm_compute. repeat split. Qed.

(** C7 (the code at the failing input). Eleven consecutive frames, each
    showing one marker of confidence 0.3 (below the threshold 0.65): the
    counter reaches 11, and yet the loop is not in retreat mode and has sent
    no command. *)
Theorem C7_discarded_markers_do_not_retreat :
  fly_loop speed_settings at_take_off
    (seeing_for 11 1 (Some [marker 1 0.3 3]))
  = (on_locals (set_frames_without_marker 11%Z) at_take_off, [], loop_signal)
  /\ retreat_mode
       (locals (on_locals (set_frames_without_marker 11%Z) at_take_off))
     = false.
Proof. vm_compute. repeat split. Qed.


(** C4 (counterexample). Marker 1 is reached, its code scanned, and the
    retreat runs out at clock 10: the loop is back in the following phase with
    the yaw search enabled, and marker 1 is still locked. *)
Lemma C4_counterexample :
  let run := fly_loop speed_settings at_take_off one_visit in
  let st := fst (fst run) in
  commands (snd (fst run))
  = [zero_velocity; retreat_velocity speed_settings; zero_velocity]
  /\ retreat_mode (locals st) = false
  /\ target_reached (locals st) = false
  /\ active (yaw_search (self st)) = true
  /\ locked_marker_id (self st) = Some 1%Z.
Proof. vm_compute. repeat split. Qed.

(** The amended C4 on a retreat started at clock 7. *)
Lemma C4_retreat_is_timed_witness :
  (forall frames,
      Forall (fun f => now f - 7 < retreat_time speed_settings
                       /\ exit_requested f = false) frames ->
      fly_loop speed_settings retreating (map got_frame frames)
      = (retreating,
         repeat (set_manual_speed_body_fixed (retreat_velocity speed_settings))
           (List.length frames),
         loop_signal))
  /\ (forall f,
         retreat_time speed_settings <= now f - 7 ->
         let r := fly_step speed_settings retreating f in
         emitted r = [set_manual_speed_body_fixed zero_velocity]
         /\ retreat_mode (locals (after r)) = false
         /\ target_reached (locals (after r)) = false
         /\ frames_without_marker (locals (after r)) = 0%Z
         /\ last_control_time (locals (after r)) = now f
         /\ yaw_search (self (after r)) = yaw_search_restart
         /\ locked_marker_id (self (after r))
            = locked_marker_id (self retreating)
         /\ marker_lock_time (self (after r))
            = marker_lock_time (self retreating)
         /\ marker_lost_frames (self (after r))
            = marker_lost_frames (self retreating)).
Proof.
  apply (C4_retreat_is_timed speed_settings retreating 7); reflexivity.
Defined.

(** C8 (counterexample). Ten consecutive frames without any marker right
    after take-off: the counter is at 10, above 5, and no yaw command has been
    sent; the yaw search is not active. *)
Lemma C8_counterexample :
  let run := fly_loop speed_settings at_take_off (seeing_for 10 1 None) in
  let st := fst (fst run) in
  frames_without_marker (locals st) = 10%Z
  /\ snd (fst run) = []
  /\ active (yaw_search (self st)) = false.
Proof. vm_compute. repeat split. Qed.

(** An enabled yaw search over six frames without a marker: four commands
    to the right take the angle to 48 degrees, past [max_angle], two commands
    to the left follow, and the sixth frame, the eleventh without a marker,
    starts the retreat. *)
Example yaw_sweep_turns_at_the_bound :
  commands (snd (fst (fly_loop speed_settings searching
                        (seeing_for 6 1 None))))
  = [ {| v_x := 0; v_y := 0; v_z := 0; yaw_rate := 1 * 0.1 |};
      {| v_x := 0; v_y := 0; v_z := 0; yaw_rate := 1 * 0.1 |};
      {| v_x := 0; v_y := 0; v_z := 0; yaw_rate := 1 * 0.1 |};
      {| v_x := 0; v_y := 0; v_z := 0; yaw_rate := 1 * 0.1 |};
      {| v_x := 0; v_y := 0; v_z := 0; yaw_rate := 1 * -1 * 0.1 |};
      {| v_x := 0; v_y := 0; v_z := 0; yaw_rate := 1 * -1 * 0.1 |};
      retreat_velocity speed_settings ].
Proof. vm_compute. reflexivity. Qed.

(** The amended C8 on an enabled yaw search after five frames without a
    marker. *)
Lemma C8_yaw_search_enabled_by_retreat_witness :
  let st := searching in
  let f := seeing 1 None in
  let ys := yaw_search (self st) in
  let n := (frames_without_marker (locals st) + 1)%Z in
  let new_angle :=
    current_angle ys
    + direction ys * step_rate ys * control_delay speed_settings in
  let r := fly_step speed_settings st f in
  (active ys = false -> active (yaw_search (self (after r))) = false)
  /\ (target_reached (locals st) = false -> detected f = None ->
      active ys = false ->
      emitted r
      = if (10 <? n)%Z
        then [set_manual_speed_body_fixed (retreat_velocity speed_settings)]
        else [])
  /\ (target_reached (locals st) = false -> detected f = None ->
      active ys = true -> (5 < n)%Z ->
      control_delay speed_settings <= now f - last_control_time (locals st) ->
      head (commands (emitted r))
      = Some {| v_x := 0; v_y := 0; v_z := 0;
                yaw_rate := direction ys * yaw_speed speed_settings |}
      /\ current_angle (yaw_search (self (after r))) = new_angle
      /\ direction (yaw_search (self (after r)))
         = if Qle_bool (Qabs (max_angle ys)) (Qabs new_angle)
           then direction ys * -1 else direction ys).
Proof.
  apply (C8_yaw_search_enabled_by_retreat speed_settings searching
           (seeing 1 None)); reflexivity.
Defined.


End FlightFacts.

(** ** Start-up and shutdown *)

Module SessionFacts.
Import Flight Scenario Session.

Lemma finalizations_app u a b :
  finalizations u (a ++ b) = (finalizations u a + finalizations u b)%nat.
Proof. unfold finalizations. now rewrite List.filter_app, length_app. Qed.

Lemma finalizations_none u tr :
  existsb is_session_call tr = false -> finalizations u tr = 0%nat.
Proof.
  unfold finalizations. induction tr as [|e tr IH]; [reflexivity|].
  cbn. intros Hx. apply orb_false_iff in Hx as [He Htr].
  destruct e; try discriminate; cbn; auto.
Qed.

Lemma truthy_Some u v : truthy u = Some v -> u = Some v.
Proof. destruct u as [[|c r]|]; cbn; congruence. Qed.

Section Calm.
Context `{PyUnicode}.
Variable s : SpeedSettings.
Variable w : World.
Hypothesis calm_world : forall history e, raises w history e = false.

Lemma call_calm e x tr : call e w x tr = (ok (), x, tr ++ [e]).
Proof. unfold call. now rewrite calm_world. Qed.

Lemma put_calm m x tr : put m w x tr = (ok (), x, tr ++ notify x m).
Proof.
  unfold put, notify, mbind, cmd_bind, bind, get, when, emit, ret.
  destruct (telegram_initialized x); [reflexivity|].
  now rewrite app_nil_r.
Qed.

(** A loop whose body only adds calls other than [end_scan_session]. *)
Lemma for_each_calm {A} (body : A -> Cmd ()) xs :
  (forall a x tr, exists evs,
      body a w x tr = (ok (), x, tr ++ evs)
      /\ existsb is_session_call evs = false) ->
  forall x tr, exists evs,
    for_each xs body w x tr = (ok (), x, tr ++ evs)
    /\ existsb is_session_call evs = false.
Proof.
  intros Hbody. induction xs as [|a xs IH]; intros x tr; cbn.
  - exists []. now rewrite app_nil_r.
  - unfold mbind, cmd_bind, bind.
    destruct (Hbody a x tr) as (e1 & -> & H1).
    destruct (IH x (tr ++ e1)) as (e2 & -> & H2).
    exists (e1 ++ e2). rewrite app_assoc, existsb_app, H1, H2. auto.
Qed.

Lemma notify_no_finalization u x m : finalizations u (notify x m) = 0%nat.
Proof. unfold notify. now destruct (telegram_initialized x). Qed.

Lemma finalizations_end u st b :
  finalizations u [end_scan_session u st b] = 1%nat.
Proof. unfold finalizations. cbn. now rewrite bool_decide_eq_true_2. Qed.

Ltac count_finalizations :=
  cbn [fst snd];
  rewrite ?finalizations_app, ?notify_no_finalization, ?finalizations_end;
  repeat match goal with
         | Hn : finalizations _ _ = _ |- _ => rewrite Hn; clear Hn
         end;
  reflexivity.

(** [safe_landing] in a calm world: one finalization, then [SystemExit]. *)
Lemma safe_landing_calm x tr u :
  truthy (session_uuid x) = Some u ->
  exists x' evs,
    safe_landing w x tr = (raised SystemExit, x', tr ++ evs)
    /\ session_uuid x' = session_uuid x
    /\ mini_connected x' = mini_connected x
    /\ scan_results x' = scan_results x
    /\ finalizations u evs = 1%nat.
Proof.
  intros Hu.
  unfold safe_landing, try_finally, try_except, mbind, cmd_bind, bind,
    get, when, emit, modify, throw, ret.
  rewrite put_calm. cbn.
  destruct (is_flying x && mini_connected x) eqn:Hfly.
  - apply andb_true_iff in Hfly as [_ Hmini].
    rewrite !call_calm. cbn. rewrite Hmini, !call_calm. cbn. rewrite Hu.
    rewrite !call_calm, put_calm, !call_calm. cbn.
    eexists _, _. split; [rewrite <- !app_assoc; reflexivity|].
    split; [reflexivity|]. split; [cbn; congruence|].
    split; [reflexivity|]. count_finalizations.
  - destruct (mini_connected x) eqn:Hmini; rewrite ?call_calm; cbn;
      rewrite Hu; rewrite !call_calm, put_calm, !call_calm; cbn.
    all: eexists _, _; split; [rewrite <- !app_assoc; reflexivity|].
    all: split; [reflexivity|]; split; [congruence|].
    all: split; [reflexivity|]; count_finalizations.
Qed.

(** [save_scan_results] in a calm world with nothing to write to the scan
    history (no failed text, and no scanned text that [find_item] finds): it
    reaches its [end_scan_session] call, one finalization. *)
Lemma save_scan_results_calm t x tr u t0 :
  truthy (session_uuid x) = Some u ->
  sr_start_time (scan_results x) = Some t0 ->
  sr_failed_qr (scan_results x) = ∅ ->
  (forall history q,
      q ∈ sr_scanned_qr (scan_results x) -> stored w history q = None) ->
  exists x' evs,
    save_scan_results t w x tr = (ok (), x', tr ++ evs)
    /\ session_uuid x' = session_uuid x
    /\ mini_connected x' = mini_connected x
    /\ finalizations u evs = 1%nat.
Proof.
  intros Hu Hstart Hfailed Hfresh.
  unfold save_scan_results, mbind, cmd_bind, bind, get. rewrite Hu.
  unfold try_except, modify, bind. rewrite Hstart, Hfailed, elements_empty.
  set (x1 := on_scan_results (set_sr_end_time (Some t)) x).
  match goal with
  | |- context [for_each (elements (sr_scanned_qr _)) ?body] =>
    set (lookup := body)
  end.
  assert (Hlookups : forall qs,
             (forall q, In q qs -> q ∈ sr_scanned_qr (scan_results x)) ->
             forall tr', exists evs,
               for_each qs lookup w x1 tr' = (ok (), x1, tr' ++ evs)
               /\ existsb is_session_call evs = false).
  { induction qs as [|q qs IH]; intros Hqs tr'; cbn [for_each].
    - exists []. now rewrite app_nil_r.
    - unfold mbind, cmd_bind, bind.
      assert (Hbody : lookup q w x1 tr' = (ok (), x1, tr' ++ [find_item q])).
      { subst lookup. cbn beta. unfold call_find_item.
        now rewrite calm_world, (Hfresh _ q) by (apply Hqs; now left). }
      rewrite Hbody.
      destruct (IH (fun q' Hq' => Hqs q' (or_intror Hq'))
                  (tr' ++ [find_item q])) as (evs & -> & Hq).
      exists (find_item q :: evs). rewrite <- app_assoc. auto. }
  destruct (Hlookups (elements (sr_scanned_qr (scan_results x)))) with (tr' := tr)
    as (e1 & -> & Hc1).
  { intros q Hq. apply elem_of_elements, list_elem_of_In, Hq. }
  cbn [for_each]. unfold ret at 1.
  rewrite call_calm, put_calm.
  eexists _, _. split; [rewrite <- !app_assoc; reflexivity|].
  split; [reflexivity|]. split; [reflexivity|].
  rewrite !finalizations_app, (finalizations_none u e1 Hc1).
  count_finalizations.
Qed.

Ltac save_calm Hu Hstart Hfailed Hfresh :=
  match goal with
  | |- context [save_scan_results ?t w ?a ?b] =>
    let x2 := fresh "x" in
    let e2 := fresh "e" in
    let Hid := fresh "Hid" in
    let Hn := fresh "Hn" in
    destruct (save_scan_results_calm t a b _ _ Hu Hstart Hfailed Hfresh)
      as (x2 & e2 & -> & Hid & _ & Hn);
    rewrite <- Hid in Hu
  end.

Ltac land_calm :=
  match goal with
  | Hu : truthy (session_uuid ?a) = Some ?u
    |- context [safe_landing w ?a ?b] =>
    let x3 := fresh "x" in
    let e3 := fresh "e" in
    let Hn := fresh "Hn" in
    destruct (safe_landing_calm a b u Hu) as (x3 & e3 & -> & _ & _ & _ & Hn)
  end.

(** C1 (amended). A flight with a session uuid, in a world where no call
    raises, whose termination signal, if any, arrives between two iterations
    of the frame loop, and which leaves nothing to write to the scan history
    (no failed text, and no scanned text that [find_item] finds): it always
    ends in [sys.exit], and [end_scan_session] is called for its uuid twice
    when the loop is left by [break] or by an exception (by
    [save_scan_results], then by [safe_landing]) and three times when it is
    left by the signal (by the handler, then by the same two). *)
Theorem C1_finalization_count x u t0 t1 inputs :
  mini_connected x = true ->
  truthy (session_uuid x) = Some u ->
  let st' := fst (fst (fly_loop s (loop_entry s x t0) inputs)) in
  let leaving := snd (fly_loop s (loop_entry s x t0) inputs) in
  sr_failed_qr (scan_results (self st')) = ∅ ->
  (forall history q,
      q ∈ sr_scanned_qr (scan_results (self st')) ->
      stored w history q = None) ->
  let run := fly s true t0 t1 inputs w x [] in
  fst (fst run) = raised SystemExit
  /\ finalizations u (snd run)
     = match leaving with
       | loop_signal => 3%nat
       | _ => 2%nat
       end.
Proof.
  intros Hmini Hu. cbv zeta.
  unfold fly, mbind, cmd_bind, bind, get. rewrite Hmini. cbn [negb orb].
  unfold try_finally, try_except, bind, modify.
  rewrite put_calm, !call_calm. cbn [fst snd].
  unfold run_loop. fold (loop_entry s x t0).
  destruct (fly_loop s (loop_entry s x t0) inputs) as [[st' evs] leaving]
    eqn:Hloop.
  destruct (FlightFacts.fly_loop_same_session s inputs _ _ _ _ Hloop)
    as [(Hm & _ & Hid & _ & Hstart) Hquiet].
  cbn in Hm, Hid, Hstart. cbn [fst snd].
  intros Hfailed Hfresh.
  assert (Hu' : truthy (session_uuid (self st')) = Some u) by now rewrite Hid.
  apply finalizations_none with (u := u) in Hquiet.
  set (tr1 := ((([] ++ notify _ msg_start) ++ [arm]) ++ [takeoff]) ++ _) in *.
  assert (Htr1 : finalizations u tr1 = 0%nat).
  { subst tr1. rewrite !finalizations_app, notify_no_finalization.
    reflexivity. }
  destruct leaving.
  - (* break *)
    save_calm Hu' Hstart Hfailed Hfresh. rewrite call_calm. land_calm.
    split; [reflexivity|]. count_finalizations.
  - (* exception *)
    set (x1 := on_scan_results _ (self st')).
    assert (Hu1 : truthy (session_uuid x1) = Some u) by exact Hu'.
    assert (Hfailed1 : sr_failed_qr (scan_results x1) = ∅) by exact Hfailed.
    assert (Hfresh1 : forall history q,
               q ∈ sr_scanned_qr (scan_results x1) ->
               stored w history q = None) by exact Hfresh.
    save_calm Hu1 Hstart Hfailed1 Hfresh1. rewrite call_calm. land_calm.
    split; [reflexivity|]. count_finalizations.
  - (* termination signal *)
    match goal with
    | |- context [safe_landing w ?a ?b] =>
      destruct (safe_landing_calm a b u Hu')
        as (x1 & e1 & -> & Hid1 & _ & Hsr1 & Hn1)
    end.
    assert (Hu1 : truthy (session_uuid x1) = Some u) by now rewrite Hid1.
    assert (Hstart1 : sr_start_time (scan_results x1) = Some t0)
      by now rewrite Hsr1.
    assert (Hfailed1 : sr_failed_qr (scan_results x1) = ∅)
      by now rewrite Hsr1.
    assert (Hfresh1 : forall history q,
               q ∈ sr_scanned_qr (scan_results x1) ->
               stored w history q = None) by now rewrite Hsr1.
    save_calm Hu1 Hstart1 Hfailed1 Hfresh1. rewrite call_calm. land_calm.
    split; [reflexivity|]. count_finalizations.
Qed.

End Calm.

(** *** Shutdown when calls may raise *)

Section AnyWorld.
Context `{PyUnicode}.
Variable s : SpeedSettings.
Variable w : World.
Variable uid : option str.
Variable u : str.
Hypothesis uid_truthy : truthy uid = Some u.

Local Abbreviation keeps := (keeps w uid u).

Lemma keeps_weaken {A} (c : Cmd A) (P Q : result A -> nat -> Prop) :
  keeps c P -> (forall r n, P r n -> Q r n) -> keeps c Q.
Proof.
  intros Hc HPQ x tr Hx. destruct (Hc x tr Hx) as (r & x' & evs & ? & ? & ?).
  eauto 10.
Qed.

Lemma keeps_ret {A} (a : A) : keeps (ret a) (fun r n => r = ok a /\ n = 0%nat).
Proof.
  intros x tr Hx. exists (ok a), x, []. rewrite app_nil_r. auto.
Qed.

Lemma keeps_throw {A} e :
  keeps (@throw A e) (fun r n => r = raised e /\ n = 0%nat).
Proof.
  intros x tr Hx. exists (raised e), x, []. rewrite app_nil_r. auto.
Qed.

Lemma keeps_emit e :
  keeps (emit e) (fun r n => r = ok () /\ n = finalizations u [e]).
Proof. intros x tr Hx. exists (ok ()), x, [e]. auto. Qed.

Lemma keeps_call e :
  keeps (call e)
    (fun r n => r <> raised SystemExit /\ n = finalizations u [e]).
Proof.
  intros x tr Hx. unfold call.
  destruct (raises w tr e); eexists _, x, [e]; repeat split; auto; discriminate.
Qed.

Lemma keeps_call_returns e :
  (forall history, raises w history e = false) ->
  keeps (call e) (fun r n => r = ok () /\ n = finalizations u [e]).
Proof.
  intros Hsafe x tr Hx. unfold call. rewrite Hsafe.
  exists (ok ()), x, [e]. auto.
Qed.

Lemma keeps_modify (f : Self -> Self) :
  (forall x, session_uuid (f x) = session_uuid x) ->
  keeps (modify f) (fun r n => r = ok () /\ n = 0%nat).
Proof.
  intros Hf x tr Hx. exists (ok ()), (f x), []. rewrite app_nil_r, Hf. auto.
Qed.

Lemma keeps_bind {A B} (c : Cmd A) (k : A -> Cmd B) P1 P2 Q :
  keeps c P1 ->
  (forall a, keeps (k a) (P2 a)) ->
  (forall e n, P1 (raised e) n -> Q (raised e) n) ->
  (forall a n1 r n2, P1 (ok a) n1 -> P2 a r n2 -> Q r (n1 + n2)%nat) ->
  keeps (c ≫= k) Q.
Proof.
  intros Hc Hk Hraise Hok x tr Hx. unfold mbind, cmd_bind, bind.
  destruct (Hc x tr Hx) as ([a|e] & x1 & e1 & -> & Hx1 & HP1).
  - destruct (Hk a x1 (tr ++ e1) Hx1) as (r & x2 & e2 & -> & Hx2 & HP2).
    exists r, x2, (e1 ++ e2). rewrite app_assoc, finalizations_app. eauto.
  - exists (raised e), x1, e1. eauto.
Qed.

Lemma keeps_get_bind {B} (k : Self -> Cmd B) Q :
  (forall y, session_uuid y = uid -> keeps (k y) Q) ->
  keeps (get ≫= k) Q.
Proof.
  intros Hk x tr Hx. unfold mbind, cmd_bind, bind, get.
  exact (Hk x Hx x tr Hx).
Qed.

Lemma keeps_try_except body handler P1 P2 Q :
  keeps body P1 ->
  keeps handler P2 ->
  (forall n, P1 (ok ()) n -> Q (ok ()) n) ->
  (forall n, P1 (raised SystemExit) n -> Q (raised SystemExit) n) ->
  (forall n1 r n2, P1 (raised PyException) n1 -> P2 r n2 -> Q r (n1 + n2)%nat) ->
  keeps (try_except body handler) Q.
Proof.
  intros Hb Hh Hok Hexit Hexc x tr Hx. unfold try_except.
  destruct (Hb x tr Hx) as ([[]|[|]] & x1 & e1 & -> & Hx1 & HP1).
  - exists (ok ()), x1, e1. eauto.
  - destruct (Hh x1 (tr ++ e1) Hx1) as (r & x2 & e2 & -> & Hx2 & HP2).
    exists r, x2, (e1 ++ e2). rewrite app_assoc, finalizations_app. eauto.
  - exists (raised SystemExit), x1, e1. eauto.
Qed.

Lemma keeps_try_finally body final P1 P2 Q :
  keeps body P1 ->
  keeps final P2 ->
  (forall r n1 n2, P1 r n1 -> P2 (ok ()) n2 -> Q r (n1 + n2)%nat) ->
  (forall r n1 e n2, P1 r n1 -> P2 (raised e) n2 -> Q (raised e) (n1 + n2)%nat) ->
  keeps (try_finally body final) Q.
Proof.
  intros Hb Hf Hok Hraise x tr Hx. unfold try_finally.
  destruct (Hb x tr Hx) as (r & x1 & e1 & -> & Hx1 & HP1).
  destruct (Hf x1 (tr ++ e1) Hx1) as ([[]|e] & x2 & e2 & -> & Hx2 & HP2).
  - exists r, x2, (e1 ++ e2). rewrite app_assoc, finalizations_app. eauto.
  - exists (raised e), x2, (e1 ++ e2).
    rewrite app_assoc, finalizations_app. eauto.
Qed.

Lemma keeps_when (b : bool) c P :
  keeps c P -> P (ok ()) 0%nat -> keeps (when b c) P.
Proof.
  intros Hc H0. destruct b; [exact Hc|].
  eapply keeps_weaken; [apply keeps_ret|]. now intros r n [-> ->].
Qed.

Lemma keeps_put m : keeps (put m) (fun r n => r = ok () /\ n = 0%nat).
Proof.
  unfold put. apply keeps_get_bind. intros y _.
  apply keeps_when; [|auto].
  eapply keeps_weaken; [apply keeps_emit|]. cbn. auto.
Qed.

Ltac post :=
  unfold finalizations; cbn; intros;
  rewrite ?bool_decide_eq_true_2 in * by reflexivity;
  intuition (subst; cbn in *; try congruence; try lia).

Lemma keeps_for_each {A} (body : A -> Cmd ()) xs :
  (forall a, keeps (body a) (fun r n => r <> raised SystemExit /\ n = 0%nat)) ->
  keeps (for_each xs body) (fun r n => r <> raised SystemExit /\ n = 0%nat).
Proof.
  intros Hbody. induction xs as [|a xs IH]; cbn.
  - eapply keeps_weaken; [apply keeps_ret|]. intros r n [-> ->]. auto.
  - eapply keeps_bind; [apply Hbody | intros ?; apply IH | |]; cbn.
    + tauto.
    + post.
Qed.


(** Whatever raises, [safe_landing] attempts exactly one finalization. *)
Lemma keeps_safe_landing : keeps safe_landing (fun _ n => n = 1%nat).
Proof.
  unfold safe_landing.
  eapply keeps_try_finally with
    (P1 := fun _ n => n = 0%nat) (P2 := fun _ n => n = 1%nat).
  - eapply keeps_try_except with
      (P1 := fun _ n => n = 0%nat) (P2 := fun _ n => n = 0%nat);
      [| eapply keeps_weaken; [apply keeps_ret|post] | post..].
    eapply keeps_bind with (P2 := fun _ _ n => n = 0%nat);
      [apply keeps_put | intros ? | post..].
    apply keeps_get_bind; intros y _.
    eapply keeps_bind with
      (P1 := fun _ n => n = 0%nat) (P2 := fun _ _ n => n = 0%nat);
      [| intros ? | post..].
    + apply keeps_when; [|reflexivity].
      eapply keeps_bind with
        (P1 := fun r n => r = ok () /\ n = 0%nat)
        (P2 := fun _ _ n => n = 0%nat); [| intros ? | post..].
      * eapply keeps_try_except with
          (P1 := fun r n => r <> raised SystemExit /\ n = 0%nat)
          (P2 := fun r n => r = ok () /\ n = 0%nat);
          [| eapply keeps_weaken; [apply keeps_ret|post] | post..].
        eapply keeps_bind; [apply keeps_call | intros ?; apply keeps_call | post..].
      * eapply keeps_bind with (P2 := fun _ _ n => n = 0%nat);
          [apply keeps_call | intros ? | post..].
        eapply keeps_bind with (P2 := fun _ _ n => n = 0%nat);
          [apply keeps_emit | intros ? | post..].
        eapply keeps_weaken;
          [apply keeps_modify; reflexivity | post].
    + apply keeps_when; [|reflexivity].
      eapply keeps_weaken; [apply keeps_call | post].
  - eapply keeps_bind with
      (P1 := fun r n => r = ok () /\ n = 1%nat)
      (P2 := fun _ _ n => n = 0%nat); [| intros ? | post..].
    + eapply keeps_try_except with
        (P1 := fun r n => r <> raised SystemExit /\ n = 1%nat)
        (P2 := fun r n => r = ok () /\ n = 0%nat);
        [| eapply keeps_weaken; [apply keeps_ret|post] | post..].
      apply keeps_get_bind; intros y Hy. rewrite Hy, uid_truthy.
      eapply keeps_bind; [apply keeps_call | intros ?; apply keeps_put | |].
      * post.
      * post.
    + eapply keeps_bind with (P2 := fun _ _ n => n = 0%nat);
        [apply keeps_call | intros ? | post..].
      eapply keeps_bind with (P2 := fun _ _ n => n = 0%nat);
        [apply keeps_emit | intros ? | post..].
      eapply keeps_weaken; [apply keeps_throw | post].
  - post.
  - post.
Qed.

(** Whatever raises, [save_scan_results] returns, after at most one
    finalization. *)
Lemma keeps_save_scan_results t :
  keeps (save_scan_results t) (fun r n => r = ok () /\ (n <= 1)%nat).
Proof.
  unfold save_scan_results.
  apply keeps_get_bind; intros y Hy. rewrite Hy, uid_truthy.
  eapply keeps_try_except with
    (P1 := fun r n => r <> raised SystemExit /\ (n <= 1)%nat)
    (P2 := fun r n => r = ok () /\ n = 0%nat);
    [| apply keeps_put | post..].
  eapply keeps_bind with (P2 := fun _ r n => r <> raised SystemExit /\ (n <= 1)%nat);
    [apply keeps_modify; reflexivity | intros ? | post..].
  destruct (sr_start_time (scan_results y));
    [| eapply keeps_weaken; [apply keeps_throw | post]].
  eapply keeps_bind with (P2 := fun _ r n => r <> raised SystemExit /\ (n <= 1)%nat);
    [apply keeps_for_each | intros ? | post..].
  { intros qr_code.
    eapply keeps_bind with
      (P1 := fun r n => r <> raised SystemExit /\ n = 0%nat)
      (P2 := fun _ r n => r <> raised SystemExit /\ n = 0%nat);
      [| intros [id|] | post..].
    - intros x tr Hx. unfold call_find_item.
      destruct (raises w tr (find_item qr_code));
        eexists _, x, [find_item qr_code]; repeat split; auto; discriminate.
    - eapply keeps_weaken; [apply keeps_throw | post].
    - eapply keeps_weaken; [apply keeps_ret | post]. }
  eapply keeps_bind with (P2 := fun _ r n => r <> raised SystemExit /\ (n <= 1)%nat);
    [apply keeps_for_each | intros ? | post..].
  { intros failed_qr. eapply keeps_weaken; [apply keeps_throw | post]. }
  eapply keeps_bind; [apply keeps_call | intros ?; apply keeps_put | post..].
Qed.

(** The frame loop with its exit: at most one finalization, the one of the
    signal handler. *)
Lemma keeps_run_loop t0 inputs :
  keeps (run_loop s t0 inputs) (fun _ n => (n <= 1)%nat).
Proof.
  intros x tr Hx. unfold run_loop.
  destruct (fly_loop s _ inputs) as [[st' evs] leaving] eqn:Hloop.
  destruct (FlightFacts.fly_loop_same_session s inputs _ _ _ _ Hloop)
    as [(_ & _ & Hid & _) Hquiet].
  cbn in Hid. apply finalizations_none with (u := u) in Hquiet.
  assert (Hx' : session_uuid (self st') = uid) by congruence.
  destruct leaving.
  - exists (ok ()), (self st'), evs. rewrite Hquiet. auto.
  - exists (raised PyException), (self st'), evs. rewrite Hquiet. auto.
  - destruct (keeps_safe_landing (self st') (tr ++ evs) Hx')
      as (r & x2 & e2 & -> & Hx2 & Hn).
    exists r, x2, (evs ++ e2).
    rewrite app_assoc, finalizations_app, Hquiet, Hn. auto.
Qed.

(** Whatever raises during start-up, flight and shutdown, as long as the
    window teardown returns: a flight with a session uuid attempts the
    finalization at least once and at most three times. *)
Lemma finalization_never_skipped x t0 t1 inputs :
  (forall history, raises w history destroy_window = false) ->
  session_uuid x = uid ->
  mini_connected x = true ->
  (1 <= finalizations u (snd (fly s true t0 t1 inputs w x [])) <= 3)%nat.
Proof.
  intros Hwindow Hx Hmini.
  cut (exists r x' evs,
          fly s true t0 t1 inputs w x [] = (r, x', evs)
          /\ (1 <= finalizations u evs <= 3)%nat).
  { intros (r & x' & evs & -> & Hn). exact Hn. }
  unfold fly, mbind at 1, cmd_bind at 1, bind at 1, get.
  rewrite Hmini. cbn [negb orb].
  match goal with
  | |- context [try_finally ?b ?f w x []] =>
    assert (Hk : keeps (try_finally b f) (fun _ n => (1 <= n <= 3)%nat))
  end.
  { eapply keeps_try_finally with
      (P1 := fun _ n => (n <= 1)%nat)
      (P2 := fun _ n => (1 <= n <= 2)%nat); [| | post..].
    - eapply keeps_try_except with
        (P1 := fun _ n => (n <= 1)%nat)
        (P2 := fun r n => r = ok () /\ n = 0%nat);
        [| apply keeps_modify; reflexivity | post..].
      eapply keeps_bind with (P2 := fun _ _ n => (n <= 1)%nat);
        [apply keeps_modify; reflexivity | intros ? | post..].
      eapply keeps_bind with (P2 := fun _ _ n => (n <= 1)%nat);
        [apply keeps_put | intros ? | post..].
      eapply keeps_bind with (P2 := fun _ _ n => (n <= 1)%nat);
        [apply keeps_call | intros ? | post..].
      eapply keeps_bind with (P2 := fun _ _ n => (n <= 1)%nat);
        [apply keeps_call | intros ? | post..].
      eapply keeps_bind with (P2 := fun _ _ n => (n <= 1)%nat);
        [apply keeps_modify; reflexivity | intros ? | post..].
      eapply keeps_bind with (P2 := fun _ _ n => (n <= 1)%nat);
        [apply keeps_call | intros ? | post..].
      eapply keeps_bind with (P2 := fun _ _ n => (n <= 1)%nat);
        [apply keeps_call | intros ?; apply keeps_run_loop | post..].
    - eapply keeps_bind with (P2 := fun _ _ n => n = 1%nat);
        [apply keeps_save_scan_results | intros ? | post..].
      eapply keeps_bind with (P2 := fun _ _ n => n = 1%nat);
        [apply (keeps_call_returns _ Hwindow)
        | intros ?; apply keeps_safe_landing | post..]. }
  destruct (Hk x [] Hx) as (r & x' & evs & -> & _ & Hn). eauto.
Qed.

End AnyWorld.


(** C1 (counterexample). The session ["session"] in a world where nothing
    raises: leaving the loop by ESC on the first frame, or by an exception
    at the first frame, finalizes it twice; a termination signal after one
    frame without marker finalizes it three times. *)
Lemma C1_counterexample :
  let count inputs :=
    finalizations (lit "session")
      (snd (fly speed_settings true 0 20 inputs calm booked [])) in
  count [got_frame (closing 1)] = 2%nat
  /\ count [frame_error] = 2%nat
  /\ count [got_frame (seeing 1 None)] = 3%nat
  /\ count [got_frame (closing 1)] <> 1%nat.
Proof. vm_compute. repeat split. discriminate. Qed.

(** What the amended C1 leaves out. A text was rejected in front of marker
    7, so [save_scan_results] has a failed text to record: its
    [add_scan_history(action_type=...)] raises, its [end_scan_session] is
    skipped, and the session is finalized by [safe_landing] alone: once
    when the loop is left by ESC, twice when it is left by a signal. *)
Example failed_read_skips_the_report :
  let count inputs :=
    finalizations (lit "session")
      (snd (fly speed_settings true 0 30 inputs calm booked [])) in
  count (unknown_shelf ++ [got_frame (closing 20)]) = 1%nat
  /\ count unknown_shelf = 2%nat.
Proof. vm_compute. repeat split. Qed.

(** The amended C1 on a flight that scans [full_payload] at marker 1 and
    is left by ESC. *)
Lemma C1_finalization_count_witness :
  let inputs := one_visit ++ [got_frame (closing 20)] in
  let leaving :=
    snd (fly_loop speed_settings (loop_entry speed_settings booked 0) inputs) in
  let run := fly speed_settings true 0 30 inputs calm booked [] in
  fst (fst run) = raised SystemExit
  /\ finalizations (lit "session") (snd run)
     = match leaving with
       | loop_signal => 3%nat
       | _ => 2%nat
       end.
Proof.
  apply (C1_finalization_count speed_settings calm (fun _ _ => eq_refl)
           booked (lit "session") 0 30 (one_visit ++ [got_frame (closing 20)])).
  - reflexivity.
  - reflexivity.
  - vm_compute. reflexivity.
  - intros history q Hq. reflexivity.
Defined.
End SessionFacts.

(** * Further properties of the code *)

(** ** The control law, axis by axis *)

Module ControlMore.
Import Control.

Lemma quarter_width_zero w : inject_Z w / 4 == 0 <-> w = 0%Z.
Proof.
  unfold Qeq, Qdiv, Qmult, Qinv, inject_Z. cbn. lia.
Qed.

Lemma Qeq_bool_false x y : ~ x == y -> Qeq_bool x y = false.
Proof.
  intros Hne. destruct (Qeq_bool x y) eqn:E; [|reflexivity].
  apply Qeq_bool_iff in E. contradiction.
Qed.

Lemma sign_times_self x : 0 <= sign x * x.
Proof.
  destruct (sign_cases x) as [[Hx ->] | [[Hx ->] | [Hx ->]]]; lra.
Qed.

(** [calculate_control_speed] raises (the [ZeroDivisionError] of
    [abs(x_center_error) / (frame_width/4)]) exactly on a frame of width 0
    whose marker centroid is at column 0; on every other input it returns a
    command. *)
Theorem calculate_control_speed_raises_iff s d x y h w :
  ~ target_distance s == 0 ->
  calculate_control_speed s d x y h w = None <-> w = 0%Z /\ x = 0%Z.
Proof.
  intros Htd.
  assert (Ht : Qeq_bool (target_distance s) 0 = false)
    by now apply Qeq_bool_false.
  assert (Hfwd : forward_command s d x w <> None).
  { unfold forward_command. rewrite Ht. now destruct (_ && _). }
  unfold calculate_control_speed, lateral_command.
  destruct (Qltb (inject_Z w / 4) (Qabs (x_error x w))) eqn:Hfar.
  - destruct (forward_command s d x w); [|contradiction].
    split; [discriminate|]. intros [-> ->]. discriminate.
  - destruct (Qeq_bool (inject_Z w / 4) 0) eqn:Hz.
    + apply Qeq_bool_iff in Hz.
      pose proof (proj1 (quarter_width_zero w) Hz) as Hw0. subst w.
      split; [intros _|reflexivity]. split; [reflexivity|].
      apply Qltb_ge in Hfar. unfold x_error in Hfar.
      apply Qabs_Qle_condition in Hfar. destruct Hfar as [Hlo Hhi].
      unfold Qle, Qminus, Qplus, Qopp, Qdiv, Qmult, Qinv, inject_Z in Hlo, Hhi.
      cbn in Hlo, Hhi. lia.
    + destruct (forward_command s d x w); [|contradiction].
      split; [discriminate|]. intros [-> _].
      apply Qeq_bool_neq in Hz. exfalso. apply Hz. now apply quarter_width_zero.
Qed.

(** The command steers toward the marker: the lateral speed and the yaw
    rate never have the sign opposite to the horizontal offset, the vertical
    speed never has the sign of the vertical offset (image rows grow
    downwards), and the forward speed never has the sign opposite to the
    distance error. *)
Theorem calculate_control_speed_steers_toward_marker s d x y h w v :
  settings_ok s ->
  calculate_control_speed s d x y h w = Some v ->
  0 <= v_x v * x_error x w
  /\ 0 <= yaw_rate v * x_error x w
  /\ v_z v * (inject_Z y - inject_Z h / 2) <= 0
  /\ 0 <= v_y v * (d - target_distance s).
Proof.
  intros [Hms Hmin Hys Hvs Hcs _ Htd].
  unfold calculate_control_speed.
  destruct (lateral_command s x w) as [[vx yaw]|] eqn:Hl; [|discriminate].
  destruct (forward_command s d x w) as [vy|] eqn:Hf; [|discriminate].
  intros [= <-]. cbn.
  pose proof (sign_times_self (x_error x w)) as Hsx.
  pose proof (sign_times_self (inject_Z y - inject_Z h / 2)) as Hsy.
  pose proof (sign_times_self (d - target_distance s)) as Hsd.
  repeat split.
  - revert Hl. unfold lateral_command.
    destruct (Qltb (inject_Z w / 4) _) eqn:Hfar; [intros [= <- <-]; nra|].
    destruct (Qeq_bool _ _) eqn:Hz; [discriminate|].
    intros [= <- <-].
    pose proof (py_max_ge_l (centering_speed s * 0.5)
                  (centering_speed s * x_error_ratio x w)).
    nra.
  - revert Hl. unfold lateral_command.
    destruct (Qltb (inject_Z w / 4) _) eqn:Hfar; [intros [= <- <-]; nra|].
    destruct (Qeq_bool _ _) eqn:Hz; [discriminate|].
    apply Qltb_ge in Hfar. apply Qeq_bool_neq in Hz.
    destruct (ControlFacts.x_error_ratio_range x w Hz Hfar) as [Hr0 Hr1].
    intros [= <- <-].
    assert (0 <= yaw_speed s * x_error_ratio x w) by nra.
    destruct (Qltb _ _); nra.
  - unfold vertical_command. destruct (Qltb _ _); nra.
  - revert Hf. unfold forward_command.
    destruct (_ && _); [|intros [= <-]; lra].
    destruct (Qeq_bool _ _); [discriminate|].
    pose proof (Qabs_nonneg (d - target_distance s)) as Ha.
    assert (Hr : 0 <= Qabs (d - target_distance s) / target_distance s)
      by (apply Qle_shift_div_l; lra).
    assert (0 <= max_speed s
                 * (Qabs (d - target_distance s) / target_distance s)) by nra.
    intros [= <-].
    destruct (Qltb (Qabs _) (min_speed s)), (Qltb _ 0.2); nra.
Qed.

(** The forward axis is gated and floored: the command is zero unless the
    marker is horizontally within [center_threshold] and the distance error
    is at least [distance_threshold]; when it is not zero its magnitude is
    at least [min_speed], or 0.4 of it within 0.2 m of the target. *)
Theorem forward_command_gated_and_floored s d x w vy :
  settings_ok s ->
  forward_command s d x w = Some vy ->
  let distance_error := d - target_distance s in
  (center_threshold s <= Qabs (x_error x w)
   \/ Qabs distance_error < distance_threshold s -> vy = 0)
  /\ (Qabs (x_error x w) < center_threshold s ->
      distance_threshold s <= Qabs distance_error ->
      ~ distance_error == 0 ->
      min_speed s * 0.4 <= Qabs vy
      /\ (0.2 <= Qabs distance_error -> min_speed s <= Qabs vy)).
Proof.
  intros [Hms Hmin _ _ _ _ Htd]. cbv zeta. unfold forward_command.
  set (de := d - target_distance s).
  destruct (Qltb (Qabs (x_error x w)) (center_threshold s)) eqn:Hc;
    destruct (Qltb (Qabs de) (distance_threshold s)) eqn:Hd; cbn [andb negb].
  1, 3, 4: intros [= <-]; split; [reflexivity|];
    intros Hc' Hd' _; exfalso; qcases; lra.
  apply Qltb_lt in Hc. apply Qltb_ge in Hd.
  rewrite Qeq_bool_false by lra.
  intros [= <-]. split; [intros [? | ?]; lra|].
  intros _ _ Hne.
  pose proof (Qabs_nonneg de) as Ha.
  assert (Hr : 0 <= Qabs de / target_distance s)
    by (apply Qle_shift_div_l; lra).
  assert (Hm : 0 <= max_speed s * (Qabs de / target_distance s)) by nra.
  set (m := max_speed s * (Qabs de / target_distance s)) in *.
  assert (Ham : Qabs (m * sign de) == m)
    by (apply Qabs_times_sign_nonzero; assumption).
  assert (Has : Qabs (min_speed s * sign de) == min_speed s)
    by (apply Qabs_times_sign_nonzero; assumption).
  assert (Hscale : forall a, Qabs (a * 0.4) == Qabs a * 0.4)
    by (intros a; rewrite Qabs_Qmult; reflexivity).
  destruct (Qltb (Qabs (m * sign de)) (min_speed s)) eqn:Hfloor;
    destruct (Qltb (Qabs de) 0.2) eqn:Hnear; qcases.
  all: rewrite ?Ham in Hfloor; rewrite ?Hscale, ?Ham, ?Has.
  all: split; [|intros ?]; lra.
Qed.

End ControlMore.

(** ** Reading a code *)

Module QrMore.
Import Qr Flight Scenario.
Import FlightFacts.

Section WithUnicode.
Context `{PyUnicode}.

Lemma process_qr_data_cases x db qr ok x' calls :
  process_qr_data x db qr = (ok, x', calls) ->
  (ok = true /\ (qr ∈ scanned_qr_codes x) /\ x' = x /\ calls = [])
  \/ (ok = true /\ (qr ∉ scanned_qr_codes x) /\ x' = record_scanned qr x)
  \/ (ok = false /\ (qr ∉ scanned_qr_codes x) /\ x' = x).
Proof.
  unfold process_qr_data.
  destruct (bool_decide (qr ∈ scanned_qr_codes x)) eqn:Hin.
  - apply bool_decide_eq_true in Hin. intros [= <- <- <-]. auto.
  - apply bool_decide_eq_false in Hin.
    repeat break_match; intros [= <- <- <-]; auto.
Qed.

(** [process_qr_data] returns [True] exactly when the text is among
    [scanned_qr_codes] afterwards; when it returns [False] it leaves the
    attributes as they were. *)
Theorem process_qr_data_true_iff_recorded x db qr ok x' calls :
  process_qr_data x db qr = (ok, x', calls) ->
  (ok = true <-> qr ∈ scanned_qr_codes x')
  /\ (ok = false -> x' = x).
Proof.
  intros Hp. apply process_qr_data_cases in Hp
    as [(-> & Hin & -> & _) | [(-> & Hin & ->) | (-> & Hin & ->)]].
  - split; [tauto | discriminate].
  - split; [|discriminate]. split; [intros _|reflexivity].
    unfold record_scanned. cbn. set_solver.
  - split; [|reflexivity]. split; [discriminate | contradiction].
Qed.

(** A text that [process_qr_data] accepted is accepted again whatever the
    store answers, without any call and without any change. *)
Theorem process_qr_data_idempotent x db db' qr x' calls :
  process_qr_data x db qr = (true, x', calls) ->
  process_qr_data x' db' qr = (true, x', []).
Proof.
  intros Hp.
  assert (Hin : qr ∈ scanned_qr_codes x').
  { apply process_qr_data_cases in Hp
      as [(_ & Hin & -> & _) | [(_ & Hin & ->) | (Hf & _)]];
      [exact Hin | | discriminate].
    unfold record_scanned. cbn. set_solver. }
  unfold process_qr_data. now rewrite bool_decide_eq_true_2.
Qed.

Lemma process_qr_data_add_item_location
    x db qr ok x' calls code name shelf position :
  process_qr_data x db qr = (ok, x', calls) ->
  In (add_item code name shelf position) calls ->
  exists sh po,
    current_location x = Some (sh, po)
    /\ shelf = stellazh_ ++ sh /\ position = polka_ ++ po.
Proof.
  unfold process_qr_data, notify.
  repeat break_match; intros [= <- <- <-]; cbn;
    intros Hcall; repeat (destruct Hcall as [Hcall | Hcall]);
    try discriminate; try contradiction;
    injection Hcall as <- <- <- <-; eauto.
Qed.

(** An item is added only for a text not scanned before, after
    [find_item] found nothing for its code, at the location of the current
    marker written as [Стеллаж <shelf>] and [Полка <position>]; the lookup and
    the addition are the first two calls, and nothing else is added. *)
Theorem add_item_only_after_lookup
    x db qr ok x' calls code name shelf position :
  process_qr_data x db qr = (ok, x', calls) ->
  In (add_item code name shelf position) calls ->
  (qr ∉ scanned_qr_codes x)
  /\ db_find_item db code = Returned false
  /\ (exists sh po,
        current_location x = Some (sh, po)
        /\ shelf = stellazh_ ++ sh /\ position = polka_ ++ po)
  /\ exists rest,
       calls = find_item code :: add_item code name shelf position :: rest
       /\ existsb is_add_item rest = false.
Proof.
  unfold process_qr_data, notify.
  destruct (bool_decide (qr ∈ scanned_qr_codes x)) eqn:Hin.
  { intros [= <- <- <-] []. }
  apply bool_decide_eq_false in Hin.
  repeat break_match; intros [= <- <- <-]; cbn;
    intros Hcall; repeat (destruct Hcall as [Hcall | Hcall]);
    try discriminate; try contradiction;
    injection Hcall as <- <- <- <-; eauto 12.
Qed.

(** *** Lines that cannot be parsed *)

Lemma split_not_empty sep s : PyStr.split sep s <> [].
Proof.
  destruct s as [|c rest]; cbn; [discriminate|].
  destruct (c =? sep)%N; [discriminate|].
  now destruct (PyStr.split sep rest).
Qed.

Lemma split_second sep s :
  nth_error (PyStr.split sep s) 1 = None <-> ~ In sep s.
Proof.
  induction s as [|c rest IH]; cbn.
  - tauto.
  - destruct (c =? sep)%N eqn:E.
    + apply N.eqb_eq in E. subst c.
      pose proof (split_not_empty sep rest) as Hne.
      destruct (PyStr.split sep rest); [contradiction|].
      cbn. split; [discriminate | intros Hn; exfalso; auto].
    + apply N.eqb_neq in E.
      pose proof (split_not_empty sep rest) as Hne.
      destruct (PyStr.split sep rest) as [|w ws]; [contradiction|].
      cbn in *. rewrite IH. tauto.
Qed.

(** The lines on which the parsing loop raises: an item line, not read as
    an id line, without a colon. *)
Lemma parse_line_raises_iff data line :
  parse_line data line = None <->
  PyStr.contains (lit "id") (lower (PyStr.strip line)) = false
  /\ PyStr.contains predmet (lower (PyStr.strip line)) = true
  /\ ~ In 58%N (PyStr.strip line).
Proof.
  unfold parse_line.
  destruct (PyStr.contains (lit "id") _); [intuition discriminate|].
  destruct (PyStr.contains predmet _); [|intuition discriminate].
  rewrite <- split_second.
  destruct (nth_error _ 1); intuition discriminate.
Qed.

Lemma parse_lines_raises_iff lines : forall data,
  parse_lines data lines = None <->
  Exists (fun line =>
            PyStr.contains (lit "id") (lower (PyStr.strip line)) = false
            /\ PyStr.contains predmet (lower (PyStr.strip line)) = true
            /\ ~ In 58%N (PyStr.strip line)) lines.
Proof.
  induction lines as [|line rest IH]; intros data; cbn.
  - split; [discriminate | intros Hex; inversion Hex].
  - rewrite Exists_cons.
    destruct (parse_line data line) as [data'|] eqn:Hline.
    + rewrite IH. split; [auto|]. intros [Hbad | Hrest]; [|exact Hrest].
      apply (parse_line_raises_iff data) in Hbad. congruence.
    + split; [intros _|reflexivity]. left.
      now apply (parse_line_raises_iff data).
Qed.

(** The parsing loop of [process_qr_data] raises (the [IndexError] of
    [line.split(':')[1]]) exactly when one of the comma-separated lines,
    stripped, contains [предмет] in lower case but neither [id] nor a
    colon. *)
Theorem parse_qr_raises_iff qr :
  parse_qr qr = None <->
  Exists (fun line =>
            PyStr.contains (lit "id") (lower (PyStr.strip line)) = false
            /\ PyStr.contains predmet (lower (PyStr.strip line)) = true
            /\ ~ In 58%N (PyStr.strip line)) (PyStr.split 44 qr).
Proof. apply parse_lines_raises_iff. Qed.

(** A text on which the parsing loop raises, when it is not yet scanned and
    the current marker has a location, is rejected without any call to the
    store: no lookup, no item and no scan-history record, only the queued
    message. *)
Theorem unparsable_text_leaves_no_record x db qr :
  qr ∉ scanned_qr_codes x ->
  current_location x <> None ->
  parse_qr qr = None ->
  process_qr_data x db qr = (false, x, notify x msg_process_error).
Proof.
  intros Hnew Hloc Hbad.
  unfold process_qr_data. rewrite bool_decide_eq_false_2 by exact Hnew.
  destruct (current_location x) as [[shelf position]|]; [|contradiction].
  now rewrite Hbad.
Qed.

End WithUnicode.

End QrMore.

(** ** The loop, frame by frame *)

Module FlightMore.
Import Qr Flight Scenario.
Import FlightFacts QrMore.

Section WithUnicode.
Context `{PyUnicode}.
Variable s : SpeedSettings.
Hypothesis s_ok : settings_ok s.

Lemma commands_app a b : commands (a ++ b) = commands a ++ commands b.
Proof. unfold commands. apply omap_app. Qed.

Lemma notify_no_commands x m : commands (notify x m) = [].
Proof. unfold notify. now destruct (telegram_initialized x). Qed.

Lemma process_qr_data_no_commands x db qr_data ok x' calls :
  process_qr_data x db qr_data = (ok, x', calls) -> commands calls = [].
Proof.
  unfold process_qr_data.
  unfold commands, notify.
  repeat break_match; intros [= <- <- <-]; reflexivity.
Qed.

Lemma zero_within_limits : within_limits s zero_velocity.
Proof.
  destruct s_ok. unfold within_limits. cbn.
  repeat split; rewrite Qabs_pos; lra.
Qed.

Lemma retreat_within_limits : within_limits s (retreat_velocity s).
Proof.
  destruct s_ok. unfold within_limits. cbn.
  repeat split; rewrite Qabs_pos; lra.
Qed.

Ltac one_command tac := constructor; [tac | constructor].

Lemma track_marker_within_limits st f m :
  Forall (within_limits s) (commands (emitted (track_marker s st f m))).
Proof.
  unfold track_marker, commands.
  destruct (m_pose m) as [d| |]; cbn; try constructor.
  destruct (Qle_bool (Qabs _) _).
  - destruct (_ && _); cbn.
    + one_command ltac:(apply zero_within_limits).
    + destruct (Qle_bool _ _); cbn; [|constructor].
      destruct (Control.centering_command _ _ _ _ _) as [v|] eqn:Hc; cbn;
        [|constructor].
      apply (ControlFacts.centering_command_bounds s _ _ _ _ v s_ok) in Hc.
      one_command ltac:(unfold within_limits; tauto).
  - destruct (Qle_bool _ _); cbn; [|constructor].
    destruct (Control.approach_command _ _ _ _ _ _) as [v|] eqn:Ha; cbn;
      [|constructor].
    revert Ha. unfold Control.approach_command.
    destruct (Control.calculate_control_speed _ _ _ _ _ _) as [v0|] eqn:Hc;
      [|discriminate].
    apply (ControlFacts.calculate_control_speed_bounds s _ _ _ _ _ v0 s_ok)
      in Hc.
    intros [= <-]. one_command ltac:(unfold within_limits; cbn; tauto).
Qed.

Lemma follow_step_within_limits st f :
  unit_direction st ->
  Forall (within_limits s) (commands (emitted (follow_step s st f)))
  /\ unit_direction (after (follow_step s st f)).
Proof.
  intros Hdir. unfold follow_step.
  destruct (detected f) as [ms|], (retreat_mode (locals st)) eqn:Hr.
  2: { destruct (valid_markers s (self st) ms) eqn:Hv;
         [split; [constructor | exact Hdir]|].
       destruct (select_marker st (now f) (m :: l)) as [st1|st1 m1|st1] eqn:Hs.
       1, 3: split; [constructor|];
         revert Hs; unfold select_marker; repeat break_match;
         intros [= <-]; exact Hdir.
       split; [apply track_marker_within_limits|].
       assert (Hd1 : unit_direction st1).
       { revert Hs. unfold select_marker. repeat break_match;
           intros [= <- <-]; exact Hdir. }
       unfold track_marker. repeat break_match; exact Hd1. }
  1, 2: unfold retreat_step, commands, unit_direction;
    repeat break_match; cbn; split;
    try constructor; try apply retreat_within_limits;
    try apply zero_within_limits; try constructor;
    try exact Hdir; try (rewrite Qabs_pos; lra).
  unfold lost_step, yaw_search_step, commands, unit_direction in *.
  destruct s_ok.
  assert (Hyaw : forall d, Qabs d <= 1 ->
            within_limits s {| v_x := 0; v_y := 0; v_z := 0;
                               yaw_rate := d * yaw_speed s |}).
  { intros d Hd. unfold within_limits. cbn.
    apply Qabs_Qle_condition in Hd.
    repeat split; apply Qabs_Qle_condition; split; nra. }
  assert (Hflip : forall d, Qabs d <= 1 -> Qabs (d * -1) <= 1).
  { intros d Hd. apply Qabs_Qle_condition in Hd.
    apply Qabs_Qle_condition. split; lra. }
  repeat break_match; cbn; split;
    repeat (constructor; try apply retreat_within_limits; try apply Hyaw);
    auto.
Qed.

Lemma scan_step_within_limits st f :
  unit_direction st ->
  Forall (within_limits s) (commands (emitted (scan_step s st f)))
  /\ unit_direction (after (scan_step s st f)).
Proof.
  intros Hdir. unfold unit_direction.
  rewrite scan_step_keeps_yaw_search. split; [|exact Hdir].
  unfold scan_step.
  assert (Hsweep : Forall (within_limits s)
                     (commands (emitted (sweep_step s st f)))).
  { unfold sweep_step, commands. destruct s_ok.
    repeat break_match; cbn; try constructor; try constructor.
    all: unfold within_limits; cbn; repeat split;
      apply Qabs_Qle_condition; split; lra. }
  destruct (qr_text f) as [[|c rest]|]; try exact Hsweep.
  destruct (process_qr_data _ _ _) as [[ok x'] calls] eqn:Hp.
  apply process_qr_data_no_commands in Hp.
  destruct ok; unfold scan_succeeded, scan_failed; cbn;
    unfold commands in *;
    repeat break_match; cbn; rewrite ?omap_app, ?Hp; cbn;
    repeat (constructor; try apply retreat_within_limits).
Qed.

Lemma fly_step_within_limits st f :
  unit_direction st ->
  Forall (within_limits s) (commands (emitted (fly_step s st f)))
  /\ unit_direction (after (fly_step s st f)).
Proof.
  unfold fly_step. destruct (target_reached (locals st));
    auto using scan_step_within_limits, follow_step_within_limits.
Qed.

(** Every velocity command that the loop sends during a flight keeps the
    lateral speed within [centering_speed], the yaw rate within [yaw_speed]
    and the vertical speed within [vertical_speed], in every phase. *)
Theorem fly_loop_commands_within_limits inputs : forall st st' evs ex,
  unit_direction st ->
  fly_loop s st inputs = (st', evs, ex) ->
  Forall (within_limits s) (commands evs) /\ unit_direction st'.
Proof.
  induction inputs as [|i rest IH]; intros st st' evs ex Hdir; cbn.
  - intros [= <- <- <-]. split; [constructor | exact Hdir].
  - destruct i as [| |f].
    + now apply IH.
    + intros [= <- <- <-]. split; [constructor | exact Hdir].
    + destruct (fly_step_within_limits st f Hdir) as [Hc Hd].
      destruct (flow (fly_step s st f)).
      * destruct (fly_loop s _ rest) as [[st1 evs1] ex1] eqn:Hl.
        apply IH in Hl as [Hc1 Hd1]; [|exact Hd]. intros [= <- <- <-].
        rewrite commands_app. split; [now apply Forall_app | exact Hd1].
      * destruct (exit_requested f); [intros [= <- <- <-]; auto|].
        destruct (fly_loop s _ rest) as [[st1 evs1] ex1] eqn:Hl.
        apply IH in Hl as [Hc1 Hd1]; [|exact Hd]. intros [= <- <- <-].
        rewrite commands_app. split; [now apply Forall_app | exact Hd1].
      * intros [= <- <- <-]. auto.
Qed.

Lemma scan_step_same_lock st f :
  locked_marker_id (self (after (scan_step s st f)))
  = locked_marker_id (self st).
Proof.
  unfold scan_step.
  destruct (qr_text f) as [[|c rest]|].
  1, 3: unfold sweep_step; repeat break_match; reflexivity.
  destruct (process_qr_data _ _ _) as [[ok x'] calls] eqn:Hp.
  apply process_qr_data_self in Hp as [[-> | ->] _];
    destruct ok; unfold scan_succeeded, scan_failed; cbn;
    repeat break_match; reflexivity.
Qed.

(** *** Which marker gets the lock *)

Lemma select_marker_selected st t valid st' m :
  select_marker st t valid = selected st' m ->
  In m valid
  /\ locked_marker_id (self st') = Some (m_id m)
  /\ self_current_aruco_id (self st') = Some (m_id m)
  /\ scanned_markers (self st') = scanned_markers (self st).
Proof.
  unfold select_marker.
  destruct (locked_marker_id (self st)) as [locked|] eqn:Hlock.
  - destruct (index_of_id locked valid 0) as [j|] eqn:Hidx.
    + destruct (index_of_id_nth _ _ _ _ Hidx) as (m0 & Hn & Hid & _).
      rewrite Nat.sub_0_r in Hn. rewrite Hn. intros [= <- <-].
      cbn. rewrite Hlock, Hid. eauto using nth_error_In.
    + destruct (max_lost_frames <=? _)%Z; [|discriminate].
      destruct (nth_error valid _) as [m0|] eqn:Hn; [|discriminate].
      cbn. rewrite Hn. intros [= <- <-]. cbn. eauto using nth_error_In.
  - destruct (nth_error valid _) as [m0|] eqn:Hn; [|discriminate].
    cbn. rewrite Hn. intros [= <- <-]. cbn. eauto using nth_error_In.
Qed.

Lemma select_marker_other st t valid st' :
  select_marker st t valid = skip_frame st'
  \/ select_marker st t valid = index_error st' ->
  locked_marker_id (self st') = locked_marker_id (self st)
  \/ locked_marker_id (self st') = None.
Proof.
  unfold select_marker.
  repeat break_match; intros [[= <-] | [= <-]]; cbn; auto; congruence.
Qed.

Lemma track_marker_keeps_self st f m :
  self (after (track_marker s st f m)) = self st.
Proof. unfold track_marker. repeat break_match; reflexivity. Qed.

Lemma fly_step_lock_origin st f id :
  locked_marker_id (self (after (fly_step s st f))) = Some id ->
  locked_marker_id (self st) = Some id
  \/ exists ms m,
       detected f = Some ms
       /\ In m ms
       /\ m_id m = id
       /\ aruco_confidence_threshold s <= m_confidence m
       /\ id ∉ scanned_markers (self st).
Proof.
  unfold fly_step. destruct (target_reached (locals st)).
  - pose proof (scan_step_same_lock st f) as Hl. rewrite Hl. auto.
  - unfold follow_step.
    destruct (detected f) as [ms|] eqn:Hdet,
      (retreat_mode (locals st)) eqn:Hr.
    2: { destruct (valid_markers s (self st) ms) as [|m0 l] eqn:Hv;
           [cbn; auto|].
         destruct (select_marker st (now f) (m0 :: l))
           as [st1|st1 m1|st1] eqn:Hs.
         - cbn. intros Hid.
           destruct (select_marker_other st (now f) (m0 :: l) st1
                       (or_introl Hs)); left; congruence.
         - rewrite track_marker_keeps_self.
           destruct (select_marker_selected _ _ _ _ _ Hs)
             as (Hin & Hlock & _ & _).
           rewrite Hlock. intros [= <-]. right. exists ms, m1.
           rewrite <- Hv in Hin. unfold valid_markers in Hin.
           apply List.filter_In in Hin as [Hin Hvalid].
           unfold is_valid in Hvalid.
           apply andb_true_iff in Hvalid as [Hconf Hnew].
           apply Qle_bool_iff in Hconf.
           apply negb_true_iff, bool_decide_eq_false in Hnew. auto 10.
         - cbn. intros Hid.
           destruct (select_marker_other st (now f) (m0 :: l) st1
                       (or_intror Hs)); left; congruence. }
    1, 2: unfold retreat_step; repeat break_match; cbn; auto.
    unfold lost_step, yaw_search_step. repeat break_match; cbn; auto.
Qed.

(** The scan of lines 628-648 keeps the first strictly smaller distance:
    either no candidate improves on the accumulator, or the result is the
    index of a candidate whose distance is below the accumulator and at most
    every other solved distance. *)
Lemma nearest_spec ms : forall i md idx,
  (nearest ms i md idx = idx
   /\ forall m d, In m ms -> m_pose m = pose_ok d ->
        exists d0, md = Some d0 /\ d0 <= d)
  \/ exists k m d,
       nearest ms i md idx = (i + k)%nat
       /\ nth_error ms k = Some m
       /\ m_pose m = pose_ok d
       /\ (forall d0, md = Some d0 -> d < d0)
       /\ forall m' d', In m' ms -> m_pose m' = pose_ok d' -> d <= d'.
Proof.
  induction ms as [|m ms IH]; intros i md idx.
  - left. split; [reflexivity|]. intros m d [].
  - cbn [nearest].
    destruct (m_pose m) as [d| |] eqn:Hpose.
    + destruct (match md with Some d0 => Qltb d d0 | None => true end) eqn:Hcloser.
      * right.
        assert (Hlt : forall d0, md = Some d0 -> d < d0).
        { intros d0 ->. now apply Qltb_lt. }
        destruct (IH (S i) (Some d) i)
          as [[-> Hall] | (k & m1 & d1 & -> & Hn & Hp1 & Hlt1 & Hmin)].
        -- exists 0%nat, m, d. rewrite Nat.add_0_r.
           split; [reflexivity|]. split; [reflexivity|].
           split; [exact Hpose|]. split; [exact Hlt|].
           intros m' d' [<- | Hin] Hp'.
           ++ rewrite Hpose in Hp'. injection Hp' as <-. lra.
           ++ destruct (Hall m' d' Hin Hp') as (? & [= <-] & ?). lra.
        -- exists (S k), m1, d1. rewrite Nat.add_succ_r.
           specialize (Hlt1 d eq_refl).
           split; [reflexivity|]. split; [exact Hn|].
           split; [exact Hp1|]. split.
           ++ intros d0 Hd0. specialize (Hlt d0 Hd0). lra.
           ++ intros m' d' [<- | Hin] Hp'; [|eauto].
              rewrite Hpose in Hp'. injection Hp' as <-. lra.
      * destruct md as [d0|]; [|discriminate]. apply Qltb_ge in Hcloser.
        destruct (IH (S i) (Some d0) idx)
          as [[-> Hall] | (k & m1 & d1 & -> & Hn & Hp1 & Hlt1 & Hmin)].
        -- left. split; [reflexivity|].
           intros m' d' [<- | Hin] Hp'; [|eauto].
           rewrite Hpose in Hp'. injection Hp' as <-. eauto.
        -- right. exists (S k), m1, d1. rewrite Nat.add_succ_r.
           specialize (Hlt1 d0 eq_refl).
           split; [reflexivity|]. split; [exact Hn|].
           split; [exact Hp1|]. split; [now intros ? [= <-]|].
           intros m' d' [<- | Hin] Hp'; [|eauto].
           rewrite Hpose in Hp'. injection Hp' as <-. lra.
    + destruct (IH (S i) md idx)
        as [[-> Hall] | (k & m1 & d1 & -> & Hn & Hp1 & Hlt1 & Hmin)].
      * left. split; [reflexivity|].
        intros m' d' [<- | Hin] Hp'; [congruence | eauto].
      * right. exists (S k), m1, d1. rewrite Nat.add_succ_r.
        split; [reflexivity|]. split; [exact Hn|].
        split; [exact Hp1|]. split; [exact Hlt1|].
        intros m' d' [<- | Hin] Hp'; [congruence | eauto].
    + destruct (IH (S i) md idx)
        as [[-> Hall] | (k & m1 & d1 & -> & Hn & Hp1 & Hlt1 & Hmin)].
      * left. split; [reflexivity|].
        intros m' d' [<- | Hin] Hp'; [congruence | eauto].
      * right. exists (S k), m1, d1. rewrite Nat.add_succ_r.
        split; [reflexivity|]. split; [exact Hn|].
        split; [exact Hp1|]. split; [exact Hlt1|].
        intros m' d' [<- | Hin] Hp'; [congruence | eauto].
Qed.

(** When the locked marker, if any, is not among the candidates, the marker
    selected is a nearest one: whenever the pose of some candidate is solved,
    the pose of the selected one is solved too, with a distance that no
    solved candidate undercuts. *)
Theorem new_lock_is_nearest st t valid st' m :
  (forall locked, locked_marker_id (self st) = Some locked ->
                  index_of_id locked valid 0 = None) ->
  select_marker st t valid = selected st' m ->
  forall m' d', In m' valid -> m_pose m' = pose_ok d' ->
    exists d, m_pose m = pose_ok d /\ d <= d'.
Proof.
  intros Hunseen Hsel m' d' Hin' Hpose'.
  assert (Hidx : nth_error valid (nearest valid 0 None 0) = Some m).
  { revert Hsel. unfold select_marker.
    destruct (locked_marker_id (self st)) as [locked|].
    - rewrite (Hunseen locked eq_refl).
      destruct (max_lost_frames <=? _)%Z; [|discriminate].
      destruct (nth_error valid _) as [m0|] eqn:Hn; [|discriminate].
      cbn. rewrite Hn. now intros [= <- <-].
    - destruct (nth_error valid _) as [m0|] eqn:Hn; [|discriminate].
      cbn. rewrite Hn. now intros [= <- <-]. }
  destruct (nearest_spec valid 0 None 0)
    as [[_ Hall] | (k & m1 & d1 & Hk & Hn & Hp1 & _ & Hmin)].
  - destruct (Hall m' d' Hin' Hpose') as (? & [=] & _).
  - rewrite Hk in Hidx. cbn in Hidx. rewrite Hn in Hidx.
    injection Hidx as <-. eauto.
Qed.

(** *** The two copies of the current marker id *)

Lemma select_marker_ids_in_sync st t valid :
  match select_marker st t valid with
  | skip_frame st' | index_error st' => ids_in_sync st -> ids_in_sync st'
  | selected st' m => ids_in_sync st'
  end.
Proof.
  unfold select_marker, ids_in_sync.
  repeat break_match; cbn; auto; congruence.
Qed.

Lemma fly_step_ids_in_sync st f :
  ids_in_sync st -> ids_in_sync (after (fly_step s st f)).
Proof.
  unfold fly_step, ids_in_sync. intros Hs.
  destruct (target_reached (locals st)).
  - unfold scan_step.
    destruct (qr_text f) as [[|c rest]|].
    1, 3: unfold sweep_step; repeat break_match; cbn in *; congruence.
    destruct (process_qr_data _ _ _) as [[ok x'] calls] eqn:Hp.
    apply process_qr_data_self in Hp as [[-> | ->] _];
      destruct ok; unfold scan_succeeded, scan_failed; cbn;
      repeat break_match; cbn in *; congruence.
  - unfold follow_step.
    destruct (detected f) as [ms|], (retreat_mode (locals st)).
    2: { destruct (valid_markers s (self st) ms) as [|m0 l]; [cbn; auto|].
         pose proof (select_marker_ids_in_sync st (now f) (m0 :: l)) as Hsel.
         unfold ids_in_sync in Hsel.
         destruct (select_marker st (now f) (m0 :: l)); cbn; auto.
         unfold track_marker. repeat break_match; cbn in *; congruence. }
    1, 2: unfold retreat_step; repeat break_match; cbn in *; congruence.
    unfold lost_step, yaw_search_step.
    repeat break_match; cbn in *; congruence.
Qed.

(** The attribute [self.current_aruco_id], read by [process_qr_data], and
    the local [current_aruco_id], used to mark a marker as scanned, never
    diverge during the loop. *)
Theorem fly_loop_ids_in_sync inputs : forall st st' evs ex,
  ids_in_sync st ->
  fly_loop s st inputs = (st', evs, ex) ->
  ids_in_sync st'.
Proof.
  induction inputs as [|i rest IH]; intros st st' evs ex Hs; cbn.
  - now intros [= <- <- <-].
  - destruct i as [| |f].
    + now apply IH.
    + now intros [= <- <- <-].
    + pose proof (fly_step_ids_in_sync st f Hs) as Hs1.
      destruct (flow (fly_step s st f)).
      * destruct (fly_loop s _ rest) as [[st1 evs1] ex1] eqn:Hl.
        intros [= <- <- <-]. eauto.
      * destruct (exit_requested f); [now intros [= <- <- <-]|].
        destruct (fly_loop s _ rest) as [[st1 evs1] ex1] eqn:Hl.
        intros [= <- <- <-]. eauto.
      * now intros [= <- <- <-].
Qed.


(** *** Entering the scanning phase *)

Lemma select_marker_locals st t valid :
  match select_marker st t valid with
  | skip_frame st' | index_error st' =>
    target_reached (locals st') = target_reached (locals st)
  | selected st' m =>
    target_reached (locals st') = target_reached (locals st)
    /\ current_aruco_id (locals st') = Some (m_id m)
  end.
Proof.
  unfold select_marker. repeat break_match; cbn; auto; congruence.
Qed.

Lemma track_marker_reaches st f m :
  target_reached (locals st) = false ->
  target_reached (locals (after (track_marker s st f m))) = true ->
  current_aruco_id (locals (after (track_marker s st f m)))
  = current_aruco_id (locals st)
  /\ emitted (track_marker s st f m)
     = [time_sleep 5; set_manual_speed_body_fixed zero_velocity]
  /\ exists d,
       m_pose m = pose_ok d
       /\ Qabs (d - target_distance s) <= distance_threshold s
       /\ Qabs (inject_Z (m_x_center m) - inject_Z (frame_width f) / 2)
          < precise_center_threshold s
       /\ Qabs (inject_Z (m_y_center m) - inject_Z (frame_height f) / 2)
          < precise_center_threshold s.
Proof.
  intros Htr. unfold track_marker.
  destruct (m_pose m) as [d| |]; cbn; try congruence.
  destruct (Qle_bool (Qabs (d - target_distance s)) (distance_threshold s))
    eqn:Hd.
  - destruct (Qltb _ _ && Qltb _ _) eqn:Hc.
    + apply andb_true_iff in Hc as [Hx Hy].
      apply Qltb_lt in Hx, Hy. apply Qle_bool_iff in Hd.
      cbn. intros _. eauto 10.
    + repeat break_match; cbn; congruence.
  - repeat break_match; cbn; congruence.
Qed.

(** The scanning phase is entered only on a frame in which a valid marker
    is seen at the stand-off distance, within [distance_threshold], with its
    centre less than [precise_center_threshold] pixels from the centre of
    the image on both axes; the iteration then waits five seconds, sends the
    zero command, and the marker's id is the current one. *)
Theorem scan_phase_entered_when_stabilised st f :
  target_reached (locals st) = false ->
  target_reached (locals (after (fly_step s st f))) = true ->
  exists ms m d,
    detected f = Some ms
    /\ In m ms
    /\ is_valid s (self st) m = true
    /\ m_pose m = pose_ok d
    /\ Qabs (d - target_distance s) <= distance_threshold s
    /\ Qabs (inject_Z (m_x_center m) - inject_Z (frame_width f) / 2)
       < precise_center_threshold s
    /\ Qabs (inject_Z (m_y_center m) - inject_Z (frame_height f) / 2)
       < precise_center_threshold s
    /\ current_aruco_id (locals (after (fly_step s st f))) = Some (m_id m)
    /\ emitted (fly_step s st f)
       = [time_sleep 5; set_manual_speed_body_fixed zero_velocity].
Proof.
  intros Htr. unfold fly_step. rewrite Htr. unfold follow_step.
  destruct (detected f) as [ms|] eqn:Hdet,
    (retreat_mode (locals st)) eqn:Hr.
  2: { destruct (valid_markers s (self st) ms) as [|m0 l] eqn:Hv;
         [cbn; congruence|].
       pose proof (select_marker_locals st (now f) (m0 :: l)) as Hloc.
       destruct (select_marker st (now f) (m0 :: l))
         as [st1|st1 m1|st1] eqn:Hs; cbn; try congruence.
       destruct Hloc as [Htr1 Hid]. rewrite Htr in Htr1.
       intros Hreached.
       destruct (track_marker_reaches st1 f m1 Htr1 Hreached)
         as (Hcur & Hev & d & Hp & Hd & Hx & Hy).
       destruct (select_marker_selected _ _ _ _ _ Hs) as (Hin & _).
       rewrite <- Hv in Hin. unfold valid_markers in Hin.
       apply List.filter_In in Hin as [Hin Hvalid].
       exists ms, m1, d. rewrite Hcur, Hid. auto 12. }
  1, 2: unfold retreat_step; repeat break_match; cbn; congruence.
  unfold lost_step, yaw_search_step. repeat break_match; cbn; congruence.
Qed.

(** *** Scanned markers *)

Lemma fly_step_scanned_markers_grow st f :
  scanned_markers (self st)
  ⊆ scanned_markers (self (after (fly_step s st f))).
Proof.
  clear s_ok. unfold fly_step. destruct (target_reached (locals st)).
  - unfold scan_step.
    destruct (qr_text f) as [[|c rest]|].
    1, 3: unfold sweep_step; repeat break_match; cbn; set_solver.
    destruct (process_qr_data _ _ _) as [[ok x'] calls] eqn:Hp.
    apply process_qr_data_self in Hp as [[-> | ->] _];
      destruct ok; unfold scan_succeeded, scan_failed; cbn;
      repeat break_match; cbn; set_solver.
  - unfold follow_step.
    destruct (detected f) as [ms|], (retreat_mode (locals st)).
    2: { destruct (valid_markers s (self st) ms) as [|m0 l]; [cbn; set_solver|].
         destruct (select_marker st (now f) (m0 :: l))
           as [st1|st1 m1|st1] eqn:Hs; cbn.
         2: { rewrite track_marker_keeps_self.
              destruct (select_marker_selected _ _ _ _ _ Hs)
                as (_ & _ & _ & ->). set_solver. }
         all: revert Hs; unfold select_marker;
           repeat break_match; intros [= <-]; cbn; set_solver. }
    1, 2: unfold retreat_step; repeat break_match; cbn; set_solver.
    unfold lost_step, yaw_search_step. repeat break_match; cbn; set_solver.
Qed.

(** A lock is only ever taken on a marker that the detector reports with a
    confidence of at least [aruco_confidence_threshold] and that was not
    scanned before: after any number of frames the locked id is the one
    locked at the start, or the id of such a marker in one of the frames. *)
Theorem lock_only_on_valid_marker inputs : forall st st' evs ex id,
  fly_loop s st inputs = (st', evs, ex) ->
  locked_marker_id (self st') = Some id ->
  locked_marker_id (self st) = Some id
  \/ exists f ms m,
       In (got_frame f) inputs
       /\ detected f = Some ms
       /\ In m ms
       /\ m_id m = id
       /\ aruco_confidence_threshold s <= m_confidence m
       /\ id ∉ scanned_markers (self st).
Proof.
  clear s_ok.
  induction inputs as [|i rest IH]; intros st st' evs ex id; cbn.
  - intros [= <- <- <-]. auto.
  - destruct i as [| |f].
    + intros Hloop Hlock.
      destruct (IH _ _ _ _ _ Hloop Hlock)
        as [? | (f & ms & m & Hin & Hrest)]; [now left|].
      right. exists f, ms, m. split; [now right | exact Hrest].
    + intros [= <- <- <-]. auto.
    + assert (Hstep : forall st1,
                 st1 = after (fly_step s st f) ->
                 locked_marker_id (self st1) = Some id ->
                 locked_marker_id (self st) = Some id
                 \/ exists f0 ms m,
                      In (got_frame f0) (got_frame f :: rest)
                      /\ detected f0 = Some ms
                      /\ In m ms
                      /\ m_id m = id
                      /\ aruco_confidence_threshold s <= m_confidence m
                      /\ id ∉ scanned_markers (self st)).
      { intros st1 -> Hlock.
        destruct (fly_step_lock_origin st f id Hlock)
          as [? | (ms & m & Hrest)]; [now left|].
        right. exists f, ms, m. split; [now left | exact Hrest]. }
      assert (Hlater : forall st1 evs1 ex1,
                 fly_loop s (after (fly_step s st f)) rest = (st1, evs1, ex1) ->
                 locked_marker_id (self st1) = Some id ->
                 locked_marker_id (self st) = Some id
                 \/ exists f0 ms m,
                      In (got_frame f0) (got_frame f :: rest)
                      /\ detected f0 = Some ms
                      /\ In m ms
                      /\ m_id m = id
                      /\ aruco_confidence_threshold s <= m_confidence m
                      /\ id ∉ scanned_markers (self st)).
      { intros st1 evs1 ex1 Hloop Hlock.
        destruct (IH _ _ _ _ _ Hloop Hlock)
          as [Hl | (f0 & ms & m & Hin & Hdet & Hm & Hid & Hconf & Hnew)];
          [now apply (Hstep _ eq_refl)|].
        right. exists f0, ms, m. split; [now right|].
        repeat (split; [assumption|]).
        intros Hold. apply Hnew.
        now apply fly_step_scanned_markers_grow. }
      destruct (flow (fly_step s st f)).
      * destruct (fly_loop s _ rest) as [[st1 evs1] ex1] eqn:Hl.
        intros [= <- <- <-]. eauto.
      * destruct (exit_requested f); [intros [= <- <- <-]; eauto|].
        destruct (fly_loop s _ rest) as [[st1 evs1] ex1] eqn:Hl.
        intros [= <- <- <-]. eauto.
      * intros [= <- <- <-]. eauto.
Qed.

(** Once a marker is among the scanned ones and the lock on it is gone, no
    later frame of the flight locks on it again. *)
Theorem scanned_marker_never_locked_again inputs : forall st st' evs ex id,
  id ∈ scanned_markers (self st) ->
  locked_marker_id (self st) <> Some id ->
  fly_loop s st inputs = (st', evs, ex) ->
  id ∈ scanned_markers (self st') /\ locked_marker_id (self st') <> Some id.
Proof.
  induction inputs as [|i rest IH]; intros st st' evs ex id Hin Hlock; cbn.
  - now intros [= <- <- <-].
  - destruct i as [| |f].
    + now apply IH.
    + now intros [= <- <- <-].
    + assert (Hstep : id ∈ scanned_markers (self (after (fly_step s st f)))
                      /\ locked_marker_id (self (after (fly_step s st f)))
                         <> Some id).
      { split; [now apply fly_step_scanned_markers_grow|].
        intros Hl. apply fly_step_lock_origin in Hl
          as [Hl | (ms & m & _ & _ & _ & _ & Hnew)]; contradiction. }
      destruct Hstep as [Hin1 Hlock1].
      destruct (flow (fly_step s st f)).
      * destruct (fly_loop s _ rest) as [[st1 evs1] ex1] eqn:Hl.
        intros [= <- <- <-]. eauto.
      * destruct (exit_requested f); [now intros [= <- <- <-]|].
        destruct (fly_loop s _ rest) as [[st1 evs1] ex1] eqn:Hl.
        intros [= <- <- <-]. eauto.
      * now intros [= <- <- <-].
Qed.

(** *** The vertical sweep *)

Lemma fly_step_initial_height st f :
  initial_height (self (after (fly_step s st f))) = initial_height (self st).
Proof.
  unfold fly_step. destruct (target_reached (locals st)).
  - unfold scan_step.
    destruct (qr_text f) as [[|c rest]|].
    1, 3: unfold sweep_step; repeat break_match; cbn in *; congruence.
    destruct (process_qr_data _ _ _) as [[ok x'] calls] eqn:Hp.
    apply process_qr_data_self in Hp as [[-> | ->] _];
      destruct ok; unfold scan_succeeded, scan_failed; cbn;
      repeat break_match; cbn in *; congruence.
  - unfold follow_step.
    destruct (detected f) as [ms|], (retreat_mode (locals st)).
    2: { destruct (valid_markers s (self st) ms) as [|m0 l]; [reflexivity|].
         destruct (select_marker st (now f) (m0 :: l))
           as [st1|st1 m1|st1] eqn:Hs; cbn.
         2: rewrite track_marker_keeps_self.
         all: revert Hs; unfold select_marker;
           repeat break_match; intros [= <-]; cbn in *; congruence. }
    1, 2: unfold retreat_step; repeat break_match; cbn in *; congruence.
    unfold lost_step, yaw_search_step. repeat break_match; cbn in *; congruence.
Qed.

Lemma fly_loop_initial_height inputs : forall st st' evs ex,
  fly_loop s st inputs = (st', evs, ex) ->
  initial_height (self st') = initial_height (self st).
Proof.
  induction inputs as [|i rest IH]; intros st st' evs ex; cbn.
  - now intros [= <- <- <-].
  - destruct i as [| |f].
    + now apply IH.
    + now intros [= <- <- <-].
    + pose proof (fly_step_initial_height st f) as Hstep.
      destruct (flow (fly_step s st f)).
      * destruct (fly_loop s _ rest) as [[st1 evs1] ex1] eqn:Hl.
        intros [= <- <- <-]. apply IH in Hl. congruence.
      * destruct (exit_requested f); [now intros [= <- <- <-]|].
        destruct (fly_loop s _ rest) as [[st1 evs1] ex1] eqn:Hl.
        intros [= <- <- <-]. apply IH in Hl. congruence.
      * now intros [= <- <- <-].
Qed.

(** The loop never assigns [initial_height]: when it is unset at the top of
    the loop, as [__init__] leaves it, it is unset after any number of
    frames, and the first due sweep in the [down] phase raises, sending no
    command. *)
Theorem descending_sweep_raises inputs st st' evs ex f :
  initial_height (self st) = None ->
  fly_loop s st inputs = (st', evs, ex) ->
  target_reached (locals st') = true ->
  current_search_phase (self st') = phase_down ->
  qr_text f = None ->
  control_delay s <= now f - last_control_time (locals st') ->
  fly_step s st' f = {| after := st'; emitted := []; flow := flow_raise |}.
Proof.
  intros Hnone Hloop Htr Hphase Hqr Hdue.
  apply fly_loop_initial_height in Hloop. rewrite Hnone in Hloop.
  unfold fly_step, scan_step, sweep_step.
  rewrite Htr, Hqr, Hphase, Hloop.
  apply Qle_bool_iff in Hdue. now rewrite Hdue.
Qed.

(** *** Counting reads *)

(** A read that [process_qr_data] accepts is counted in [successful_scans]
    once by [process_qr_data] and once more by [fly]: a code met for the
    first time adds two, a code already scanned adds one. *)
Theorem successful_scans_counted_per_read st f qr :
  target_reached (locals st) = true ->
  qr_text f = Some qr ->
  qr <> [] ->
  let st' := after (fly_step s st f) in
  let n := sr_successful_scans (scan_results (self st)) in
  qr ∈ scanned_qr_codes (self st') ->
  sr_successful_scans (scan_results (self st'))
  = if bool_decide (qr ∈ scanned_qr_codes (self st))
    then (n + 1)%Z else (n + 2)%Z.
Proof.
  intros Htr Hqr Hne. cbv zeta. unfold fly_step, scan_step.
  rewrite Htr, Hqr. destruct qr as [|c rest]; [contradiction|].
  destruct (process_qr_data _ _ _) as [[ok x'] calls] eqn:Hp.
  apply process_qr_data_cases in Hp
    as [(-> & Hin & -> & _) | [(-> & Hin & ->) | (-> & Hin & ->)]].
  - rewrite bool_decide_eq_true_2 by exact Hin.
    unfold scan_succeeded; cbn; repeat break_match; reflexivity.
  - rewrite bool_decide_eq_false_2 by exact Hin.
    unfold scan_succeeded; cbn; repeat break_match; cbn; intros _; lia.
  - unfold scan_failed; cbn; repeat break_match; cbn; contradiction.
Qed.

Lemma fly_step_retry_count_grows st f :
  (retry_count (locals st)
   <= retry_count (locals (after (fly_step s st f))))%Z.
Proof.
  unfold fly_step. destruct (target_reached (locals st)).
  - unfold scan_step.
    destruct (qr_text f) as [[|c rest]|].
    1, 3: unfold sweep_step; repeat break_match; cbn; lia.
    destruct (process_qr_data _ _ _) as [[ok x'] calls] eqn:Hp.
    destruct ok; unfold scan_succeeded, scan_failed; cbn;
      repeat break_match; cbn; lia.
  - unfold follow_step.
    destruct (detected f) as [ms|], (retreat_mode (locals st)).
    2: { destruct (valid_markers s (self st) ms) as [|m0 l]; [cbn; lia|].
         destruct (select_marker st (now f) (m0 :: l))
           as [st1|st1 m1|st1] eqn:Hs; cbn.
         2: { assert (Hr : retry_count (locals st1) = retry_count (locals st)).
              { revert Hs. unfold select_marker.
                repeat break_match; intros [= <- <-]; reflexivity. }
              rewrite <- Hr. unfold track_marker.
              repeat break_match; cbn; lia. }
         all: revert Hs; unfold select_marker;
           repeat break_match; intros [= <-]; cbn; lia. }
    1, 2: unfold retreat_step; repeat break_match; cbn; lia.
    unfold lost_step, yaw_search_step. repeat break_match; cbn; lia.
Qed.

Lemma fly_loop_retry_count_grows inputs : forall st st' evs ex,
  fly_loop s st inputs = (st', evs, ex) ->
  (retry_count (locals st) <= retry_count (locals st'))%Z.
Proof.
  induction inputs as [|i rest IH]; intros st st' evs ex; cbn.
  - intros [= <- <- <-]. lia.
  - destruct i as [| |f].
    + now apply IH.
    + intros [= <- <- <-]. lia.
    + pose proof (fly_step_retry_count_grows st f) as Hstep.
      destruct (flow (fly_step s st f)).
      * destruct (fly_loop s _ rest) as [[st1 evs1] ex1] eqn:Hl.
        intros [= <- <- <-]. apply IH in Hl. lia.
      * destruct (exit_requested f); [now intros [= <- <- <-]|].
        destruct (fly_loop s _ rest) as [[st1 evs1] ex1] eqn:Hl.
        intros [= <- <- <-]. apply IH in Hl. lia.
      * now intros [= <- <- <-].
Qed.

(** [retry_count] is never reset: once four reads have failed, whatever
    frames follow, the next read that [process_qr_data] rejects starts the
    retreat at once, also in front of another marker. *)
Theorem retry_budget_is_per_flight inputs st st' evs ex f qr :
  (4 <= retry_count (locals st))%Z ->
  fly_loop s st inputs = (st', evs, ex) ->
  target_reached (locals st') = true ->
  retreat_mode (locals st') = false ->
  qr_text f = Some qr ->
  qr <> [] ->
  let r := fly_step s st' f in
  qr ∉ scanned_qr_codes (self (after r)) ->
  retreat_mode (locals (after r)) = true
  /\ retreat_start_time (locals (after r)) = Some (now f)
  /\ target_reached (locals (after r)) = false
  /\ exists calls,
       emitted r = calls ++ [set_manual_speed_body_fixed (retreat_velocity s)].
Proof.
  clear s_ok. intros Hretry Hloop Htr Hr Hqr Hne. cbv zeta.
  apply fly_loop_retry_count_grows in Hloop.
  unfold fly_step, scan_step.
  rewrite Htr, Hqr. destruct qr as [|c rest]; [contradiction|].
  destruct (process_qr_data _ _ _) as [[ok x'] calls] eqn:Hp.
  apply process_qr_data_cases in Hp
    as [(-> & Hin & -> & _) | [(-> & Hin & ->) | (-> & Hin & ->)]].
  - unfold scan_succeeded; cbn; repeat break_match; cbn; contradiction.
  - unfold scan_succeeded; cbn; repeat break_match; cbn;
      intros Hout; exfalso; apply Hout; set_solver.
  - unfold scan_failed; cbn. rewrite Hr. cbn.
    destruct (5 <=? retry_count (locals st') + 1)%Z eqn:Hfive; [|lia].
    cbn. eauto.
Qed.

(** *** What the loop calls *)

Lemma process_qr_data_loop_calls x db qr ok x' calls :
  process_qr_data x db qr = (ok, x', calls) ->
  forallb is_loop_call calls = true.
Proof.
  unfold process_qr_data, notify.
  repeat break_match; intros [= <- <- <-]; reflexivity.
Qed.

Lemma fly_step_loop_calls st f :
  forallb is_loop_call (emitted (fly_step s st f)) = true.
Proof.
  unfold fly_step. destruct (target_reached (locals st)).
  - unfold scan_step.
    destruct (qr_text f) as [[|c rest]|].
    1, 3: unfold sweep_step; repeat break_match; reflexivity.
    destruct (process_qr_data _ _ _) as [[ok x'] calls] eqn:Hp.
    apply process_qr_data_loop_calls in Hp.
    destruct ok; unfold scan_succeeded, scan_failed; cbn;
      repeat break_match; cbn; rewrite ?forallb_app, ?Hp; reflexivity.
  - unfold follow_step.
    destruct (detected f) as [ms|], (retreat_mode (locals st)).
    2: { destruct (valid_markers s (self st) ms) as [|m0 l]; [reflexivity|].
         destruct (select_marker st (now f) (m0 :: l)); cbn;
           try reflexivity.
         unfold track_marker. repeat break_match; reflexivity. }
    1, 2: unfold retreat_step; repeat break_match; reflexivity.
    unfold lost_step, yaw_search_step. repeat break_match; reflexivity.
Qed.

Lemma fly_loop_loop_calls inputs : forall st st' evs ex,
  fly_loop s st inputs = (st', evs, ex) ->
  forallb is_loop_call evs = true.
Proof.
  induction inputs as [|i rest IH]; intros st st' evs ex; cbn.
  - now intros [= <- <- <-].
  - destruct i as [| |f].
    + now apply IH.
    + now intros [= <- <- <-].
    + pose proof (fly_step_loop_calls st f) as Hstep.
      destruct (flow (fly_step s st f)).
      * destruct (fly_loop s _ rest) as [[st1 evs1] ex1] eqn:Hl.
        intros [= <- <- <-]. apply IH in Hl. now rewrite forallb_app, Hstep.
      * destruct (exit_requested f); [now intros [= <- <- <-]|].
        destruct (fly_loop s _ rest) as [[st1 evs1] ex1] eqn:Hl.
        intros [= <- <- <-]. apply IH in Hl. now rewrite forallb_app, Hstep.
      * now intros [= <- <- <-].
Qed.

(** Between take-off and shutdown the drone is only sent velocity commands:
    every call of the loop is a velocity command, the pause, a call to the
    store or a queued message; no iteration arms, takes off, lands, closes
    the connection or ends a session. *)
Theorem fly_loop_only_steers inputs st st' evs ex :
  fly_loop s st inputs = (st', evs, ex) ->
  Forall (fun e => is_loop_call e = true) evs
  /\ ~ In arm evs
  /\ ~ In takeoff evs
  /\ ~ In land evs
  /\ ~ In close_connection evs
  /\ forall session status results,
       ~ In (end_scan_session session status results) evs.
Proof.
  intros Hloop. apply fly_loop_loop_calls in Hloop.
  rewrite forallb_forall in Hloop.
  split; [apply List.Forall_forall; exact Hloop|].
  repeat split; try intros ? ? ?; intros Hin; apply Hloop in Hin;
    discriminate.
Qed.


End WithUnicode.

(** [fly_loop_commands_within_limits] on the flight [one_visit]. *)
Lemma fly_loop_commands_within_limits_witness :
  Forall (within_limits speed_settings)
    (commands (snd (fst (fly_loop speed_settings at_take_off one_visit))))
  /\ unit_direction (fst (fst (fly_loop speed_settings at_take_off one_visit))).
Proof.
  apply (fly_loop_commands_within_limits speed_settings speed_settings_ok
           one_visit at_take_off _ _ loop_signal).
  - unfold unit_direction. vm_compute. discriminate.
  - vm_compute. reflexivity.
Defined.

End FlightMore.

(** ** Shutdown in any world *)

Module SessionMore.
Import Flight Scenario Session.
Import FlightFacts SessionFacts FlightMore.

Ltac run_cmd :=
  unfold try_finally, try_except, put, when, mbind, cmd_bind, bind, get,
    call, emit, modify, ret, throw, mret, cmd_ret.

Ltac flags :=
  repeat match goal with
         | H : _ && _ = true |- _ => apply andb_true_iff in H as [? ?]
         | H : _ && _ = false |- _ => apply andb_false_iff in H as [? | ?]
         end;
  try match goal with
      | H : forall _, raises _ _ ?e = false, H' : raises _ _ ?e = true |- _ =>
        rewrite H in H'; discriminate
      end;
  try congruence.

Lemma safe_landing_spec w x tr :
  exists e x' evs,
    safe_landing w x tr = (raised e, x', tr ++ evs)
    /\ mini_connected x' = mini_connected x
    /\ (is_flying x = true -> mini_connected x = true -> In land evs)
    /\ (In land evs -> is_flying x = true /\ mini_connected x = true)
    /\ (is_flying x' = true -> is_flying x = true)
    /\ ((forall history, raises w history land = false) ->
        In land evs -> is_flying x' = false)
    /\ ((forall history, raises w history destroy_all_windows = false) ->
        e = SystemExit /\ last evs = Some (sys_exit 0)).
Proof.
  unfold safe_landing. run_cmd.
  repeat (break_match; cbn in * ); subst; try discriminate.
  all: repeat match goal with
              | H : (_, _, _) = (_, _, _) |- _ => injection H as <- <- <-
              end; try discriminate.
  all: do 3 eexists; split; [rewrite <- ?app_assoc; reflexivity|].
  all: cbn; repeat split; auto 20; try discriminate; intros; flags.
  all: try (intuition (try discriminate; try congruence)).
Qed.

(** [safe_landing] never returns normally, whatever raises: it ends in an
    exception, which is [SystemExit] after [sys.exit(0)] whenever
    [destroyAllWindows] returns. It calls [land] exactly when the drone is
    flying and connected, also when the return to the launch point raised,
    and it never changes the connection flag. *)
Theorem safe_landing_always_exits w x tr :
  exists e x' evs,
    safe_landing w x tr = (raised e, x', tr ++ evs)
    /\ mini_connected x' = mini_connected x
    /\ (In land evs <-> is_flying x = true /\ mini_connected x = true)
    /\ ((forall history, raises w history destroy_all_windows = false) ->
        e = SystemExit /\ last evs = Some (sys_exit 0)).
Proof.
  destruct (safe_landing_spec w x tr)
    as (e & x' & evs & Hrun & Hmini & Hland & Hland' & _ & _ & Hexit).
  exists e, x', evs. repeat split; auto; tauto.
Qed.

Lemma for_each_stateless {A} (body : A -> Cmd unit) w x xs :
  (forall a tr, exists r evs,
      body a w x tr = (r, x, tr ++ evs) /\ r <> raised SystemExit) ->
  forall tr, exists r evs,
    for_each xs body w x tr = (r, x, tr ++ evs) /\ r <> raised SystemExit.
Proof.
  intros Hb. induction xs as [|a xs IH]; intros tr; cbn.
  - exists (ok tt), []. rewrite app_nil_r. split; [reflexivity | discriminate].
  - unfold mbind, cmd_bind, bind.
    destruct (Hb a tr) as ([[]|e] & evs & -> & Hr).
    + destruct (IH (tr ++ evs)) as (r & evs' & -> & Hr').
      exists r, (evs ++ evs'). rewrite app_assoc. auto.
    + exists (raised e), evs. auto.
Qed.

Lemma save_scan_results_spec t w x tr :
  exists x' evs,
    save_scan_results t w x tr = (ok tt, x', tr ++ evs)
    /\ same_session x x'.
Proof.
  unfold save_scan_results. unfold mbind at 1, cmd_bind at 1, bind at 1, get.
  destruct (truthy (session_uuid x)) as [u|].
  2: { exists x, []. rewrite app_nil_r. auto using same_session_refl. }
  unfold try_except, mbind at 1, cmd_bind at 1, bind at 1, modify.
  set (x1 := on_scan_results (set_sr_end_time (Some t)) x).
  assert (Hx1 : same_session x x1) by (unfold same_session; cbn; auto).
  assert (Hput : forall m tr', exists evs,
             put m w x1 tr' = (ok tt, x1, tr' ++ evs)).
  { intros m tr'. run_cmd. destruct (telegram_initialized x1); eauto.
    exists []. now rewrite app_nil_r. }
  destruct (sr_start_time (scan_results x)).
  2: { unfold throw. destruct (Hput msg_save_error tr) as (evs & ->). eauto. }
  unfold mbind at 1, cmd_bind at 1, bind at 1.
  destruct (for_each_stateless
              (fun qr_code =>
                 item ← call_find_item qr_code;
                 match item with
                 | Some id =>
                   add_scan_history_by_action_type (Some id)
                     (lit "success") (session_uuid x)
                 | None => ret tt
                 end) w x1 (elements (sr_scanned_qr (scan_results x))))
    with (tr := tr) as (r1 & evs1 & -> & Hr1).
  { intros a tr'. unfold call_find_item, add_scan_history_by_action_type.
    run_cmd.
    repeat break_match; do 2 eexists;
      ((split; [rewrite <- ?app_assoc; reflexivity | discriminate])
       || (split; [rewrite <- (app_nil_r (tr' ++ _)), <- ?app_assoc;
                   reflexivity | discriminate])). }
  destruct r1 as [[]|[|]]; [| |contradiction].
  2: { destruct (Hput msg_save_error (tr ++ evs1)) as (evs & ->).
       exists x1, (evs1 ++ evs). rewrite app_assoc. auto. }
  unfold mbind at 1, cmd_bind at 1, bind at 1.
  destruct (for_each_stateless
              (fun failed_qr =>
                 add_scan_history_by_action_type None
                   (lit "failed_qr: " ++ failed_qr) (session_uuid x))
              w x1 (elements (sr_failed_qr (scan_results x))))
    with (tr := tr ++ evs1) as (r2 & evs2 & -> & Hr2).
  { intros a tr'. unfold add_scan_history_by_action_type, throw.
    exists (raised PyException), []. rewrite app_nil_r.
    split; [reflexivity | discriminate]. }
  destruct r2 as [[]|[|]]; [| |contradiction].
  2: { destruct (Hput msg_save_error ((tr ++ evs1) ++ evs2)) as (evs & ->).
       exists x1, (evs1 ++ evs2 ++ evs). rewrite !app_assoc. auto. }
  unfold mbind, cmd_bind, bind, call.
  destruct (raises w _ _).
  - destruct (Hput msg_save_error
                (((tr ++ evs1) ++ evs2)
                 ++ [end_scan_session u (lit "completed") true]))
      as (evs & ->).
    exists x1, (evs1 ++ evs2 ++ [end_scan_session u (lit "completed") true]
                ++ evs).
    rewrite !app_assoc. auto.
  - destruct (Hput msg_summary
                (((tr ++ evs1) ++ evs2)
                 ++ [end_scan_session u (lit "completed") true]))
      as (evs & ->).
    exists x1, (evs1 ++ evs2 ++ [end_scan_session u (lit "completed") true]
                ++ evs).
    rewrite !app_assoc. auto.
Qed.

(** [save_scan_results] never raises, whatever the store does: it returns
    with the connection flags, the session id, the flying flag and the start
    time as they were, having tried to end its session at most once. *)
Theorem save_scan_results_never_raises t w x tr :
  exists x' evs,
    save_scan_results t w x tr = (ok tt, x', tr ++ evs)
    /\ same_session x x'
    /\ forall u, truthy (session_uuid x) = Some u ->
                 (finalizations u evs <= 1)%nat.
Proof.
  destruct (save_scan_results_spec t w x tr) as (x' & evs & Hrun & Hsame).
  exists x', evs. split; [exact Hrun|]. split; [exact Hsame|].
  intros u Hu.
  destruct (keeps_save_scan_results w (session_uuid x) u Hu t x tr eq_refl)
    as (r & x'' & evs' & Hrun' & _ & _ & Hn).
  rewrite Hrun in Hrun'. injection Hrun' as _ _ Hevs.
  apply app_inv_head in Hevs. now subst evs'.
Qed.

Section AnyFlight.
Context `{PyUnicode}.
Variable s : SpeedSettings.

Lemma run_loop_spec t0 inputs w x tr :
  exists r x' evs,
    run_loop s t0 inputs w x tr = (r, x', tr ++ evs)
    /\ mini_connected x' = mini_connected x
    /\ (is_flying x = true -> mini_connected x = true ->
        is_flying x' = true \/ In land evs)
    /\ (In land evs -> is_flying x = true).
Proof.
  unfold run_loop.
  destruct (fly_loop s _ inputs) as [[st' evs] leaving] eqn:Hloop.
  destruct (fly_loop_same_session s inputs _ _ _ _ Hloop)
    as [(Hmini & _ & _ & Hfly & _) Hquiet].
  cbn in Hmini, Hfly.
  assert (Hnoland : ~ In land evs).
  { intros Hin. apply fly_loop_loop_calls in Hloop.
    rewrite forallb_forall in Hloop. apply Hloop in Hin. discriminate. }
  destruct leaving.
  - exists (ok tt), (self st'), evs. intuition congruence.
  - exists (raised PyException), (self st'), evs. intuition congruence.
  - destruct (safe_landing_spec w (self st') (tr ++ evs))
      as (e & x' & evs' & -> & Hm' & Hland & Hland' & _).
    exists (raised e), x', (evs ++ evs'). rewrite app_assoc.
    split; [reflexivity|]. split; [congruence|]. split.
    + intros Hf Hc. right. apply in_or_app. right. apply Hland; congruence.
    + intros Hin. apply in_app_or in Hin as [Hin | Hin]; [contradiction|].
      apply Hland' in Hin. destruct Hin. congruence.
Qed.

Lemma start_up_spec t0 inputs w x :
  mini_connected x = true ->
  (forall history, raises w history arm = false) ->
  (forall history, raises w history takeoff = false) ->
  exists r x1 evs1,
    try_except
      (modify (on_scan_results (set_sr_start_time (Some t0))) ;;
       put msg_start ;;
       call arm ;;
       call takeoff ;;
       modify (set_is_flying true) ;;
       call (go_to_local_point 0 0 0.95 0) ;;
       call wait_point_reached ;;
       run_loop s t0 inputs)
      (modify (on_scan_results
                 (fun r => set_sr_errors
                             (sr_errors r ++ [msg_critical_error]) r)))
      w x [] = (r, x1, evs1)
    /\ mini_connected x1 = true
    /\ (is_flying x1 = true \/ In land evs1).
Proof.
  intros Hmini Harm Htakeoff.
  run_cmd. cbn. destruct (telegram_initialized x); cbn.
  all: rewrite Harm, Htakeoff; cbn.
  all: destruct (raises w _ (go_to_local_point 0 0 0.95 0)); cbn;
    [eauto 10|].
  all: destruct (raises w _ wait_point_reached); cbn; [eauto 10|].
  all: match goal with
       | |- context [run_loop _ ?t ?i ?w' ?y ?tr] =>
         destruct (run_loop_spec t i w' y tr)
           as (r & x' & evs & -> & Hm & Hland & _)
       end.
  all: cbn in Hm, Hland; specialize (Hland eq_refl Hmini).
  all: destruct r as [[]|[|]]; cbn; do 3 eexists;
    (split; [reflexivity|]); cbn; (split; [congruence|]);
    (destruct Hland; [left; assumption | right; cbn; auto 20]).
Qed.

(** A flight that took off is told to land: when arming and take-off
    return, and the window teardown of [fly] returns, [land] is called
    before [fly] ends, whatever else raises and however the loop is left;
    and when [land] does not raise, the drone is recorded as not flying. *)
Theorem fly_lands_after_takeoff w x t0 t1 inputs :
  mini_connected x = true ->
  (forall history, raises w history arm = false) ->
  (forall history, raises w history takeoff = false) ->
  (forall history, raises w history destroy_window = false) ->
  let run := fly s true t0 t1 inputs w x [] in
  In land (snd run)
  /\ ((forall history, raises w history land = false) ->
      is_flying (snd (fst run)) = false).
Proof.
  intros Hmini Harm Htakeoff Hwindow. cbv zeta.
  cut (exists r x3 evs,
          fly s true t0 t1 inputs w x [] = (r, x3, evs)
          /\ In land evs
          /\ ((forall history, raises w history land = false) ->
              is_flying x3 = false)).
  { intros (r & x3 & evs & -> & Hin & Hdown). auto. }
  unfold fly, mbind at 1, cmd_bind at 1, bind at 1, get.
  rewrite Hmini. cbn [negb orb]. unfold try_finally.
  destruct (start_up_spec t0 inputs w x Hmini Harm Htakeoff)
    as (r & x1 & evs1 & -> & Hm1 & Hland1).
  unfold mbind, cmd_bind, bind.
  destruct (save_scan_results_spec t1 w x1 evs1)
    as (x2 & evs2 & -> & (Hm2 & _ & _ & Hf2 & _)).
  unfold call. rewrite Hwindow.
  destruct (safe_landing_spec w x2 ((evs1 ++ evs2) ++ [destroy_window]))
    as (e & x3 & evs3 & -> & Hm3 & Hland3 & _ & Hf3 & Hdown & _).
  do 3 eexists. split; [reflexivity|]. split.
  - destruct Hland1 as [Hfly | Hin].
    + apply in_or_app. right. apply Hland3; congruence.
    + rewrite <- !app_assoc. apply in_or_app. now left.
  - intros Hl. destruct (is_flying x3) eqn:Hf; [|reflexivity].
    apply Hdown; [exact Hl|]. apply Hland3; [|congruence].
    now apply Hf3.
Qed.

End AnyFlight.

End SessionMore.

(** * The code around the flight *)

(** ** Decoding a frame *)

Module FrameQrFacts.
Import FrameQr.

Lemma decode_loop_spec decodes : forall m best best',
  decode_loop decodes m best = (best', false) ->
  ~ In decode_raised decodes
  /\ ((best' = best
       /\ forall d text size, In d decodes -> usable d text size -> size <= m)
      \/ exists d text size,
           best' = Some (text, size)
           /\ In d decodes /\ usable d text size
           /\ m < size
           /\ forall d' text' size',
                In d' decodes -> usable d' text' size' -> size' <= size).
Proof.
  induction decodes as [|d rest IH]; intros m best best'; cbn.
  - intros [= <-]. split; [tauto|]. left. split; [reflexivity|].
    intros ? ? ? [].
  - destruct d as [|text [size|]]; [discriminate| |].
    + destruct text as [|c text].
      { intros Hl. apply IH in Hl as [Hnr Hl]. split; [intuition discriminate|].
        destruct Hl as [[-> Hall] | (d & t & sz & -> & Hin & Hu & Hlt & Hall)].
        - left. split; [reflexivity|].
          intros d t sz [<- | Hin] Hu; [|eauto].
          destruct Hu as [[= <- <-] Hne]. contradiction.
        - right. exists d, t, sz. split; [reflexivity|]. split; [now right|].
          split; [exact Hu|]. split; [exact Hlt|].
          intros d' t' sz' [<- | Hin'] Hu'; [|eauto].
          destruct Hu' as [[= <- <-] Hne]. contradiction. }
      destruct (Qltb m size) eqn:Hm.
      * apply Qltb_lt in Hm.
        intros Hl. apply IH in Hl as [Hnr Hl]. split; [intuition discriminate|].
        right.
        destruct Hl as [[-> Hall] | (d & t & sz & -> & Hin & Hu & Hlt & Hall)].
        -- exists (decoded (c :: text) (Some size)), (c :: text), size.
           split; [reflexivity|]. split; [now left|].
           split; [split; [reflexivity | discriminate]|].
           split; [exact Hm|].
           intros d' t' sz' [<- | Hin'] Hu'; [|eauto].
           destruct Hu' as [[= <- <-] _]. lra.
        -- exists d, t, sz. split; [reflexivity|]. split; [now right|].
           split; [exact Hu|]. split; [lra|].
           intros d' t' sz' [<- | Hin'] Hu'; [|eauto].
           destruct Hu' as [[= <- <-] _]. lra.
      * apply Qltb_ge in Hm.
        intros Hl. apply IH in Hl as [Hnr Hl]. split; [intuition discriminate|].
        destruct Hl as [[-> Hall] | (d & t & sz & -> & Hin & Hu & Hlt & Hall)].
        -- left. split; [reflexivity|].
           intros d t sz [<- | Hin] Hu; [|eauto].
           destruct Hu as [[= <- <-] _]. exact Hm.
        -- right. exists d, t, sz. split; [reflexivity|]. split; [now right|].
           split; [exact Hu|]. split; [exact Hlt|].
           intros d' t' sz' [<- | Hin'] Hu'; [|eauto].
           destruct Hu' as [[= <- <-] _]. lra.
    + intros Hl.
      assert (Hl' : decode_loop rest m best = (best', false))
        by (destruct text; exact Hl).
      clear Hl. apply IH in Hl' as [Hnr Hl]. split; [intuition discriminate|].
      destruct Hl as [[-> Hall] | (d & t & sz & -> & Hin & Hu & Hlt & Hall)].
      * left. split; [reflexivity|].
        intros d t sz [<- | Hin] Hu; [|eauto].
        destruct Hu as [[=] _].
      * right. exists d, t, sz. split; [reflexivity|]. split; [now right|].
        split; [exact Hu|]. split; [exact Hlt|].
        intros d' t' sz' [<- | Hin'] Hu'; [|eauto].
        destruct Hu' as [[=] _].
Qed.

(** Called as [fly] calls it, after [self.best_result = None]: a text is
    returned only when no decode raised; it is then not empty, it comes
    from a decode with a positive size, and no usable decode of the frame is
    larger. *)
Theorem process_frame_qr_returns_largest decodes text best :
  process_frame_qr None decodes = (Some text, best) ->
  text <> []
  /\ ~ In decode_raised decodes
  /\ exists qr_size,
       In (decoded text (Some qr_size)) decodes
       /\ 0 < qr_size
       /\ best = Some (text, qr_size)
       /\ forall text' size',
            In (decoded text' (Some size')) decodes -> text' <> [] ->
            size' <= qr_size.
Proof.
  unfold process_frame_qr.
  destruct (decode_loop decodes 0 None) as [best' raised] eqn:Hl.
  destruct raised; [destruct best' as [[? ?]|]; intros [=]|].
  apply decode_loop_spec in Hl
    as [Hnr [[-> _] | (d & t & sz & -> & Hin & [-> Hne] & Hpos & Hall)]];
    [discriminate|].
  intros [= <- <-]. split; [exact Hne|]. split; [exact Hnr|].
  exists sz. split; [exact Hin|]. split; [exact Hpos|].
  split; [reflexivity|].
  intros text' size' Hin' Hne'.
  apply (Hall (decoded text' (Some size')) text' size' Hin').
  split; [reflexivity | exact Hne'].
Qed.

End FrameQrFacts.

(** ** database.py *)

Module DatabaseFacts.
Import Database.

Section WithUnicode.
Context `{PyUnicode}.

Lemma split_whitespace_words s : Forall word (split_whitespace s).
Proof.
  induction s as [|c rest IH]; cbn; [constructor|].
  destruct (isspace c) eqn:Hc; [exact IH|].
  destruct rest as [|c' rest'].
  - cbn. repeat constructor; [discriminate | exact Hc].
  - destruct (negb (isspace c')) eqn:Hc'.
    + destruct (split_whitespace (c' :: rest')) as [|w ws] eqn:Hs.
      * repeat constructor; [discriminate | exact Hc].
      * inversion IH as [|? ? [Hne Hw] Hws]; subst.
        constructor; [|exact Hws].
        split; [discriminate | now constructor].
    + constructor; [|exact IH].
      split; [discriminate | repeat constructor; exact Hc].
Qed.

Lemma split_whitespace_word_then_space w t :
  word w -> isspace 32 = true ->
  split_whitespace (w ++ 32%N :: t) = w :: split_whitespace t.
Proof.
  intros [Hne Hw] Hsp. induction w as [|c w IH]; [contradiction|].
  inversion Hw as [|? ? Hc Hw']; subst.
  cbn [app split_whitespace]. rewrite Hc.
  destruct w as [|c' w'].
  - cbn. rewrite Hsp. cbn. reflexivity.
  - inversion Hw' as [|? ? Hc' _]; subst.
    cbn [app]. rewrite Hc'. cbn [negb].
    change (c' :: w' ++ 32%N :: t) with ((c' :: w') ++ 32%N :: t).
    rewrite IH by (try discriminate; assumption). reflexivity.
Qed.

Lemma split_whitespace_word w : word w -> split_whitespace w = [w].
Proof.
  intros [Hne Hw]. induction w as [|c w IH]; [contradiction|].
  inversion Hw as [|? ? Hc Hw']; subst.
  cbn [split_whitespace]. rewrite Hc.
  destruct w as [|c' w'].
  - reflexivity.
  - inversion Hw' as [|? ? Hc' _]; subst.
    rewrite Hc'. cbn [negb].
    rewrite IH by (try discriminate; assumption). reflexivity.
Qed.

Lemma split_whitespace_join ws :
  isspace 32 = true -> Forall word ws ->
  split_whitespace (join [32%N] ws) = ws.
Proof.
  intros Hsp Hws. induction Hws as [|w ws Hw Hws IH]; [reflexivity|].
  cbn [join]. destruct ws as [|w' ws'].
  - now apply split_whitespace_word.
  - cbn [app]. rewrite split_whitespace_word_then_space by assumption.
    now rewrite IH.
Qed.

(** [clean_string] keeps the words of its argument and is idempotent, as
    long as the space it joins with counts as whitespace. *)
Theorem clean_string_idempotent s :
  isspace 32 = true ->
  split_whitespace (clean_string s) = split_whitespace s
  /\ clean_string (clean_string s) = clean_string s.
Proof.
  intros Hsp.
  assert (Hw : split_whitespace (clean_string s) = split_whitespace s)
    by (apply split_whitespace_join; auto using split_whitespace_words).
  split; [exact Hw|]. unfold clean_string at 1. now rewrite Hw.
Qed.

End WithUnicode.

Section ScannedItems.
Context {Row : Type} `{Countable K}.
Variable row_qr_code : Row -> K.
Variable get : Z -> option Row.

Lemma scanned_items_loop_spec scans : forall acc seen,
  NoDup (map row_qr_code acc) ->
  (forall k, k ∈ seen <-> In k (map row_qr_code acc)) ->
  let result := scanned_items_loop row_qr_code get scans acc seen in
  NoDup (map row_qr_code result)
  /\ (exists more, result = acc ++ more
                   /\ Forall (referred get scans) more)
  /\ (forall item, referred get scans item ->
                   In (row_qr_code item) (map row_qr_code result)).
Proof.
  induction scans as [|item_id rest IH]; intros acc seen Hnd Hseen; cbn.
  - split; [exact Hnd|]. split.
    + exists []. now rewrite app_nil_r.
    + intros item (id & [] & _).
  - assert (Hskip :
      (forall item, referred get (item_id :: rest) item ->
                    referred get rest item
                    \/ exists id, item_id = Some id /\ id <> 0%Z
                                  /\ get id = Some item)).
    { intros item (id & [-> | Hin] & Hnz & Hget); [right | left];
        unfold referred; eauto. }
    assert (Hweaken : forall more,
               Forall (referred get rest) more ->
               Forall (referred get (item_id :: rest)) more).
    { intros more Hm. eapply Forall_impl; [exact Hm|].
      intros item (id & Hin & Hrest).
      exists id. split; [now right | exact Hrest]. }
    assert (Hsame :
      (forall item, referred get (item_id :: rest) item ->
                    referred get rest item
                    \/ In (row_qr_code item) (map row_qr_code acc)) ->
      let result := scanned_items_loop row_qr_code get rest acc seen in
      NoDup (map row_qr_code result)
      /\ (exists more, result = acc ++ more
                       /\ Forall (referred get (item_id :: rest)) more)
      /\ (forall item, referred get (item_id :: rest) item ->
                       In (row_qr_code item) (map row_qr_code result))).
    { intros Hcov. cbv zeta.
      destruct (IH acc seen Hnd Hseen) as (Hnd' & (more & Hres & Hmore) & Hall).
      split; [exact Hnd'|]. split; [eauto|].
      intros item Hitem. destruct (Hcov item Hitem) as [Hr | Hin]; [auto|].
      rewrite Hres, map_app. apply in_or_app. now left. }
    destruct item_id as [id|].
    2: { apply Hsame. intros item Hitem.
         destruct (Hskip item Hitem) as [? | (id & [=] & _)]. now left. }
    destruct (id =? 0)%Z eqn:Hz.
    { apply Hsame. intros item Hitem. apply Z.eqb_eq in Hz.
      destruct (Hskip item Hitem) as [? | (id' & [= <-] & Hnz & _)];
        [now left | contradiction]. }
    apply Z.eqb_neq in Hz.
    destruct (get id) as [item0|] eqn:Hget.
    2: { apply Hsame. intros item Hitem.
         destruct (Hskip item Hitem) as [? | (id' & [= <-] & _ & Hget')];
           [now left | congruence]. }
    destruct (bool_decide (row_qr_code item0 ∈ seen)) eqn:Hin.
    { apply bool_decide_eq_true in Hin. apply Hseen in Hin.
      apply Hsame. intros item Hitem.
      destruct (Hskip item Hitem) as [? | (id' & [= <-] & _ & Hget')];
        [now left|]. right. congruence. }
    apply bool_decide_eq_false in Hin.
    assert (Hnew : ~ In (row_qr_code item0) (map row_qr_code acc))
      by (intros Hacc; apply Hin, Hseen, Hacc).
    destruct (IH (acc ++ [item0]) ({[ row_qr_code item0 ]} ∪ seen))
      as (Hnd' & (more & Hres & Hmore) & Hall).
    { rewrite map_app. cbn. apply NoDup_app. split; [exact Hnd|].
      split; [|apply NoDup_singleton].
      intros k Hk Hone. apply list_elem_of_In in Hk.
      apply list_elem_of_singleton in Hone. subst k. contradiction. }
    { intros k. rewrite map_app, in_app_iff, elem_of_union,
        elem_of_singleton, Hseen. cbn. intuition. }
    split; [exact Hnd'|]. split.
    + exists (item0 :: more). rewrite Hres, <- app_assoc. split; [reflexivity|].
      constructor; [|now apply Hweaken].
      exists id. cbn. auto.
    + intros item Hitem.
      destruct (Hskip item Hitem) as [Hr | (id' & [= <-] & _ & Hget')];
        [auto|].
      rewrite Hres, !map_app. apply in_or_app. left. apply in_or_app. right.
      cbn. left. congruence.
Qed.

(** The items reported for a session have pairwise different codes, each is
    an item that a scan of the session refers to, and the code of every item
    referred to is reported: a scan whose [item_id] is NULL, 0 or unknown is
    passed over, and so is a second scan of a code. *)
Theorem scanned_items_spec scans :
  let result := scanned_items row_qr_code get scans in
  NoDup (map row_qr_code result)
  /\ Forall (referred get scans) result
  /\ forall item, referred get scans item ->
                  In (row_qr_code item) (map row_qr_code result).
Proof.
  cbv zeta. unfold scanned_items.
  destruct (scanned_items_loop_spec scans [] ∅)
    as (Hnd & (more & Hres & Hmore) & Hall).
  - constructor.
  - intros k. cbn. split; [intros Hk; now apply not_elem_of_empty in Hk | tauto].
  - cbv zeta in *. rewrite Hres in *. auto.
Qed.

End ScannedItems.

End DatabaseFacts.

(** ** The inverse index of marker locations *)

Module IndexFacts.
Import BotHandlers Database.
Import Qr QrMore.

Section GroupBy.
Context `{Countable K} {A B : Type}.
Variable key : A -> K.
Variable val : A -> B.

Lemma append_to_lookup (d : gmap K (list B)) k b k' :
  append_to d k b !! k'
  = if decide (k = k') then Some (default [] (d !! k) ++ [b]) else d !! k'.
Proof.
  unfold append_to. destruct (decide (k = k')) as [<- | Hne].
  - destruct (d !! k) as [l|] eqn:Hl.
    + now rewrite lookup_alter_eq, Hl.
    + now rewrite lookup_alter_eq, lookup_insert_eq.
  - rewrite lookup_alter_ne by exact Hne.
    destruct (d !! k); [reflexivity|]. now rewrite lookup_insert_ne.
Qed.

Lemma fold_append_lookup xs : forall (d : gmap K (list B)) k,
  fold_left (fun d x => append_to d (key x) (val x)) xs d !! k
  = match group key val k xs with
    | [] => d !! k
    | l => Some (default [] (d !! k) ++ l)
    end.
Proof.
  induction xs as [|x xs IH]; intros d k; [reflexivity|].
  cbn [fold_left]. rewrite IH, append_to_lookup. unfold group. cbn.
  destruct (decide (key x = k)) as [Hk | Hk].
  - rewrite bool_decide_eq_true_2 by exact Hk. cbn. subst k.
    destruct (map val _) as [|b l]; cbn; [reflexivity|].
    now rewrite <- app_assoc.
  - rewrite bool_decide_eq_false_2 by exact Hk. reflexivity.
Qed.

End GroupBy.

Lemma location_key_inj l l' : location_key l = location_key l' -> l = l'.
Proof.
  destruct l as [s p], l' as [s' p']. unfold location_key. cbn.
  intros [= Hs Hp]. congruence.
Qed.

Lemma bot_index_lookup items k :
  BotHandlers.LOCATION_TO_ARUCO items !! k
  = match group (fun item : Z * (str * str) => location_key item.2) fst
            k items with
    | [] => None
    | l => Some l
    end.
Proof.
  unfold BotHandlers.LOCATION_TO_ARUCO.
  rewrite (fold_append_lookup
             (fun item : Z * (str * str) => location_key item.2) fst).
  rewrite lookup_empty. reflexivity.
Qed.

Lemma flight_index_lookup items k :
  FlightIndex.LOCATION_TO_ARUCO items !! k
  = match group (fun item : Z * (str * str) => location_key item.2) fst
            k items with
    | [] => None
    | l => Some l
    end.
Proof.
  unfold FlightIndex.LOCATION_TO_ARUCO.
  set (locations := elements (list_to_set (map snd items) : gset (str * str))).
  set (entry := fun location : str * str => (location_key location, _)).
  assert (Hlocs : forall l, l ∈ locations <-> In l (map snd items)).
  { intros l. unfold locations.
    rewrite elem_of_elements, elem_of_list_to_set. apply list_elem_of_In. }
  assert (Hgroup : forall l,
             (entry l).2 = group (fun item : Z * (str * str) =>
                                    location_key item.2) fst
                             (location_key l) items).
  { intros l. unfold entry, group. cbn. f_equal.
    apply List.filter_ext. intros [id [s p]]. cbn.
    destruct (decide ((s, p) = l)) as [<- | Hne].
    - cbn. now rewrite !bool_decide_eq_true_2.
    - rewrite (bool_decide_eq_false_2 (location_key _ = _))
        by (intros Heq; apply location_key_inj in Heq; contradiction).
      destruct l as [s' p']. cbn.
      destruct (decide (s = s')) as [-> | Hs];
        [|now rewrite (bool_decide_eq_false_2 (s = s'))].
      rewrite (bool_decide_eq_false_2 (p = p')); [|congruence].
      apply andb_false_r. }
  destruct (group _ fst k items) as [|id l] eqn:Hg.
  - apply not_elem_of_list_to_map_1. rewrite <- list_fmap_compose.
    intros Hin. apply list_elem_of_fmap in Hin as (loc & -> & Hloc).
    apply Hlocs, in_map_iff in Hloc as ([id [s p]] & <- & Hitem).
    cbn in Hg. unfold group in Hg.
    assert (Hin : In (id, (s, p))
                    (List.filter
                       (fun x : Z * (str * str) =>
                          bool_decide (location_key x.2 = location_key (s, p)))
                       items)).
    { apply List.filter_In. split; [exact Hitem|].
      now apply bool_decide_eq_true_2. }
    cbn in Hin. destruct (List.filter _ items); [contradiction|discriminate].
  - assert (Hex : exists loc, loc ∈ locations /\ k = location_key loc).
    { unfold group in Hg.
      destruct (List.filter _ items) as [|[id0 loc] rest] eqn:Hf;
        [discriminate|].
      assert (Hin : In (id0, loc) (List.filter
                (fun x : Z * (str * str) =>
                   bool_decide (location_key x.2 = k)) items))
        by (rewrite Hf; now left).
      apply List.filter_In in Hin as [Hin Hk].
      apply bool_decide_eq_true in Hk. exists loc. split; [|now rewrite <- Hk].
      apply Hlocs, in_map_iff. exists (id0, loc). auto. }
    destruct Hex as (loc & Hloc & ->).
    apply elem_of_list_to_map_1.
    + rewrite <- list_fmap_compose. apply NoDup_fmap_2.
      * intros a b. apply location_key_inj.
      * apply NoDup_elements.
    + rewrite <- Hg, <- Hgroup. apply list_elem_of_fmap. exists loc.
      split; [reflexivity | exact Hloc].
Qed.

(** The inverse index built by the comprehension of flight.py and the one
    built by the loop of bot_handlers.py are the same dictionary, for any
    table of marker locations. *)
Theorem location_indexes_agree items :
  FlightIndex.LOCATION_TO_ARUCO items = BotHandlers.LOCATION_TO_ARUCO items.
Proof.
  apply map_eq. intros k.
  now rewrite flight_index_lookup, bot_index_lookup.
Qed.

Lemma ARUCO_LOCATIONS_items_table :
  list_to_map ARUCO_LOCATIONS_items = ARUCO_LOCATIONS.
Proof. reflexivity. Qed.

(** The index inverts the table it is built from: a marker is listed under
    a location key exactly when the table gives it that location. *)
Theorem location_index_inverts items id location :
  NoDup (map fst items) ->
  (list_to_map items : gmap Z (str * str)) !! id = Some location
  <-> exists ids,
        BotHandlers.LOCATION_TO_ARUCO items !! location_key location = Some ids
        /\ In id ids.
Proof.
  intros Hnd. rewrite bot_index_lookup. unfold group.
  assert (Hin : In id (map fst (List.filter
                  (fun x : Z * (str * str) =>
                     bool_decide (location_key x.2 = location_key location))
                  items))
                <-> (list_to_map items : gmap Z (str * str)) !! id
                    = Some location).
  { rewrite in_map_iff. split.
    - intros ([id' loc] & <- & Hf). apply List.filter_In in Hf as [Hitem Hk].
      apply bool_decide_eq_true, location_key_inj in Hk. cbn in Hk. subst loc.
      apply elem_of_list_to_map_1; [exact Hnd | now apply list_elem_of_In].
    - intros Hl. apply elem_of_list_to_map_2, list_elem_of_In in Hl.
      exists (id, location). split; [reflexivity|].
      apply List.filter_In. split; [exact Hl|].
      now apply bool_decide_eq_true_2. }
  rewrite <- Hin. clear Hin.
  destruct (map fst (List.filter _ items)) as [|id0 l]; split.
  - intros Hf. destruct Hf.
  - intros (ids & [=] & _).
  - eauto.
  - now intros (ids & [= <-] & Hids).
Qed.

(** From the scan to the bot: the shelf and the position that
    [process_qr_data] passes to [add_item], cleaned as [add_item] stores
    them, form a key of the bot's index, and the list under that key
    contains the marker in front of which the code was read. *)
Theorem stored_location_indexes_marker
    x db qr ok x' calls code name shelf position :
  process_qr_data x db qr = (ok, x', calls) ->
  In (add_item code name shelf position) calls ->
  exists id ids,
    self_current_aruco_id x = Some id
    /\ BotHandlers.LOCATION_TO_ARUCO ARUCO_LOCATIONS_items
         !! (clean_string shelf, clean_string position) = Some ids
    /\ In id ids.
Proof.
  intros Hp Hcall.
  destruct (process_qr_data_add_item_location _ _ _ _ _ _ _ _ _ _ Hp Hcall)
    as (sh & po & Hloc & -> & ->).
  unfold current_location in Hloc.
  destruct (self_current_aruco_id x) as [id|]; [|discriminate].
  exists id. rewrite <- ARUCO_LOCATIONS_items_table in Hloc.
  apply elem_of_list_to_map_2 in Hloc. unfold ARUCO_LOCATIONS_items in Hloc.
  repeat (apply elem_of_cons in Hloc as [[= -> -> ->] | Hloc]);
    [..| now apply elem_of_nil in Hloc].
  all: eexists; split; [reflexivity|]; split;
    [vm_compute; reflexivity | cbn; auto].
Qed.

End IndexFacts.

(** ** bot_handlers.py *)

Module BotFacts.
Import BotHandlers IndexFacts.



Lemma append_to_insert `{Countable K} {A} (d : gmap K (list A)) k a :
  append_to d k a = <[k := default [] (d !! k) ++ [a]]> d.
Proof.
  apply map_eq. intros k'. rewrite (append_to_lookup d k a k').
  destruct (decide (k = k')) as [<- | Hne].
  - now rewrite lookup_insert_eq.
  - now rewrite lookup_insert_ne.
Qed.

Lemma total_items_append_to d k item :
  total_items (append_to d k item) = S (total_items d).
Proof.
  rewrite append_to_insert. unfold total_items.
  assert (Hcomm : forall (m : gmap (str * str) (list Database.Item)),
             forall j1 j2 z1 z2 (y : nat),
               j1 <> j2 -> m !! j1 = Some z1 -> m !! j2 = Some z2 ->
               (List.length z1 + (List.length z2 + y)
                = List.length z2 + (List.length z1 + y))%nat)
    by (intros; lia).
  destruct (d !! k) as [l|] eqn:Hl; cbn [default].
  - rewrite <- (insert_delete_eq d).
    rewrite map_fold_insert_L; [|apply Hcomm | apply lookup_delete_eq].
    rewrite <- (insert_delete_id d k l) at 2 by exact Hl.
    rewrite map_fold_insert_L; [|apply Hcomm | apply lookup_delete_eq].
    rewrite length_app. cbn. lia.
  - rewrite map_fold_insert_L; [|apply Hcomm | exact Hl]. reflexivity.
Qed.

Lemma total_items_fold items : forall d,
  total_items
    (fold_left (fun d item => append_to d (Database.shelf item, Database.position item) item)
       items d)
  = (List.length items + total_items d)%nat.
Proof.
  induction items as [|item items IH]; intros d; [reflexivity|].
  cbn [fold_left List.length]. rewrite IH, total_items_append_to. lia.
Qed.

(** The count shown in the report is the number of items of the session,
    and each location lists exactly the items stored there, in the order of
    the scans: the grouping loses and repeats nothing. *)
Theorem items_by_location_partition items :
  total_items (items_by_location items) = List.length items
  /\ forall location,
       default [] (items_by_location items !! location)
       = List.filter
           (fun item => bool_decide ((Database.shelf item, Database.position item) = location))
           items.
Proof.
  split.
  - unfold items_by_location. rewrite total_items_fold.
    unfold total_items. rewrite map_fold_empty. lia.
  - intros location. unfold items_by_location.
    rewrite (fold_append_lookup (fun item => (Database.shelf item, Database.position item))
               (fun item => item)).
    unfold group. rewrite map_id, lookup_empty.
    now destruct (List.filter _ items).
Qed.

End BotFacts.

(** * The further properties on concrete cases *)

Module Examples.
Import Control Qr Flight Session Scenario Cases.

(** ** The control law *)

(** A frame of width 0 with the marker at column 0. *)
Lemma calculate_control_speed_raises_iff_witness :
  calculate_control_speed speed_settings 2 0 240 480 0 = None
  <-> 0%Z = 0%Z /\ 0%Z = 0%Z.
Proof.
  apply (ControlMore.calculate_control_speed_raises_iff
           speed_settings 2 0 240 480 0).
  vm_compute. intros Hq. discriminate Hq.
Defined.

(** A marker 3 m away, right of and below the centre of a 640x480 frame. *)
Lemma calculate_control_speed_steers_toward_marker_witness :
  exists v,
    calculate_control_speed speed_settings 3 400 300 480 640 = Some v
    /\ 0 <= v_x v * x_error 400 640
    /\ 0 <= yaw_rate v * x_error 400 640
    /\ v_z v * (inject_Z 300 - inject_Z 480 / 2) <= 0
    /\ 0 <= v_y v * (3 - target_distance speed_settings).
Proof.
  eexists. split; [vm_compute; reflexivity|].
  apply (ControlMore.calculate_control_speed_steers_toward_marker
           speed_settings 3 400 300 480 640 _ speed_settings_ok).
  vm_compute. reflexivity.
Defined.

(** A centred marker 3 m away. *)
Lemma forward_command_gated_and_floored_witness :
  exists vy,
    forward_command speed_settings 3 320 640 = Some vy
    /\ let distance_error := 3 - target_distance speed_settings in
       (center_threshold speed_settings <= Qabs (x_error 320 640)
        \/ Qabs distance_error < distance_threshold speed_settings ->
        vy = 0)
       /\ (Qabs (x_error 320 640) < center_threshold speed_settings ->
           distance_threshold speed_settings <= Qabs distance_error ->
           ~ distance_error == 0 ->
           min_speed speed_settings * 0.4 <= Qabs vy
           /\ (0.2 <= Qabs distance_error ->
               min_speed speed_settings <= Qabs vy)).
Proof.
  eexists. split; [vm_compute; reflexivity|].
  apply (ControlMore.forward_command_gated_and_floored
           speed_settings 3 320 640 _ speed_settings_ok).
  vm_compute. reflexivity.
Defined.

(** ** Reading a code *)

(** [full_payload] read in front of marker 1. *)
Lemma process_qr_data_true_iff_recorded_witness :
  let r := process_qr_data facing_marker_1 sample_db full_payload in
  (fst (fst r) = true <-> full_payload ∈ scanned_qr_codes (snd (fst r)))
  /\ (fst (fst r) = false -> snd (fst r) = facing_marker_1).
Proof.
  apply (QrMore.process_qr_data_true_iff_recorded
           facing_marker_1 sample_db full_payload _ _
           (snd (process_qr_data facing_marker_1 sample_db full_payload))).
  vm_compute. reflexivity.
Defined.

(** [full_payload] read a second time, against a store that now raises. *)
Lemma process_qr_data_idempotent_witness :
  let x' := snd (fst (process_qr_data facing_marker_1 sample_db full_payload)) in
  process_qr_data x'
    {| db_find_item := fun _ => Raised;
       db_add_item := fun _ _ _ _ => Raised |} full_payload
  = (true, x', []).
Proof.
  apply (QrMore.process_qr_data_idempotent facing_marker_1 sample_db _
           full_payload _
           (snd (process_qr_data facing_marker_1 sample_db full_payload))).
  vm_compute. reflexivity.
Defined.

(** The addition made for [full_payload] in front of marker 1. *)
Lemma add_item_only_after_lookup_witness :
  let calls := snd (process_qr_data facing_marker_1 sample_db full_payload) in
  let shelf := stellazh_ ++ lit "1" in
  let position := polka_ ++ lit "1" in
  (full_payload ∉ scanned_qr_codes facing_marker_1)
  /\ db_find_item sample_db (lit "a1") = Returned false
  /\ (exists sh po,
        current_location facing_marker_1 = Some (sh, po)
        /\ shelf = stellazh_ ++ sh /\ position = polka_ ++ po)
  /\ exists rest,
       calls = find_item (lit "a1")
               :: add_item (lit "a1") (lit "box") shelf position :: rest
       /\ existsb is_add_item rest = false.
Proof.
  apply (QrMore.add_item_only_after_lookup facing_marker_1 sample_db
           full_payload true
           (snd (fst (process_qr_data facing_marker_1 sample_db full_payload)))).
  - vm_compute. reflexivity.
  - vm_compute. auto.
Defined.

(** [предмет box] read in front of marker 1. *)
Lemma unparsable_text_leaves_no_record_witness :
  process_qr_data facing_marker_1 sample_db no_colon
  = (false, facing_marker_1, notify facing_marker_1 msg_process_error).
Proof.
  apply (QrMore.unparsable_text_leaves_no_record
           facing_marker_1 sample_db no_colon).
  - apply (bool_decide_unpack _). vm_compute. exact I.
  - vm_compute. discriminate.
  - vm_compute. reflexivity.
Defined.

(** ** The loop *)

(** The flight [lock_handover]: the lock ends on marker 2, seen in it. *)
Lemma lock_only_on_valid_marker_witness :
  locked_marker_id (self at_take_off) = Some 2%Z
  \/ exists f ms m,
       In (got_frame f) lock_handover
       /\ detected f = Some ms
       /\ In m ms
       /\ m_id m = 2%Z
       /\ aruco_confidence_threshold speed_settings <= m_confidence m
       /\ 2%Z ∉ scanned_markers (self at_take_off).
Proof.
  apply (FlightMore.lock_only_on_valid_marker speed_settings lock_handover
           at_take_off
           (fst (fst (fly_loop speed_settings at_take_off lock_handover)))
           (snd (fst (fly_loop speed_settings at_take_off lock_handover)))
           loop_signal 2%Z).
  - vm_compute. reflexivity.
  - vm_compute. reflexivity.
Defined.

(** Two markers in sight, the second nearer: it gets the lock. *)
Lemma new_lock_is_nearest_witness :
  exists d, m_pose (marker 2 0.9 2) = pose_ok d /\ d <= 3.
Proof.
  apply (FlightMore.new_lock_is_nearest at_take_off 1 two_markers
           (match select_marker at_take_off 1 two_markers with
            | selected st' _ => st'
            | _ => at_take_off
            end)
           (marker 2 0.9 2)) with (m' := marker 1 0.9 3).
  - intros locked Hlocked. vm_compute in Hlocked. discriminate Hlocked.
  - vm_compute. reflexivity.
  - vm_compute. auto.
  - reflexivity.
Defined.

(** The flight [one_visit]. *)
Lemma fly_loop_ids_in_sync_witness :
  ids_in_sync (fst (fst (fly_loop speed_settings at_take_off one_visit))).
Proof.
  apply (FlightMore.fly_loop_ids_in_sync speed_settings one_visit
           at_take_off _
           (snd (fst (fly_loop speed_settings at_take_off one_visit)))
           loop_signal).
  - reflexivity.
  - vm_compute. reflexivity.
Defined.

(** The frame on which marker 1 is reached. *)
Lemma scan_phase_entered_when_stabilised_witness :
  exists ms m d,
    detected reaching = Some ms
    /\ In m ms
    /\ is_valid speed_settings (self at_take_off) m = true
    /\ m_pose m = pose_ok d
    /\ Qabs (d - target_distance speed_settings)
       <= distance_threshold speed_settings
    /\ Qabs (inject_Z (m_x_center m) - inject_Z (frame_width reaching) / 2)
       < precise_center_threshold speed_settings
    /\ Qabs (inject_Z (m_y_center m) - inject_Z (frame_height reaching) / 2)
       < precise_center_threshold speed_settings
    /\ current_aruco_id
         (locals (after (fly_step speed_settings at_take_off reaching)))
       = Some (m_id m)
    /\ emitted (fly_step speed_settings at_take_off reaching)
       = [time_sleep 5; set_manual_speed_body_fixed zero_velocity].
Proof.
  apply (FlightMore.scan_phase_entered_when_stabilised speed_settings
           at_take_off reaching).
  - reflexivity.
  - vm_compute. reflexivity.
Defined.

(** Marker 1 scanned, then seen again beside marker 2 for three frames. *)
Lemma scanned_marker_never_locked_again_witness :
  let st' :=
    fst (fst (fly_loop speed_settings scanned_one
                (seeing_for 3 1 (Some two_markers)))) in
  1%Z ∈ scanned_markers (self st') /\ locked_marker_id (self st') <> Some 1%Z.
Proof.
  apply (FlightMore.scanned_marker_never_locked_again speed_settings
           (seeing_for 3 1 (Some two_markers)) scanned_one _
           (snd (fst (fly_loop speed_settings scanned_one
                        (seeing_for 3 1 (Some two_markers)))))
           loop_signal 1%Z).
  - apply (bool_decide_unpack _). vm_compute. exact I.
  - vm_compute. discriminate.
  - vm_compute. reflexivity.
Defined.

(** The sweep of [long_sweep] has turned downwards; the next frame without
    a code raises. *)
Lemma descending_sweep_raises_witness :
  let st' := fst (fst (fly_loop speed_settings at_take_off long_sweep)) in
  fly_step speed_settings st' (seeing 30 None)
  = {| after := st'; emitted := []; flow := flow_raise |}.
Proof.
  apply (FlightMore.descending_sweep_raises speed_settings long_sweep
           at_take_off _
           (snd (fst (fly_loop speed_settings at_take_off long_sweep)))
           loop_signal (seeing 30 None)).
  - reflexivity.
  - vm_compute. reflexivity.
  - vm_compute. reflexivity.
  - vm_compute. reflexivity.
  - reflexivity.
  - vm_compute. discriminate.
Defined.

(** [full_payload] read for the first time, marker 1 reached. *)
Lemma successful_scans_counted_per_read_witness :
  let st' := after (fly_step speed_settings stabilised (reading 7 full_payload)) in
  let n := sr_successful_scans (scan_results (self stabilised)) in
  sr_successful_scans (scan_results (self st'))
  = if bool_decide (full_payload ∈ scanned_qr_codes (self stabilised))
    then (n + 1)%Z else (n + 2)%Z.
Proof.
  apply (FlightMore.successful_scans_counted_per_read speed_settings
           stabilised (reading 7 full_payload) full_payload).
  - vm_compute. reflexivity.
  - reflexivity.
  - discriminate.
  - apply (bool_decide_unpack _). vm_compute. exact I.
Defined.

(** Five reads failed at marker 7; the first read that fails at marker 1
    starts the retreat. *)
Lemma retry_budget_is_per_flight_witness :
  let st' := fst (fst (fly_loop speed_settings worn_out next_shelf)) in
  let f := reading 40 (lit "hello") in
  let r := fly_step speed_settings st' f in
  retreat_mode (locals (after r)) = true
  /\ retreat_start_time (locals (after r)) = Some (now f)
  /\ target_reached (locals (after r)) = false
  /\ exists calls,
       emitted r
       = calls ++ [set_manual_speed_body_fixed
                     (retreat_velocity speed_settings)].
Proof.
  apply (FlightMore.retry_budget_is_per_flight speed_settings next_shelf
           worn_out _
           (snd (fst (fly_loop speed_settings worn_out next_shelf)))
           loop_signal (reading 40 (lit "hello")) (lit "hello")).
  - vm_compute. discriminate.
  - vm_compute. reflexivity.
  - vm_compute. reflexivity.
  - vm_compute. reflexivity.
  - reflexivity.
  - discriminate.
  - apply (bool_decide_unpack _). vm_compute. exact I.
Defined.

(** The flight [one_visit]. *)
Lemma fly_loop_only_steers_witness :
  let evs := snd (fst (fly_loop speed_settings at_take_off one_visit)) in
  Forall (fun e => is_loop_call e = true) evs
  /\ ~ In arm evs
  /\ ~ In takeoff evs
  /\ ~ In land evs
  /\ ~ In close_connection evs
  /\ forall session status results,
       ~ In (end_scan_session session status results) evs.
Proof.
  apply (FlightMore.fly_loop_only_steers speed_settings one_visit at_take_off
           (fst (fst (fly_loop speed_settings at_take_off one_visit)))
           (snd (fst (fly_loop speed_settings at_take_off one_visit)))
           loop_signal).
  vm_compute. reflexivity.
Defined.

(** ** Shutdown *)

(** ESC on the first frame, in the world [stormy]. *)
Lemma fly_lands_after_takeoff_witness :
  let run :=
    fly speed_settings true 0 20 [got_frame (closing 1)] stormy booked [] in
  In land (snd run)
  /\ ((forall history, raises stormy history land = false) ->
      is_flying (snd (fst run)) = false).
Proof.
  apply (SessionMore.fly_lands_after_takeoff speed_settings stormy booked
           0 20 [got_frame (closing 1)]).
  - reflexivity.
  - intros history. reflexivity.
  - intros history. reflexivity.
  - intros history. reflexivity.
Defined.

(** The same flight: the session ["session"] is finalized. *)
Lemma finalization_never_skipped_witness :
  (1 <= finalizations (lit "session")
          (snd (fly speed_settings true 0 20 [got_frame (closing 1)]
                  stormy booked []))
   <= 3)%nat.
Proof.
  apply (SessionFacts.finalization_never_skipped speed_settings stormy
           (Some (lit "session")) (lit "session") eq_refl booked 0 20
           [got_frame (closing 1)]).
  - intros history. reflexivity.
  - reflexivity.
  - reflexivity.
Defined.

(** ** Around the flight *)

(** Three decodes of one frame, the last one the largest. *)
Lemma process_frame_qr_returns_largest_witness :
  lit "id: a1" <> []
  /\ ~ In FrameQr.decode_raised three_decodes
  /\ exists qr_size,
       In (FrameQr.decoded (lit "id: a1") (Some qr_size)) three_decodes
       /\ 0 < qr_size
       /\ Some (lit "id: a1", 55) = Some (lit "id: a1", qr_size)
       /\ forall text' size',
            In (FrameQr.decoded text' (Some size')) three_decodes ->
            text' <> [] -> size' <= qr_size.
Proof.
  apply (FrameQrFacts.process_frame_qr_returns_largest three_decodes
           (lit "id: a1") (Some (lit "id: a1", 55))).
  vm_compute. reflexivity.
Defined.

(** A name with stray whitespace, under [basic_unicode]. *)
Lemma clean_string_idempotent_witness :
  let s := lit "  red   box " in
  Database.split_whitespace (Database.clean_string s)
  = Database.split_whitespace s
  /\ Database.clean_string (Database.clean_string s) = Database.clean_string s.
Proof.
  apply (DatabaseFacts.clean_string_idempotent (lit "  red   box ")).
  reflexivity.
Defined.

(** Marker 1 in the table of the source. *)
Lemma location_index_inverts_witness :
  (list_to_map ARUCO_LOCATIONS_items : gmap Z (str * str)) !! 1%Z
  = Some (lit "1", lit "1")
  <-> exists ids,
        BotHandlers.LOCATION_TO_ARUCO ARUCO_LOCATIONS_items
          !! location_key (lit "1", lit "1") = Some ids
        /\ In 1%Z ids.
Proof.
  apply (IndexFacts.location_index_inverts ARUCO_LOCATIONS_items 1%Z
           (lit "1", lit "1")).
  apply (bool_decide_unpack _). vm_compute. exact I.
Defined.

(** The item stored for [full_payload] in front of marker 1. *)
Lemma stored_location_indexes_marker_witness :
  exists id ids,
    self_current_aruco_id facing_marker_1 = Some id
    /\ BotHandlers.LOCATION_TO_ARUCO ARUCO_LOCATIONS_items
         !! (Database.clean_string (stellazh_ ++ lit "1"),
             Database.clean_string (polka_ ++ lit "1")) = Some ids
    /\ In id ids.
Proof.
  apply (IndexFacts.stored_location_indexes_marker facing_marker_1 sample_db
           full_payload true
           (snd (fst (process_qr_data facing_marker_1 sample_db full_payload)))
           (snd (process_qr_data facing_marker_1 sample_db full_payload))
           (lit "a1") (lit "box")).
  - vm_compute. reflexivity.
  - vm_compute. auto.
Defined.

End Examples.
